(** * agtype: values, text I/O, builders and access operators

    A shallow embedding of [src/backend/utils/adt/agtype.c] and of the parts
    of the value engine it calls.  An encoded container ([agtype]) is
    identified with the value tree it encodes: the byte layout plays no part
    in the properties stated here. *)

From Stdlib Require Import ZArith List String Ascii Bool Lia QArith.
From Stdlib Require Import SpecFloat DecimalString.
Import ListNotations.

Open Scope string_scope.
Open Scope list_scope.
Open Scope Z_scope.

(** ** Machine integers *)

Definition INT64_MIN : Z := - 2 ^ 63.
Definition INT64_MAX : Z := 2 ^ 63 - 1.
Definition UINT32_MAX : Z := 2 ^ 32 - 1.

(** Two's complement wrap-around of a 64-bit signed sum. *)
Definition wrap_int64 (z : Z) : Z := (z + 2 ^ 63) mod 2 ^ 64 - 2 ^ 63.

(** Conversion of an [int64] to a [uint32] parameter. *)
Definition to_uint32 (z : Z) : Z := z mod 2 ^ 32.

Definition in_int64 (z : Z) : Prop := INT64_MIN <= z <= INT64_MAX.

(** ** Errors and outcomes

    [ereport(ERROR, ...)] and [elog(ERROR, ...)] abort the call; every
    constructor stands for one message of the source. *)

Inductive agtype_error : Type :=
| StringTooLong            (* string too long to represent as agtype string *)
| InvalidAnnotation        (* invalid annotation value for scalar *)
| InvalidTokenType         (* invalid agtype token type *)
| InvalidInputSyntax       (* a host input function rejected the token *)
| UnexpectedParent         (* unexpected parent of nested structure *)
| UnknownScalarType        (* unknown agtype scalar type *)
| UnknownIteratorToken     (* unknown agtype iterator token type *)
| KeyMustBeScalar          (* key value must be scalar, not array, ... *)
| CouldNotDetermineType    (* could not determine input data type *)
| StackDepthExceeded       (* check_stack_depth() *)
| GraphidNull              (* graphid cannot be NULL *)
| StartidNull              (* startid cannot be NULL *)
| EndidNull                (* endoid cannot be NULL *)
| LabelNull                (* label cannot be NULL *)
| PropertiesNotObject      (* properties argument must be an object *)
| InvalidKeyInteger        (* AGTV_INTEGER is not a valid key type *)
| InvalidKeyFloat          (* AGTV_FLOAT is not a valid key type *)
| InvalidKeyNumeric        (* AGTV_NUMERIC is not a valid key type *)
| InvalidKeyBool           (* AGTV_BOOL is not a valid key type *)
| ArrayIndexNotInteger     (* array index must resolve to an integer value *)
| KeyNotScalar             (* key must resolve to a scalar value *)
| ContainerNotArrayOrObject (* container must be an array or object *)
| SliceBoundsRequired      (* slice start and/or end is required *)
| SliceNotList             (* slice must access a list *)
| SliceNotInteger          (* array slices must resolve to an integer value *)
| InNotList                (* object of IN must be a list *)
| ContractViolation        (* push_agtype_value called in the wrong frame *)
| NullDereference.         (* a NULL pointer would be dereferenced *)

Inductive outcome (A : Type) : Type :=
| Ok (a : A)
| Error (e : agtype_error).

Arguments Ok {A} a.
Arguments Error {A} e.

Definition bind {A B : Type} (r : outcome A) (k : A -> outcome B) : outcome B :=
  match r with
  | Ok a => k a
  | Error e => Error e
  end.

Notation "x <- r ;; k" := (bind r (fun x => k))
  (at level 61, r at next level, right associativity).
Notation "' p <- r ;; k" := (bind r (fun x => match x with p => k end))
  (at level 61, p pattern, r at next level, right associativity).

Definition is_ok {A : Type} (r : outcome A) : bool :=
  match r with Ok _ => true | Error _ => false end.

(** ** Data model *)

(** The host's arbitrary-precision decimal ([Numeric]): not-a-number, or the
    value [digits / 10 ^ dscale]. *)
Inductive numeric : Type :=
| NumericNaN
| NumericVal (digits : Z) (dscale : nat).

(** A 64-bit float, by its IEEE 754 class, sign, mantissa and exponent. *)
Definition float8 : Type := spec_float.

(** [enum agtype_value_type]: the scalar kinds precede [AGTV_ARRAY]. *)
Inductive agtype_value_type : Type :=
| T_NULL | T_STRING | T_NUMERIC | T_INTEGER | T_FLOAT | T_BOOL
| T_VERTEX | T_EDGE | T_ARRAY | T_OBJECT.

(** [agtype_value].  An object's keys are String scalars, kept here as the
    string itself.  A nested container handed out in packed form
    (AGTV_BINARY) is the sub-tree itself. *)
#[warnings="-register-all"]
Inductive agtype_value : Type :=
| AGTV_NULL
| AGTV_STRING (val : string)
| AGTV_NUMERIC (n : numeric)
| AGTV_INTEGER (int_value : Z)
| AGTV_FLOAT (float_value : float8)
| AGTV_BOOL (boolean : bool)
| AGTV_VERTEX (pairs : list (string * agtype_value))
| AGTV_EDGE (pairs : list (string * agtype_value))
| AGTV_ARRAY (raw_scalar : bool) (elems : list agtype_value)
| AGTV_OBJECT (pairs : list (string * agtype_value)).

Definition type_of (v : agtype_value) : agtype_value_type :=
  match v with
  | AGTV_NULL => T_NULL
  | AGTV_STRING _ => T_STRING
  | AGTV_NUMERIC _ => T_NUMERIC
  | AGTV_INTEGER _ => T_INTEGER
  | AGTV_FLOAT _ => T_FLOAT
  | AGTV_BOOL _ => T_BOOL
  | AGTV_VERTEX _ => T_VERTEX
  | AGTV_EDGE _ => T_EDGE
  | AGTV_ARRAY _ _ => T_ARRAY
  | AGTV_OBJECT _ => T_OBJECT
  end.

Definition agtype_value_type_eqb (a b : agtype_value_type) : bool :=
  match a, b with
  | T_NULL, T_NULL | T_STRING, T_STRING | T_NUMERIC, T_NUMERIC
  | T_INTEGER, T_INTEGER | T_FLOAT, T_FLOAT | T_BOOL, T_BOOL
  | T_VERTEX, T_VERTEX | T_EDGE, T_EDGE | T_ARRAY, T_ARRAY
  | T_OBJECT, T_OBJECT => true
  | _, _ => false
  end.

(** [IS_A_AGTYPE_SCALAR]: type >= AGTV_NULL && type < AGTV_ARRAY. *)
Definition IS_A_AGTYPE_SCALAR (v : agtype_value) : bool :=
  match v with
  | AGTV_ARRAY _ _ | AGTV_OBJECT _ => false
  | _ => true
  end.

(** An encoded value: a root container, Array or Object. *)
Definition agtype : Type := agtype_value.

Definition AGT_ROOT_IS_SCALAR (a : agtype) : bool :=
  match a with AGTV_ARRAY raw _ => raw | _ => false end.

Definition AGT_ROOT_IS_ARRAY (a : agtype) : bool :=
  match a with AGTV_ARRAY _ _ => true | _ => false end.

Definition AGT_ROOT_IS_OBJECT (a : agtype) : bool :=
  match a with AGTV_OBJECT _ => true | _ => false end.

Definition AGT_ROOT_COUNT (a : agtype) : Z :=
  match a with
  | AGTV_ARRAY _ elems => Z.of_nat (List.length elems)
  | AGTV_OBJECT pairs => Z.of_nat (List.length pairs)
  | _ => 0
  end.

(** Modelled from the spec: [agtype_value_to_agtype] (the encoder's entry
    point, agtype_util.c).  "A top-level scalar is always wrapped in a
    length-1 raw-scalar Array first, so every top-level Container is
    uniformly Object or Array"; a container is encoded as it is. *)
Definition agtype_value_to_agtype (val : agtype_value) : agtype :=
  if IS_A_AGTYPE_SCALAR val then AGTV_ARRAY true [val] else val.

(** Modelled from the spec: [get_ith_agtype_value_from_container]
    (agtype_util.c).  Indexed access into an Array container:
    "out-of-range access yields not found"; [i] is a [uint32]. *)
Definition get_ith_agtype_value_from_container (c : agtype) (i : Z)
  : option agtype_value :=
  match c with
  | AGTV_ARRAY _ elems =>
      if i <? Z.of_nat (List.length elems) then nth_error elems (Z.to_nat i)
      else None
  | _ => None
  end.

(** Modelled from the spec: [find_agtype_value_from_container] with
    AGT_FOBJECT (agtype_util.c).  "given an Object Container and a target
    String key, scan entries comparing decoded key bytes ..., returning the
    paired value or not found". *)
Fixpoint find_pair (pairs : list (string * agtype_value)) (key : string)
  : option agtype_value :=
  match pairs with
  | [] => None
  | (k, v) :: rest => if String.eqb k key then Some v else find_pair rest key
  end.

Definition find_agtype_value_from_container (c : agtype) (key : string)
  : option agtype_value :=
  match c with
  | AGTV_OBJECT pairs => find_pair pairs key
  | _ => None
  end.

(** ** Parse state stack *)

(** Tokens of the iterator, also the events of [push_agtype_value]. *)
Inductive agtype_iterator_token : Type :=
| WAGT_DONE
| WAGT_KEY
| WAGT_VALUE
| WAGT_ELEM
| WAGT_BEGIN_ARRAY
| WAGT_END_ARRAY
| WAGT_BEGIN_OBJECT
| WAGT_END_OBJECT.

(** An in-progress frame: its container value so far ([cont_val]) and, in
    an object frame, the key that waits for its value. *)
Inductive parse_frame : Type :=
| ArrayFrame (raw_scalar : bool) (elems : list agtype_value)
| ObjectFrame (pairs : list (string * agtype_value)) (pending : option string).

(** [agtype_parse_state *]: the innermost frame first; NULL is [[]]. *)
Definition agtype_parse_state : Type := list parse_frame.

Definition cont_val (f : parse_frame) : agtype_value :=
  match f with
  | ArrayFrame raw elems => AGTV_ARRAY raw elems
  | ObjectFrame pairs _ => AGTV_OBJECT pairs
  end.

(** Appending a finished value to a frame, "exactly as Elem/Value would". *)
Definition append_element (f : parse_frame) (v : agtype_value)
  : outcome parse_frame :=
  match f with
  | ArrayFrame raw elems => Ok (ArrayFrame raw (elems ++ [v]))
  | ObjectFrame _ _ => Error ContractViolation
  end.

Definition append_value (f : parse_frame) (v : agtype_value)
  : outcome parse_frame :=
  match f with
  | ObjectFrame pairs (Some k) => Ok (ObjectFrame (pairs ++ [(k, v)]) None)
  | _ => Error ContractViolation
  end.

Definition append_key (f : parse_frame) (v : agtype_value)
  : outcome parse_frame :=
  match f, v with
  | ObjectFrame pairs _, AGTV_STRING k => Ok (ObjectFrame pairs (Some k))
  | _, _ => Error ContractViolation
  end.

Definition append_to_parent (f : parse_frame) (v : agtype_value)
  : outcome parse_frame :=
  match f with
  | ArrayFrame _ _ => append_element f v
  | ObjectFrame _ _ => append_value f v
  end.

(** Modelled from the spec: [push_agtype_value] (agtype_util.c), the Parse
    State Stack of section 4.1.  "BeginObject/BeginArray push a fresh frame;
    Key records a pending key; Elem/Value append to the current frame's
    array or to the pending key's slot; End* pops the frame, wraps it as a
    completed Container, and appends it into the parent frame exactly as
    Elem/Value would.  Each call returns the most-recently
    completed/in-progress node."  A Key outside an Object frame or an Elem
    outside an Array frame is a contract violation.  The value handed to
    BeginArray carries the raw-scalar mark of the new array. *)
Definition push_agtype_value (pstate : agtype_parse_state)
  (seq : agtype_iterator_token) (scalar_val : option agtype_value)
  : outcome (agtype_parse_state * agtype_value) :=
  match seq with
  | WAGT_BEGIN_ARRAY =>
      let raw := match scalar_val with
                 | Some (AGTV_ARRAY raw _) => raw
                 | _ => false
                 end in
      Ok (ArrayFrame raw [] :: pstate, AGTV_ARRAY raw [])
  | WAGT_BEGIN_OBJECT =>
      Ok (ObjectFrame [] None :: pstate, AGTV_OBJECT [])
  | WAGT_KEY =>
      match pstate, scalar_val with
      | f :: rest, Some k =>
          f' <- append_key f k ;; Ok (f' :: rest, cont_val f')
      | [], Some _ => Error ContractViolation
      | _, None => Error NullDereference
      end
  | WAGT_VALUE =>
      match pstate, scalar_val with
      | f :: rest, Some v =>
          f' <- append_value f v ;; Ok (f' :: rest, cont_val f')
      | [], Some _ => Error ContractViolation
      | _, None => Error NullDereference
      end
  | WAGT_ELEM =>
      match pstate, scalar_val with
      | f :: rest, Some v =>
          f' <- append_element f v ;; Ok (f' :: rest, cont_val f')
      | [], Some _ => Error ContractViolation
      | _, None => Error NullDereference
      end
  | WAGT_END_ARRAY | WAGT_END_OBJECT =>
      match pstate with
      | [] => Error ContractViolation
      | f :: [] => Ok ([], cont_val f)
      | f :: parent :: rest =>
          parent' <- append_to_parent parent (cont_val f) ;;
          Ok (parent' :: rest, cont_val f)
      end
  | WAGT_DONE => Error ContractViolation
  end.

(** [agtype_in_state]: the builder a construction call owns. *)
Record agtype_in_state : Type := mk_in_state {
  parse_state : agtype_parse_state;
  res : option agtype_value
}.

Definition empty_in_state : agtype_in_state := mk_in_state [] None.

(** [_state->res = push_agtype_value(&_state->parse_state, seq, v)]. *)
Definition push (st : agtype_in_state) (seq : agtype_iterator_token)
  (scalar_val : option agtype_value) : outcome agtype_in_state :=
  '(ps, r) <- push_agtype_value (parse_state st) seq scalar_val ;;
  Ok (mk_in_state ps (Some r)).

(** [for (i = from; i < to; i++) body]: [steps] iterations are left. *)
Fixpoint for_loop {S : Type} (steps : nat) (i : Z)
  (body : Z -> S -> outcome S) (s : S) : outcome S :=
  match steps with
  | O => Ok s
  | S steps' => s' <- body i s ;; for_loop steps' (i + 1) body s'
  end.

Definition for_range {S : Type} (from to : Z)
  (body : Z -> S -> outcome S) (s : S) : outcome S :=
  for_loop (Z.to_nat (to - from)) from body s.

(** ** Access operators *)

(** [execute_map_access_operator]: NULL (SQL null) is [Ok None]. *)
Definition execute_map_access_operator (map key : agtype)
  : outcome (option agtype) :=
  match get_ith_agtype_value_from_container key 0 with
  | None => Error NullDereference
  | Some key_value =>
      match key_value with
      | AGTV_NULL => Ok None
      | AGTV_INTEGER _ => Error InvalidKeyInteger
      | AGTV_FLOAT _ => Error InvalidKeyFloat
      | AGTV_NUMERIC _ => Error InvalidKeyNumeric
      | AGTV_BOOL _ => Error InvalidKeyBool
      | AGTV_STRING s =>
          match find_agtype_value_from_container map s with
          | None => Ok None
          | Some map_value => Ok (Some (agtype_value_to_agtype map_value))
          end
      | _ => Error UnknownScalarType
      end
  end.

(** [execute_array_access_operator]: [index] is an int64, [size] a uint32
    widened to int64 in [size + index] and in the bounds check. *)
Definition execute_array_access_operator (array element : agtype)
  : outcome (option agtype) :=
  match get_ith_agtype_value_from_container element 0 with
  | None => Error NullDereference
  | Some element_value =>
      match element_value with
      | AGTV_NULL => Ok None
      | AGTV_INTEGER int_value =>
          let index := int_value in
          let size := AGT_ROOT_COUNT array in
          let index := if index <? 0 then wrap_int64 (size + index)
                       else index in
          if (index >=? size) || (index <? 0) then Ok None
          else
            match get_ith_agtype_value_from_container array
                    (to_uint32 index) with
            | None => Ok None
            | Some array_value => Ok (Some (agtype_value_to_agtype array_value))
            end
      | _ => Error ArrayIndexNotInteger
      end
  end.

(** The body of the loop of [agtype_access_slice]: element [i] is pushed. *)
Definition slice_body (array : agtype) (i : Z) (st : agtype_in_state)
  : outcome agtype_in_state :=
  push st WAGT_ELEM
    (get_ith_agtype_value_from_container array (to_uint32 i)).

(** [agtype_access_slice]; an argument that is SQL NULL is [None]. *)
Definition agtype_access_slice (arg0 arg1 arg2 : option agtype)
  : outcome (option agtype) :=
  match arg0 with
  | None => Ok None
  | Some array =>
      match arg1, arg2 with
      | None, None => Error SliceBoundsRequired
      | _, _ =>
          if negb (AGT_ROOT_IS_ARRAY array) || AGT_ROOT_IS_SCALAR array
          then Error SliceNotList
          else
            let array_size := AGT_ROOT_COUNT array in
            (* a bound that is SQL NULL or AGTV_NULL leaves its index unset *)
            let bound (arg : option agtype)
              : outcome (option agtype_value) :=
              match arg with
              | None => Ok None
              | Some a =>
                  match get_ith_agtype_value_from_container a 0 with
                  | None => Error NullDereference
                  | Some AGTV_NULL => Ok None
                  | Some v => Ok (Some v)
                  end
              end in
            lidx_value <- bound arg1 ;;
            uidx_value <- bound arg2 ;;
            match lidx_value, uidx_value with
            | None, None => Error SliceBoundsRequired
            | _, _ =>
                let is_int (v : option agtype_value) : bool :=
                  match v with
                  | Some (AGTV_INTEGER _) | None => true
                  | _ => false
                  end in
                if negb (is_int lidx_value) || negb (is_int uidx_value)
                then Error SliceNotInteger
                else
                  let lower_index :=
                    match lidx_value with
                    | Some (AGTV_INTEGER i) => i
                    | _ => 0
                    end in
                  let upper_index :=
                    match uidx_value with
                    | Some (AGTV_INTEGER i) => i
                    | _ => array_size
                    end in
                  let lower_index :=
                    if lower_index <? 0
                    then wrap_int64 (array_size + lower_index)
                    else lower_index in
                  let lower_index :=
                    if lower_index <? 0 then 0 else lower_index in
                  let lower_index :=
                    if lower_index >? array_size then array_size
                    else lower_index in
                  let upper_index :=
                    if upper_index <? 0
                    then wrap_int64 (array_size + upper_index)
                    else upper_index in
                  let upper_index :=
                    if upper_index <? 0 then 0 else upper_index in
                  let upper_index :=
                    if upper_index >? array_size then array_size
                    else upper_index in
                  result0 <- push empty_in_state WAGT_BEGIN_ARRAY None ;;
                  result1 <-
                    for_range lower_index upper_index (slice_body array)
                      result0 ;;
                  result2 <- push result1 WAGT_END_ARRAY None ;;
                  match res result2 with
                  | None => Error NullDereference
                  | Some r => Ok (Some (agtype_value_to_agtype r))
                  end
            end
      end
  end.

(** ** The environment of agtype.c

    What the file takes from its headers and from the database host: the
    entry-length mask of utils/agtype.h, the host's input and output
    functions, its type catalog, the lexer/parser driving the hooks, and the
    comparators of the ordering engine. *)

Definition Oid : Type := Z.

Definition InvalidOid : Oid := 0.
Definition BOOLOID : Oid := 16.
Definition INT8OID : Oid := 20.
Definition INT2OID : Oid := 21.
Definition INT4OID : Oid := 23.
Definition JSONOID : Oid := 114.
Definition FLOAT4OID : Oid := 700.
Definition FLOAT8OID : Oid := 701.
Definition DATEOID : Oid := 1082.
Definition TIMESTAMPOID : Oid := 1114.
Definition TIMESTAMPTZOID : Oid := 1184.
Definition NUMERICOID : Oid := 1700.
Definition ANYARRAYOID : Oid := 2277.
Definition RECORDARRAYOID : Oid := 2287.
Definition JSONBOID : Oid := 3802.
Definition FirstNormalObjectId : Oid := 16384.

Definition OidIsValid (o : Oid) : bool := negb (o =? InvalidOid).

(** [agtype_token_type], as far as [agtype_in_scalar] tells the kinds
    apart; every other kind of token is [AGTYPE_TOKEN_OTHER]. *)
Inductive agtype_token_type : Type :=
| AGTYPE_TOKEN_STRING
| AGTYPE_TOKEN_INTEGER
| AGTYPE_TOKEN_FLOAT
| AGTYPE_TOKEN_NUMERIC
| AGTYPE_TOKEN_TRUE
| AGTYPE_TOKEN_FALSE
| AGTYPE_TOKEN_NULL
| AGTYPE_TOKEN_OTHER.

(** One call of a semantic action by the parser ([agtype_sem_action]). *)
Inductive sem_event : Type :=
| object_start
| object_end
| array_start
| array_end
| object_field_start (fname : string) (isnull : bool)
| scalar (token : string) (tokentype : agtype_token_type)
    (annotation : option string).

Inductive agt_type_category : Type :=
| AGT_TYPE_NULL
| AGT_TYPE_BOOL
| AGT_TYPE_INTEGER
| AGT_TYPE_FLOAT
| AGT_TYPE_NUMERIC
| AGT_TYPE_DATE
| AGT_TYPE_TIMESTAMP
| AGT_TYPE_TIMESTAMPTZ
| AGT_TYPE_AGTYPE
| AGT_TYPE_JSON
| AGT_TYPE_JSONB
| AGT_TYPE_ARRAY
| AGT_TYPE_COMPOSITE
| AGT_TYPE_JSONCAST
| AGT_TYPE_VERTEX
| AGT_TYPE_OTHER.

(** The enumerators' values, for the range test of [datum_to_agtype]. *)
Definition category_rank (c : agt_type_category) : Z :=
  match c with
  | AGT_TYPE_NULL => 0
  | AGT_TYPE_BOOL => 1
  | AGT_TYPE_INTEGER => 2
  | AGT_TYPE_FLOAT => 3
  | AGT_TYPE_NUMERIC => 4
  | AGT_TYPE_DATE => 5
  | AGT_TYPE_TIMESTAMP => 6
  | AGT_TYPE_TIMESTAMPTZ => 7
  | AGT_TYPE_AGTYPE => 8
  | AGT_TYPE_JSON => 9
  | AGT_TYPE_JSONB => 10
  | AGT_TYPE_ARRAY => 11
  | AGT_TYPE_COMPOSITE => 12
  | AGT_TYPE_JSONCAST => 13
  | AGT_TYPE_VERTEX => 14
  | AGT_TYPE_OTHER => 15
  end.

Class Host : Type := {
  (* utils/agtype.h *)
  AGTENTRY_OFFLENMASK : Z;
  (* input functions of the host; they report malformed input *)
  scanint8 : string -> outcome Z;
  int8in : string -> outcome Z;
  float8in_internal : string -> outcome float8;
  numeric_in : string -> outcome numeric;
  (* output functions of the host *)
  int8out : Z -> string;
  numeric_out : numeric -> string;
  (* snprintf("%.*g") of a finite double, as float8out calls it *)
  format_g : float8 -> string;
  (* the lexer and parser: the hook calls made for a text, in order *)
  parse_agtype : string -> outcome (list sem_event);
  (* SQL values and the type catalog *)
  Datum : Type;
  GRAPHIDOID : Oid;
  AGTYPEOID : Oid;
  DatumGetBool : Datum -> bool;
  DatumGetFloat8 : Datum -> float8;
  DatumGetTextPP : Datum -> string;
  DATUM_GET_AGTYPE_P : Datum -> agtype;
  GraphidGetDatum : Z -> Datum;
  AgtypeGetDatum : agtype -> Datum;
  OidOutputFunctionCall : Oid -> Datum -> string;
  OidFunctionCall1 : Oid -> Datum -> Datum;
  agtype_encode_date_time : Datum -> Oid -> string;
  getBaseType : Oid -> Oid;
  get_element_type : Oid -> Oid;
  type_is_rowtype : Oid -> bool;
  (* find_coercion_pathway(JSONOID, typoid, COERCION_EXPLICIT): the cast
     function, when the pathway is COERCION_PATH_FUNC *)
  find_json_cast_function : Oid -> option Oid;
  getTypeOutputInfo : Oid -> Oid;
  (* an array datum: element type, dimensions, elements with null flags *)
  ARR_ELEMTYPE : Datum -> Oid;
  ARR_DIMS : Datum -> list Z;
  deconstruct_array : Datum -> list (Datum * bool);
  (* a composite datum: per attribute, attisdropped, attname, atttypid and
     heap_getattr's value and null flag *)
  tuple_attributes : Datum -> list (bool * string * Oid * Datum * bool);
  (* the ordering engine (agtype_util.c) *)
  compare_agtype_scalar_values : agtype_value -> agtype_value -> Z;
  compare_agtype_containers_orderability : agtype -> agtype -> Z
}.

Section Agtype.

Context {host : Host}.

(** [strlen]: strings hold no NUL byte. *)
Definition strlen (s : string) : Z := Z.of_nat (String.length s).

Definition check_string_length (len : Z) : outcome Z :=
  if len >? AGTENTRY_OFFLENMASK then Error StringTooLong else Ok len.

(** An [AGTV_STRING] whose length field went through
    [check_string_length]. *)
Definition checked_string (s : string) : outcome agtype_value :=
  _ <- check_string_length (strlen s) ;; Ok (AGTV_STRING s).

Definition agtype_in_object_start (_state : agtype_in_state)
  : outcome agtype_in_state :=
  push _state WAGT_BEGIN_OBJECT None.

Definition agtype_in_object_end (_state : agtype_in_state)
  : outcome agtype_in_state :=
  push _state WAGT_END_OBJECT None.

Definition agtype_in_array_start (_state : agtype_in_state)
  : outcome agtype_in_state :=
  push _state WAGT_BEGIN_ARRAY None.

Definition agtype_in_array_end (_state : agtype_in_state)
  : outcome agtype_in_state :=
  push _state WAGT_END_ARRAY None.

Definition agtype_in_object_field_start (_state : agtype_in_state)
  (fname : string) (isnull : bool) : outcome agtype_in_state :=
  v <- checked_string fname ;;
  push _state WAGT_KEY (Some v).

(** [pg_strcasecmp(a, b) == 0] for an ASCII [b]: bytes are compared after
    folding 'A'..'Z' to lower case. *)
Definition pg_tolower (c : ascii) : ascii :=
  let n := N_of_ascii c in
  if ((65 <=? n) && (n <=? 90))%N then ascii_of_N (n + 32) else c.

Fixpoint fold_case (s : string) : string :=
  match s with
  | EmptyString => EmptyString
  | String c s' => String (pg_tolower c) (fold_case s')
  end.

Definition pg_strcasecmp_eq (a b : string) : bool :=
  String.eqb (fold_case a) (fold_case b).

(** The typecast annotation of [agtype_in_scalar]: the token type the switch
    is entered with. *)
Definition annotated_tokentype (tokentype : agtype_token_type)
  (annotation : option string) : outcome agtype_token_type :=
  match annotation with
  | None => Ok tokentype
  | Some a =>
      let len := strlen a in
      if (len =? 7) && pg_strcasecmp_eq a "numeric"
      then Ok AGTYPE_TOKEN_NUMERIC
      else if (len =? 7) && pg_strcasecmp_eq a "integer"
      then Ok AGTYPE_TOKEN_INTEGER
      else if (len =? 5) && pg_strcasecmp_eq a "float"
      then Ok AGTYPE_TOKEN_FLOAT
      else Error InvalidAnnotation
  end.

(** The switch of [agtype_in_scalar]: the scalar value of a token. *)
Definition scalar_of_token (token : string) (tokentype : agtype_token_type)
  : outcome agtype_value :=
  match tokentype with
  | AGTYPE_TOKEN_STRING => checked_string token
  | AGTYPE_TOKEN_INTEGER => i <- scanint8 token ;; Ok (AGTV_INTEGER i)
  | AGTYPE_TOKEN_FLOAT => f <- float8in_internal token ;; Ok (AGTV_FLOAT f)
  | AGTYPE_TOKEN_NUMERIC => n <- numeric_in token ;; Ok (AGTV_NUMERIC n)
  | AGTYPE_TOKEN_TRUE => Ok (AGTV_BOOL true)
  | AGTYPE_TOKEN_FALSE => Ok (AGTV_BOOL false)
  | AGTYPE_TOKEN_NULL => Ok AGTV_NULL
  | AGTYPE_TOKEN_OTHER => Error InvalidTokenType
  end.

(** The marker handed to BeginArray for a single root scalar:
    [va.type = AGTV_ARRAY], [raw_scalar = true], [num_elems = 1]. *)
Definition raw_scalar_marker : agtype_value := AGTV_ARRAY true [].

(** Inserting a finished scalar: wrapped when [parse_state] is NULL,
    otherwise appended to the frame on top ([key_scalar] is false in
    [agtype_in_scalar]). *)
Definition insert_scalar (st : agtype_in_state) (v : agtype_value)
  (key_scalar : bool) : outcome agtype_in_state :=
  match parse_state st with
  | [] =>
      st1 <- push st WAGT_BEGIN_ARRAY (Some raw_scalar_marker) ;;
      st2 <- push st1 WAGT_ELEM (Some v) ;;
      push st2 WAGT_END_ARRAY None
  | ArrayFrame _ _ :: _ => push st WAGT_ELEM (Some v)
  | ObjectFrame _ _ :: _ =>
      push st (if key_scalar then WAGT_KEY else WAGT_VALUE) (Some v)
  end.

Definition agtype_in_scalar (_state : agtype_in_state) (token : string)
  (tokentype : agtype_token_type) (annotation : option string)
  : outcome agtype_in_state :=
  tokentype' <- annotated_tokentype tokentype annotation ;;
  v <- scalar_of_token token tokentype' ;;
  insert_scalar _state v false.

(** One hook call of the parser on the builder. *)
Definition sem_action (st : agtype_in_state) (ev : sem_event)
  : outcome agtype_in_state :=
  match ev with
  | object_start => agtype_in_object_start st
  | object_end => agtype_in_object_end st
  | array_start => agtype_in_array_start st
  | array_end => agtype_in_array_end st
  | object_field_start fname isnull =>
      agtype_in_object_field_start st fname isnull
  | scalar token tokentype annotation =>
      agtype_in_scalar st token tokentype annotation
  end.

Fixpoint run_sem_actions (evs : list sem_event) (st : agtype_in_state)
  : outcome agtype_in_state :=
  match evs with
  | [] => Ok st
  | ev :: evs' => st' <- sem_action st ev ;; run_sem_actions evs' st'
  end.

(** The finished builder, encoded. *)
Definition encode_result (st : agtype_in_state) : outcome agtype :=
  match res st with
  | None => Error NullDereference
  | Some r => Ok (agtype_value_to_agtype r)
  end.

Definition agtype_from_cstring (str : string) : outcome agtype :=
  evs <- parse_agtype str ;;
  state <- run_sem_actions evs empty_in_state ;;
  encode_result state.

Definition agtype_in (str : string) : outcome agtype :=
  agtype_from_cstring str.

(** The scalar constructors. *)
Definition integer_to_agtype (i : Z) : agtype :=
  agtype_value_to_agtype (AGTV_INTEGER i).

Definition float_to_agtype (f : float8) : agtype :=
  agtype_value_to_agtype (AGTV_FLOAT f).

Definition string_to_agtype (s : string) : outcome agtype :=
  agtv <- checked_string s ;; Ok (agtype_value_to_agtype agtv).

Definition boolean_to_agtype (b : bool) : agtype :=
  agtype_value_to_agtype (AGTV_BOOL b).

Definition string_to_agtype_value (s : string) : outcome agtype_value :=
  checked_string s.

(** ** Text output *)

Local Notation "a +++ b" := (String.append a b)
  (at level 60, right associativity).

Definition hex_digit (n : N) : ascii :=
  if (n <? 10)%N then ascii_of_N (48 + n) else ascii_of_N (87 + n).

(** [escape_agtype]: the bytes appended for one character. *)
Definition escape_char (c : ascii) : string :=
  let n := N_of_ascii c in
  if (n =? 8)%N then "\b"
  else if (n =? 12)%N then "\f"
  else if (n =? 10)%N then "\n"
  else if (n =? 13)%N then "\r"
  else if (n =? 9)%N then "\t"
  else if (n =? 34)%N then String "\" (String (ascii_of_N 34) EmptyString)
  else if (n =? 92)%N then "\\"
  else if (n <? 32)%N
       then "\u00" +++ String (hex_digit (n / 16))
                        (String (hex_digit (n mod 16)) EmptyString)
       else String c EmptyString.

Definition is_nul (c : ascii) : bool := (N_of_ascii c =? 0)%N.

(** The loop of [escape_agtype], [for (p = str; *p; p++)]: it ends at the
    first NUL of the string it is given. *)
Fixpoint escape_chars (str : string) : string :=
  match str with
  | EmptyString => EmptyString
  | String c str' =>
      if is_nul c then EmptyString else escape_char c +++ escape_chars str'
  end.

Definition dquote : string := String (ascii_of_N 34) EmptyString.

Definition escape_agtype (buf : string) (str : string) : string :=
  buf +++ dquote +++ escape_chars str +++ dquote.

Definition is_digit (c : ascii) : bool :=
  let n := N_of_ascii c in ((48 <=? n) && (n <=? 57))%N.

(** The loop of [is_decimal_needed] from position [i] on. *)
Fixpoint digits_to_end (numstr : string) : bool :=
  match numstr with
  | EmptyString => true
  | String c rest =>
      let n := N_of_ascii c in
      if ((n <? 48) || (57 <? n))%N then false else digits_to_end rest
  end.

Definition is_decimal_needed (numstr : string) : bool :=
  match numstr with
  | String "-" rest => digits_to_end rest
  | _ => digits_to_end numstr
  end.

(** The host's [float8out]: "NaN", "Infinity" and "-Infinity" for the
    values that are not finite, [snprintf("%.*g")] for the others. *)
Definition float8out (num : float8) : string :=
  match num with
  | S754_nan => "NaN"
  | S754_infinity false => "Infinity"
  | S754_infinity true => "-Infinity"
  | _ => format_g num
  end.

(** Modelled from the spec: the token sequence of the iterator
    ([agtype_iterator_init], [agtype_iterator_next] with skipNested false;
    agtype_util.c), section 4.3.  "tokens follow written order exactly
    (object insertion order, array index order); each Key token is
    immediately followed by a Value token (scalar) or a Begin* token
    (nested)"; Done is the end of the list.  A Begin token comes with the
    container's header, a Key, Value or Elem token with its scalar. *)
Fixpoint agtype_iterator_tokens (c : agtype)
  : list (agtype_iterator_token * agtype_value) :=
  match c with
  | AGTV_ARRAY raw elems =>
      (WAGT_BEGIN_ARRAY, c)
        :: flat_map
             (fun e =>
                if IS_A_AGTYPE_SCALAR e then [(WAGT_ELEM, e)]
                else agtype_iterator_tokens e) elems
        ++ [(WAGT_END_ARRAY, c)]
  | AGTV_OBJECT pairs =>
      (WAGT_BEGIN_OBJECT, c)
        :: flat_map
             (fun '(k, v) =>
                (WAGT_KEY, AGTV_STRING k)
                  :: (if IS_A_AGTYPE_SCALAR v then [(WAGT_VALUE, v)]
                      else agtype_iterator_tokens v)) pairs
        ++ [(WAGT_END_OBJECT, c)]
  | _ => []
  end.

(** Modelled from the spec: the children an Array's iterator hands out with
    skipNested true, which "returns a nested container as one opaque binary
    slice instead of descending". *)
Definition agtype_iterator_children (c : agtype) : list agtype_value :=
  match c with
  | AGTV_ARRAY _ elems => elems
  | _ => []
  end.

Definition add_indent (out : string) (indent : bool) (level : Z) : string :=
  if indent
  then out +++ String (ascii_of_N 10) EmptyString
           +++ String.concat "" (repeat "    " (Z.to_nat level))
  else out.

(** The locals of [agtype_to_cstring_worker] that live across iterations. *)
Record worker_state : Type := mk_worker {
  first : bool;
  level : Z;
  use_indent : bool;
  w_raw_scalar : bool;
  last_was_key : bool
}.

Definition worker_init : worker_state := mk_worker true 0 false false false.

Section Worker.

(** [agtype_put_escaped_value] on the buffer, as the loop calls it. *)
Variable put : string -> agtype_value -> outcome string.
Variable indent : bool.

(** ", " cut to [ispaces] bytes. *)
Definition separator : string := if indent then "," else ", ".

Definition sep (w : worker_state) (out : string) : string :=
  if first w then out else out +++ separator.

(** The loop of [agtype_to_cstring_worker] over the tokens still to come.
    A Key pulls the token after it: a Value is printed at once, anything
    else is handled by the next turn of the switch ([redo_switch]). *)
Fixpoint worker_loop (toks : list (agtype_iterator_token * agtype_value))
  (w : worker_state) (out : string) : outcome string :=
  match toks with
  | [] => Ok out
  | (type, v) :: rest =>
      match type with
      | WAGT_BEGIN_ARRAY =>
          let out := sep w out in
          let raw := match v with AGTV_ARRAY raw _ => raw | _ => false end in
          let out :=
            if negb raw
            then add_indent out (use_indent w && negb (last_was_key w))
                   (level w) +++ "["
            else out in
          worker_loop rest
            (mk_worker true (level w + 1) indent
               (if negb raw then w_raw_scalar w else true) false) out
      | WAGT_BEGIN_OBJECT =>
          let out := sep w out in
          let out :=
            add_indent out (use_indent w && negb (last_was_key w)) (level w)
              +++ "{" in
          worker_loop rest
            (mk_worker true (level w + 1) indent (w_raw_scalar w) false) out
      | WAGT_KEY =>
          let out := sep w out in
          let out := add_indent out (use_indent w) (level w) in
          out <- put out v ;;
          let out := out +++ ": " in
          match rest with
          | [] => Error UnknownIteratorToken
          | (WAGT_VALUE, v') :: rest' =>
              out <- put out v' ;;
              worker_loop rest'
                (mk_worker false (level w) indent (w_raw_scalar w) false) out
          | _ :: _ =>
              worker_loop rest
                (mk_worker true (level w) indent (w_raw_scalar w) true) out
          end
      | WAGT_ELEM =>
          let out := sep w out in
          let out :=
            if negb (w_raw_scalar w)
            then add_indent out (use_indent w) (level w) else out in
          out <- put out v ;;
          worker_loop rest
            (mk_worker false (level w) indent (w_raw_scalar w) false) out
      | WAGT_END_ARRAY =>
          let level' := level w - 1 in
          let out :=
            if negb (w_raw_scalar w)
            then add_indent out (use_indent w) level' +++ "]" else out in
          worker_loop rest
            (mk_worker false level' indent (w_raw_scalar w) false) out
      | WAGT_END_OBJECT =>
          let level' := level w - 1 in
          let out := add_indent out (use_indent w) level' +++ "}" in
          worker_loop rest
            (mk_worker false level' indent (w_raw_scalar w) false) out
      | _ => Error UnknownIteratorToken
      end
  end.

Definition agtype_to_cstring_worker (out : string) (c : agtype)
  : outcome string :=
  worker_loop (agtype_iterator_tokens c) worker_init out.

End Worker.

(** [agtype_put_escaped_value].  A Vertex or an Edge is printed by a nested
    run of the worker on its Object form; [depth] bounds that nesting. *)
Fixpoint agtype_put_escaped_value (depth : nat) (out : string)
  (scalar_val : agtype_value) : outcome string :=
  match scalar_val with
  | AGTV_NULL => Ok (out +++ "null")
  | AGTV_STRING val => Ok (escape_agtype out val)
  | AGTV_NUMERIC n => Ok (out +++ numeric_out n +++ "::numeric")
  | AGTV_INTEGER int_value => Ok (out +++ int8out int_value)
  | AGTV_FLOAT float_value =>
      let numstr := float8out float_value in
      let out := out +++ numstr in
      Ok (if is_decimal_needed numstr then out +++ ".0" else out)
  | AGTV_BOOL boolean => Ok (out +++ (if boolean then "true" else "false"))
  | AGTV_VERTEX pairs =>
      match depth with
      | O => Error StackDepthExceeded
      | S depth' =>
          let prop := agtype_value_to_agtype (AGTV_OBJECT pairs) in
          out <- agtype_to_cstring_worker
                   (agtype_put_escaped_value depth') false out prop ;;
          Ok (out +++ "::vertex")
      end
  | AGTV_EDGE pairs =>
      match depth with
      | O => Error StackDepthExceeded
      | S depth' =>
          let prop := agtype_value_to_agtype (AGTV_OBJECT pairs) in
          out <- agtype_to_cstring_worker
                   (agtype_put_escaped_value depth') false out prop ;;
          Ok (out +++ "::edge")
      end
  | AGTV_ARRAY _ _ | AGTV_OBJECT _ => Error UnknownScalarType
  end.

(** How deep Vertex and Edge values nest inside a value. *)
Fixpoint vertex_depth (v : agtype_value) : nat :=
  match v with
  | AGTV_VERTEX pairs | AGTV_EDGE pairs =>
      S (list_max (map (fun '(_, x) => vertex_depth x) pairs))
  | AGTV_OBJECT pairs => list_max (map (fun '(_, x) => vertex_depth x) pairs)
  | AGTV_ARRAY _ elems => list_max (map vertex_depth elems)
  | _ => O
  end.

(** [agtype_to_cstring] and [agtype_to_cstring_indent] on a fresh buffer;
    the nesting of the value is the depth the run needs. *)
Definition agtype_to_cstring (c : agtype) : outcome string :=
  agtype_to_cstring_worker (agtype_put_escaped_value (vertex_depth c))
    false "" c.

Definition agtype_to_cstring_indent (c : agtype) : outcome string :=
  agtype_to_cstring_worker (agtype_put_escaped_value (vertex_depth c))
    true "" c.

Definition agtype_out (agt : agtype) : outcome string :=
  agtype_to_cstring agt.

(** ** Conversion of SQL values *)

Definition oid_in (o : Oid) (l : list Oid) : bool :=
  existsb (Z.eqb o) l.

(** [agtype_categorize_type]: the category and [outfuncoid]. *)
Definition agtype_categorize_type (typoid : Oid)
  : agt_type_category * Oid :=
  let typoid := getBaseType typoid in
  if typoid =? BOOLOID then (AGT_TYPE_BOOL, InvalidOid)
  else if oid_in typoid [INT2OID; INT4OID; INT8OID]
  then (AGT_TYPE_INTEGER, getTypeOutputInfo typoid)
  else if typoid =? FLOAT8OID
  then (AGT_TYPE_FLOAT, getTypeOutputInfo typoid)
  else if oid_in typoid [FLOAT4OID; NUMERICOID]
  then (AGT_TYPE_NUMERIC, getTypeOutputInfo typoid)
  else if typoid =? DATEOID then (AGT_TYPE_DATE, InvalidOid)
  else if typoid =? TIMESTAMPOID then (AGT_TYPE_TIMESTAMP, InvalidOid)
  else if typoid =? TIMESTAMPTZOID then (AGT_TYPE_TIMESTAMPTZ, InvalidOid)
  else if typoid =? JSONBOID then (AGT_TYPE_JSONB, InvalidOid)
  else if typoid =? JSONOID then (AGT_TYPE_JSON, InvalidOid)
  else if typoid =? AGTYPEOID then (AGT_TYPE_AGTYPE, InvalidOid)
  else if OidIsValid (get_element_type typoid)
          || (typoid =? ANYARRAYOID) || (typoid =? RECORDARRAYOID)
  then (AGT_TYPE_ARRAY, InvalidOid)
  else if type_is_rowtype typoid then (AGT_TYPE_COMPOSITE, InvalidOid)
  else if typoid =? GRAPHIDOID
  then (AGT_TYPE_INTEGER, getTypeOutputInfo typoid)
  else if typoid >=? FirstNormalObjectId
  then match find_json_cast_function typoid with
       | Some castfunc =>
           if OidIsValid castfunc then (AGT_TYPE_JSONCAST, castfunc)
           else (AGT_TYPE_OTHER, getTypeOutputInfo typoid)
       | None => (AGT_TYPE_OTHER, getTypeOutputInfo typoid)
       end
  else (AGT_TYPE_OTHER, getTypeOutputInfo typoid).

(** [ArrayGetNItems]. *)
Definition ArrayGetNItems (dims : list Z) : Z :=
  match dims with
  | [] => 0
  | _ => fold_left Z.mul dims 1
  end.

(** Invalid numeric output "will always have an 'N' or 'n' in it". *)
Fixpoint strchr (s : string) (c : ascii) : bool :=
  match s with
  | EmptyString => false
  | String c' s' => Ascii.eqb c' c || strchr s' c
  end.

Section Convert.

(** The recursive call of [datum_to_agtype], one stack level further. *)
Variable datum_to_agtype' :
  Datum -> bool -> agtype_in_state -> agt_type_category -> Oid -> bool ->
  outcome agtype_in_state.

(** [array_dim_to_agtype]: [dims] holds the dimensions from [dim] on; the
    state carries the builder and [*valcount]. *)
Fixpoint array_dim_to_agtype (dims : list Z) (vals : list (Datum * bool))
  (tcategory : agt_type_category) (outfuncoid : Oid)
  (st : agtype_in_state * Z) : outcome (agtype_in_state * Z) :=
  match dims with
  | [] => Error ContractViolation
  | d :: dims' =>
      r <- push (fst st) WAGT_BEGIN_ARRAY None ;;
      st' <-
        for_range 1 (d + 1)
          (fun _ (s : agtype_in_state * Z) =>
             match dims' with
             | [] =>
                 match nth_error vals (Z.to_nat (snd s)) with
                 | None => Error NullDereference
                 | Some (val, isnull) =>
                     r' <- datum_to_agtype' val isnull (fst s) tcategory
                             outfuncoid false ;;
                     Ok (r', snd s + 1)
                 end
             | _ :: _ =>
                 array_dim_to_agtype dims' vals tcategory outfuncoid s
             end)
          (r, snd st) ;;
      r'' <- push (fst st') WAGT_END_ARRAY None ;;
      Ok (r'', snd st')
  end.

Definition array_to_agtype_internal (array : Datum)
  (result : agtype_in_state) : outcome agtype_in_state :=
  let element_type := ARR_ELEMTYPE array in
  let dim := ARR_DIMS array in
  let nitems := ArrayGetNItems dim in
  if nitems <=? 0
  then
    r <- push result WAGT_BEGIN_ARRAY None ;;
    push r WAGT_END_ARRAY None
  else
    let '(tcategory, outfuncoid) := agtype_categorize_type element_type in
    let elements := deconstruct_array array in
    st <- array_dim_to_agtype dim elements tcategory outfuncoid (result, 0) ;;
    Ok (fst st).

Fixpoint composite_attributes
  (atts : list (bool * string * Oid * Datum * bool))
  (result : agtype_in_state) : outcome agtype_in_state :=
  match atts with
  | [] => Ok result
  | (attisdropped, attname, atttypid, val, isnull) :: atts' =>
      if attisdropped then composite_attributes atts' result
      else
        (* no check_string_length: a name cannot exceed the maximum *)
        r <- push result WAGT_KEY (Some (AGTV_STRING attname)) ;;
        let '(tcategory, outfuncoid) :=
          if isnull then (AGT_TYPE_NULL, InvalidOid)
          else agtype_categorize_type atttypid in
        r' <- datum_to_agtype' val isnull r tcategory outfuncoid false ;;
        composite_attributes atts' r'
  end.

Definition composite_to_agtype (composite : Datum)
  (result : agtype_in_state) : outcome agtype_in_state :=
  r <- push result WAGT_BEGIN_OBJECT None ;;
  r' <- composite_attributes (tuple_attributes composite) r ;;
  push r' WAGT_END_OBJECT None.

End Convert.

(** The loop of [datum_to_agtype] that copies a container token by token. *)
Fixpoint push_tokens (toks : list (agtype_iterator_token * agtype_value))
  (result : agtype_in_state) : outcome agtype_in_state :=
  match toks with
  | [] => Ok result
  | (type, agtv) :: toks' =>
      r <- match type with
           | WAGT_END_ARRAY | WAGT_END_OBJECT
           | WAGT_BEGIN_ARRAY | WAGT_BEGIN_OBJECT => push result type None
           | _ => push result type (Some agtv)
           end ;;
      push_tokens toks' r
  end.

Definition is_recursive_category (tcategory : agt_type_category) : bool :=
  (category_rank tcategory >=? category_rank AGT_TYPE_AGTYPE)
  && (category_rank tcategory <=? category_rank AGT_TYPE_JSONCAST).

(** [datum_to_agtype].  [depth] is the room left on the stack
    ([check_stack_depth]).  The first part yields the builder, the scalar
    [agtv] when one was made, and [scalar_agtype]. *)
Fixpoint datum_to_agtype (depth : nat) (val : Datum) (is_null : bool)
  (result : agtype_in_state) (tcategory : agt_type_category)
  (outfuncoid : Oid) (key_scalar : bool) : outcome agtype_in_state :=
  match depth with
  | O => Error StackDepthExceeded
  | S depth' =>
      '(result, agtv, scalar_agtype) <-
        (if is_null then Ok (result, Some AGTV_NULL, false)
         else if key_scalar
                 && match tcategory with
                    | AGT_TYPE_ARRAY | AGT_TYPE_COMPOSITE | AGT_TYPE_JSON
                    | AGT_TYPE_JSONB | AGT_TYPE_AGTYPE
                    | AGT_TYPE_JSONCAST => true
                    | _ => false
                    end
         then Error KeyMustBeScalar
         else
           let val := match tcategory with
                      | AGT_TYPE_JSONCAST => OidFunctionCall1 outfuncoid val
                      | _ => val
                      end in
           match tcategory with
           | AGT_TYPE_ARRAY =>
               r <- array_to_agtype_internal (datum_to_agtype depth')
                      val result ;;
               Ok (r, None, false)
           | AGT_TYPE_COMPOSITE =>
               r <- composite_to_agtype (datum_to_agtype depth')
                      val result ;;
               Ok (r, None, false)
           | AGT_TYPE_BOOL =>
               if key_scalar
               then Ok (result,
                        Some (AGTV_STRING
                                (if DatumGetBool val then "true"
                                 else "false")), false)
               else Ok (result, Some (AGTV_BOOL (DatumGetBool val)), false)
           | AGT_TYPE_INTEGER =>
               let outputstr := OidOutputFunctionCall outfuncoid val in
               if key_scalar
               then Ok (result, Some (AGTV_STRING outputstr), false)
               else
                 i <- int8in outputstr ;;
                 Ok (result, Some (AGTV_INTEGER i), false)
           | AGT_TYPE_FLOAT =>
               let outputstr := OidOutputFunctionCall outfuncoid val in
               if key_scalar
               then Ok (result, Some (AGTV_STRING outputstr), false)
               else Ok (result, Some (AGTV_FLOAT (DatumGetFloat8 val)), false)
           | AGT_TYPE_NUMERIC =>
               let outputstr := OidOutputFunctionCall outfuncoid val in
               if key_scalar
               then Ok (result, Some (AGTV_STRING outputstr), false)
               else if strchr outputstr "N" || strchr outputstr "n"
               then Ok (result, Some (AGTV_STRING outputstr), false)
               else
                 n <- numeric_in outputstr ;;
                 Ok (result, Some (AGTV_NUMERIC n), false)
           | AGT_TYPE_DATE =>
               Ok (result,
                   Some (AGTV_STRING (agtype_encode_date_time val DATEOID)),
                   false)
           | AGT_TYPE_TIMESTAMP =>
               Ok (result,
                   Some (AGTV_STRING
                           (agtype_encode_date_time val TIMESTAMPOID)),
                   false)
           | AGT_TYPE_TIMESTAMPTZ =>
               Ok (result,
                   Some (AGTV_STRING
                           (agtype_encode_date_time val TIMESTAMPTZOID)),
                   false)
           | AGT_TYPE_JSONCAST | AGT_TYPE_JSON =>
               evs <- parse_agtype (DatumGetTextPP val) ;;
               r <- run_sem_actions evs result ;;
               Ok (r, None, false)
           | AGT_TYPE_AGTYPE | AGT_TYPE_JSONB =>
               let jsonb := DATUM_GET_AGTYPE_P val in
               if AGT_ROOT_IS_SCALAR jsonb
               then
                 match agtype_iterator_children jsonb with
                 | e :: _ => Ok (result, Some e, true)
                 | [] => Ok (result, Some jsonb, true)
                 end
               else
                 r <- push_tokens (agtype_iterator_tokens jsonb) result ;;
                 Ok (r, None, false)
           | _ =>
               let outputstr := OidOutputFunctionCall outfuncoid val in
               v <- checked_string outputstr ;;
               Ok (result, Some v, false)
           end) ;;
      if negb is_null && negb scalar_agtype && is_recursive_category tcategory
      then Ok result
      else
        match agtv with
        | None => Error NullDereference
        | Some agtv => insert_scalar result agtv key_scalar
        end
  end.

(** [add_agtype]; the depth is that of the caller's stack. *)
Definition add_agtype (depth : nat) (val : Datum) (is_null : bool)
  (result : agtype_in_state) (val_type : Oid) (key_scalar : bool)
  : outcome agtype_in_state :=
  if val_type =? InvalidOid then Error CouldNotDetermineType
  else
    let '(tcategory, outfuncoid) :=
      if is_null then (AGT_TYPE_NULL, InvalidOid)
      else agtype_categorize_type val_type in
    datum_to_agtype depth val is_null result tcategory outfuncoid key_scalar.

(** [result.res->type = AGTV_VERTEX] and [AGTV_EDGE]: the Object just
    closed is tagged where it stands. *)
Definition retag (tag : list (string * agtype_value) -> agtype_value)
  (st : agtype_in_state) : outcome agtype_in_state :=
  match res st with
  | Some (AGTV_OBJECT pairs) =>
      Ok (mk_in_state (parse_state st) (Some (tag pairs)))
  | Some (AGTV_ARRAY _ _) => Error ContractViolation
  | Some _ => Error ContractViolation
  | None => Error NullDereference
  end.

Definition push_key (st : agtype_in_state) (name : string)
  : outcome agtype_in_state :=
  k <- string_to_agtype_value name ;; push st WAGT_KEY (Some k).

(** The properties argument of both builders. *)
Definition build_properties (depth : nat) (properties : option agtype)
  (result : agtype_in_state) : outcome agtype_in_state :=
  match properties with
  | None =>
      r <- push result WAGT_BEGIN_OBJECT None ;;
      push r WAGT_END_OBJECT None
  | Some properties =>
      if negb (AGT_ROOT_IS_OBJECT properties)
      then Error PropertiesNotObject
      else add_agtype depth (AgtypeGetDatum properties) false result
             AGTYPEOID false
  end.

(** [_agtype_build_vertex(graphid, cstring, agtype)]; an argument that is
    SQL NULL is [None]. *)
Definition _agtype_build_vertex (depth : nat) (arg0 : option Z)
  (arg1 : option string) (arg2 : option agtype) : outcome agtype :=
  result <- push empty_in_state WAGT_BEGIN_OBJECT None ;;
  result <- push_key result "id" ;;
  id <- match arg0 with None => Error GraphidNull | Some id => Ok id end ;;
  result <- add_agtype depth (GraphidGetDatum id) false result GRAPHIDOID
              false ;;
  result <- push_key result "label" ;;
  label <- match arg1 with None => Error LabelNull | Some l => Ok l end ;;
  v <- string_to_agtype_value label ;;
  result <- push result WAGT_VALUE (Some v) ;;
  result <- push_key result "properties" ;;
  result <- build_properties depth arg2 result ;;
  result <- push result WAGT_END_OBJECT None ;;
  result <- retag AGTV_VERTEX result ;;
  encode_result result.

(** [_agtype_build_edge(graphid, graphid, graphid, cstring, agtype)]. *)
Definition _agtype_build_edge (depth : nat) (arg0 arg1 arg2 : option Z)
  (arg3 : option string) (arg4 : option agtype) : outcome agtype :=
  result <- push empty_in_state WAGT_BEGIN_OBJECT None ;;
  result <- push_key result "id" ;;
  id <- match arg0 with None => Error GraphidNull | Some id => Ok id end ;;
  result <- add_agtype depth (GraphidGetDatum id) false result GRAPHIDOID
              false ;;
  result <- push_key result "start_id" ;;
  start_id <- match arg1 with
              | None => Error StartidNull
              | Some id => Ok id
              end ;;
  result <- add_agtype depth (GraphidGetDatum start_id) false result
              GRAPHIDOID false ;;
  result <- push_key result "end_id" ;;
  end_id <- match arg2 with
            | None => Error EndidNull
            | Some id => Ok id
            end ;;
  result <- add_agtype depth (GraphidGetDatum end_id) false result
              GRAPHIDOID false ;;
  result <- push_key result "label" ;;
  label <- match arg3 with None => Error LabelNull | Some l => Ok l end ;;
  v <- string_to_agtype_value label ;;
  result <- push result WAGT_VALUE (Some v) ;;
  result <- push_key result "properties" ;;
  result <- build_properties depth arg4 result ;;
  result <- push result WAGT_END_OBJECT None ;;
  result <- retag AGTV_EDGE result ;;
  encode_result result.

(** ** The IN operator *)

(** The loop of [agtype_in_operator] over the elements still to come. *)
Fixpoint in_operator_loop (agt_item : agtype) (agtv_item : agtype_value)
  (elems : list agtype_value) (result : bool) : bool :=
  match elems with
  | [] => result
  | agtv_elem :: elems' =>
      if result then result
      else
        let result :=
          if negb (IS_A_AGTYPE_SCALAR agtv_item)
             && negb (IS_A_AGTYPE_SCALAR agtv_elem)
          then compare_agtype_containers_orderability agt_item agtv_elem =? 0
          else if IS_A_AGTYPE_SCALAR agtv_item
                  && IS_A_AGTYPE_SCALAR agtv_elem
                  && agtype_value_type_eqb (type_of agtv_item)
                       (type_of agtv_elem)
          then compare_agtype_scalar_values agtv_item agtv_elem =? 0
          else result in
        in_operator_loop agt_item agtv_item elems' result
  end.

(** [agtype_in_operator]; SQL NULL as argument or result is [None]. *)
Definition agtype_in_operator (arg0 arg1 : option agtype)
  : outcome (option agtype) :=
  match arg0 with
  | None => Ok None
  | Some agt_array =>
      if negb (AGT_ROOT_IS_ARRAY agt_array) then Error InNotList
      else if AGT_ROOT_IS_SCALAR agt_array
      then match agtype_iterator_children agt_array with
           | AGTV_NULL :: _ => Ok None
           | _ => Error InNotList
           end
      else
        match arg1 with
        | None => Ok None
        | Some agt_item =>
            let agtv_item :=
              if AGT_ROOT_IS_SCALAR agt_item
              then match agtype_iterator_children agt_item with
                   | e :: _ => e
                   | [] => agt_item
                   end
              else agt_item in
            match agtv_item with
            | AGTV_NULL => Ok None
            | _ =>
                Ok (Some (boolean_to_agtype
                            (in_operator_loop agt_item agtv_item
                               (agtype_iterator_children agt_array) false)))
            end
        end
  end.

(** ** The access operator on a path *)

(** [&v->val.object.pairs[i].value]. *)
Definition pair_value (pairs : list (string * agtype_value)) (i : nat)
  : option agtype_value :=
  option_map snd (nth_error pairs i).

(** The loop of [agtype_access_operator] over the keys still to come;
    a key that is SQL NULL is [None]. *)
Fixpoint access_operator_loop (object : agtype) (keys : list (option agtype))
  : outcome (option agtype) :=
  match keys with
  | [] => Ok (Some object)
  | None :: _ => Ok None
  | Some key :: keys' =>
      if negb (AGT_ROOT_IS_SCALAR key) then Error KeyNotScalar
      else
        object' <-
          (if AGT_ROOT_IS_OBJECT object
           then execute_map_access_operator object key
           else if AGT_ROOT_IS_ARRAY object
           then execute_array_access_operator object key
           else Error ContainerNotArrayOrObject) ;;
        match object' with
        | None => Ok None
        | Some o => access_operator_loop o keys'
        end
  end.

(** The container the path starts from: a Vertex or an Edge stands for its
    properties, the third and the fifth pair. *)
Definition access_root (object : agtype) : outcome agtype :=
  if AGT_ROOT_IS_SCALAR object
  then
    match get_ith_agtype_value_from_container object 0 with
    | None => Error NullDereference
    | Some (AGTV_VERTEX pairs) =>
        match pair_value pairs 2 with
        | Some p => Ok (agtype_value_to_agtype p)
        | None => Error NullDereference
        end
    | Some (AGTV_EDGE pairs) =>
        match pair_value pairs 4 with
        | Some p => Ok (agtype_value_to_agtype p)
        | None => Error NullDereference
        end
    | Some _ => Error ContainerNotArrayOrObject
    end
  else Ok object.

(** [agtype_access_operator(variadic)]: the arguments with their null
    flags; the first one is read without a look at its flag. *)
Definition agtype_access_operator (args : list (option agtype))
  : outcome (option agtype) :=
  if Z.of_nat (List.length args) <? 2 then Ok None
  else
    match args with
    | [] => Ok None
    | None :: _ => Error NullDereference
    | Some object :: keys =>
        object <- access_root object ;;
        access_operator_loop object keys
    end.

(** ** Functions called from SQL

    Errors of the functions below that have no message among those of the
    parser and the operators above. *)

Inductive sql_error : Type :=
| StringValuesExpected     (* agtype string values expected *)
| TypecastNotScalar        (* typecast argument must resolve to a scalar *)
| TypecastNotNumber        (* expression to typecast must resolve to a number *)
| CannotCast (type : agtype_value_type) (sqltype : string)
                           (* cannot cast agtype <type> to type <sqltype> *)
| UnknownAgtypeType        (* unknown agtype type *)
| ArgumentListOdd          (* argument list must have been even number ... *)
| KeyMustNotBeNull (argno : Z) (* argument %d: key must not be null *)
| Raised (e : agtype_error).

Inductive sql_outcome (A : Type) : Type :=
| Returned (a : A)
| Failed (e : sql_error).

#[global] Arguments Returned {A} a.
#[global] Arguments Failed {A} e.

Definition lift {A : Type} (r : outcome A) : sql_outcome A :=
  match r with
  | Ok a => Returned a
  | Error e => Failed (Raised e)
  end.

(** [agtype_build_map_noargs] and [agtype_build_list_noargs]. *)
Definition agtype_build_map_noargs : outcome agtype :=
  r <- push empty_in_state WAGT_BEGIN_OBJECT None ;;
  result <- push r WAGT_END_OBJECT None ;;
  encode_result result.

Definition agtype_build_list_noargs : outcome agtype :=
  r <- push empty_in_state WAGT_BEGIN_ARRAY None ;;
  result <- push r WAGT_END_ARRAY None ;;
  encode_result result.

(** The loop of [agtype_build_list]; an argument is its value, its type and
    its null flag. *)
Fixpoint build_list_loop (depth : nat) (args : list (Datum * Oid * bool))
  (result : agtype_in_state) : outcome agtype_in_state :=
  match args with
  | [] => Ok result
  | (val, type, isnull) :: args' =>
      r <- add_agtype depth val isnull result type false ;;
      build_list_loop depth args' r
  end.

(** [agtype_build_list(variadic "any")]; [None] is the variadic array that
    is NULL ([nargs < 0]), for which SQL NULL is returned. *)
Definition agtype_build_list (depth : nat)
  (args : option (list (Datum * Oid * bool))) : outcome (option agtype) :=
  match args with
  | None => Ok None
  | Some args =>
      result <- push empty_in_state WAGT_BEGIN_ARRAY None ;;
      result <- build_list_loop depth args result ;;
      result <- push result WAGT_END_ARRAY None ;;
      a <- encode_result result ;;
      Ok (Some a)
  end.

(** The loop of [agtype_build_map], two arguments at a time; [i] is the
    index of the key. *)
Fixpoint build_map_loop (depth : nat) (args : list (Datum * Oid * bool))
  (i : Z) (result : agtype_in_state) : sql_outcome agtype_in_state :=
  match args with
  | (kval, ktype, knull) :: (val, type, isnull) :: args' =>
      if knull then Failed (KeyMustNotBeNull (i + 1))
      else
        match add_agtype depth kval false result ktype true with
        | Error e => Failed (Raised e)
        | Ok r =>
            match add_agtype depth val isnull r type false with
            | Error e => Failed (Raised e)
            | Ok r' => build_map_loop depth args' (i + 2) r'
            end
        end
  | _ => Returned result
  end.

(** [agtype_build_map(variadic "any")]. *)
Definition agtype_build_map (depth : nat)
  (args : option (list (Datum * Oid * bool)))
  : sql_outcome (option agtype) :=
  match args with
  | None => Returned None
  | Some args =>
      if negb (Z.of_nat (List.length args) mod 2 =? 0)
      then Failed ArgumentListOdd
      else
        match push empty_in_state WAGT_BEGIN_OBJECT None with
        | Error e => Failed (Raised e)
        | Ok result =>
            match build_map_loop depth args 0 result with
            | Failed e => Failed e
            | Returned result =>
                lift (result <- push result WAGT_END_OBJECT None ;;
                      a <- encode_result result ;;
                      Ok (Some a))
            end
        end
  end.

(** ** Casts *)

(** [agtype_extract_scalar]: the scalar of a raw-scalar array ([true]), or
    the kind of the container ([false], with [res->type] set).  A raw-scalar
    array without its element, which the assertions exclude, gives
    [None]. *)
Definition agtype_extract_scalar (agtc : agtype)
  : option (agtype_value + agtype_value_type) :=
  if negb (AGT_ROOT_IS_ARRAY agtc) || negb (AGT_ROOT_IS_SCALAR agtc)
  then Some (inr (if AGT_ROOT_IS_ARRAY agtc then T_ARRAY else T_OBJECT))
  else
    match agtype_iterator_children agtc with
    | e :: _ => Some (inl e)
    | [] => None
    end.

(** [cannot_cast_agtype_value]: the error it raises; the table of messages
    has no entry for a Vertex and an Edge. *)
Definition cannot_cast_agtype_value (type : agtype_value_type)
  (sqltype : string) : sql_error :=
  match type with
  | T_VERTEX | T_EDGE => UnknownAgtypeType
  | _ => CannotCast type sqltype
  end.

Definition agtype_to_bool (agtype_in : agtype) : sql_outcome bool :=
  match agtype_extract_scalar agtype_in with
  | None => Failed (Raised ContractViolation)
  | Some (inr type) => Failed (cannot_cast_agtype_value type "boolean")
  | Some (inl (AGTV_BOOL boolean)) => Returned boolean
  | Some (inl agtv) =>
      Failed (cannot_cast_agtype_value (type_of agtv) "boolean")
  end.

Definition bool_to_agtype (b : bool) : agtype := boolean_to_agtype b.

Section Typecast.

(** The host's conversions to [numeric]; the one from a float rejects the
    values it cannot represent. *)
Variable int8_numeric : Z -> numeric.
Variable float8_numeric : float8 -> outcome numeric.

(** [agtype_typecast_numeric]: the [::numeric] operator. *)
Definition agtype_typecast_numeric (arg : option agtype)
  : sql_outcome (option agtype) :=
  match arg with
  | None => Returned None
  | Some arg_agt =>
      if negb (AGT_ROOT_IS_SCALAR arg_agt) then Failed TypecastNotScalar
      else
        match get_ith_agtype_value_from_container arg_agt 0 with
        | None => Failed (Raised NullDereference)
        | Some AGTV_NULL => Returned None
        | Some (AGTV_INTEGER int_value) =>
            Returned
              (Some (agtype_value_to_agtype
                       (AGTV_NUMERIC (int8_numeric int_value))))
        | Some (AGTV_FLOAT float_value) =>
            match float8_numeric float_value with
            | Ok n => Returned (Some (agtype_value_to_agtype (AGTV_NUMERIC n)))
            | Error e => Failed (Raised e)
            end
        | Some (AGTV_NUMERIC n) =>
            Returned (Some (agtype_value_to_agtype (AGTV_NUMERIC n)))
        | Some _ => Failed TypecastNotNumber
        end
  end.

End Typecast.

(** ** String matching *)

(** [strncmp(a, b, n) == 0]: at most [n] bytes are compared, and the
    comparison ends at a NUL; the byte after the last one of a string is
    its terminator. *)
Fixpoint strncmp_eq (a b : string) (n : nat) {struct n} : bool :=
  match n with
  | O => true
  | S n' =>
      match a, b with
      | EmptyString, EmptyString => true
      | EmptyString, String d _ => is_nul d
      | String c _, EmptyString => is_nul c
      | String c a', String d b' =>
          if Ascii.eqb c d
          then (if is_nul c then true else strncmp_eq a' b' n')
          else false
      end
  end.

(** The string at [s + k]. *)
Definition string_from (s : string) (k : nat) : string :=
  substring k (String.length s - k) s.

(** [pnstrdup(val, len)] read as a C string: the bytes before the first
    NUL. *)
Fixpoint c_string (s : string) : string :=
  match s with
  | EmptyString => EmptyString
  | String c s' => if is_nul c then EmptyString else String c (c_string s')
  end.

(** [strstr(l, r) != NULL]: [r] occurs in [l] at some position. *)
Fixpoint strstr_found (l r : string) : bool :=
  String.prefix r l
  || match l with
     | EmptyString => false
     | String _ l' => strstr_found l' r
     end.

(** The operands of the three string operators: both roots scalar, both
    scalars strings. *)
Definition string_operands (lhs rhs : agtype)
  : sql_outcome (string * string) :=
  if AGT_ROOT_IS_SCALAR lhs && AGT_ROOT_IS_SCALAR rhs
  then
    match get_ith_agtype_value_from_container lhs 0,
          get_ith_agtype_value_from_container rhs 0 with
    | Some (AGTV_STRING l), Some (AGTV_STRING r) => Returned (l, r)
    | Some _, Some _ => Failed StringValuesExpected
    | _, _ => Failed (Raised NullDereference)
    end
  else Failed StringValuesExpected.

Definition agtype_string_match_starts_with (lhs rhs : agtype)
  : sql_outcome agtype :=
  match string_operands lhs rhs with
  | Failed e => Failed e
  | Returned (l, r) =>
      if (String.length l <? String.length r)%nat
      then Returned (boolean_to_agtype false)
      else Returned (boolean_to_agtype (strncmp_eq l r (String.length r)))
  end.

Definition agtype_string_match_ends_with (lhs rhs : agtype)
  : sql_outcome agtype :=
  match string_operands lhs rhs with
  | Failed e => Failed e
  | Returned (l, r) =>
      if (String.length l <? String.length r)%nat
      then Returned (boolean_to_agtype false)
      else
        Returned
          (boolean_to_agtype
             (strncmp_eq (string_from l (String.length l - String.length r))
                r (String.length r)))
  end.

Definition agtype_string_match_contains (lhs rhs : agtype)
  : sql_outcome agtype :=
  match string_operands lhs rhs with
  | Failed e => Failed e
  | Returned (l, r) =>
      if (String.length l <? String.length r)%nat
      then Returned (boolean_to_agtype false)
      else
        Returned (boolean_to_agtype (strstr_found (c_string l) (c_string r)))
  end.

End Agtype.

(** ** Specification-side definitions *)

(** The position an index [i] addresses in an array of [n] elements:
    a negative index counts from the end. *)
Definition resolve_index (n i : Z) : Z := if i <? 0 then n + i else i.

(** A slice bound, shifted when negative and clamped into [0, n]. *)
Definition clamp_bound (n b : Z) : Z :=
  Z.min n (Z.max 0 (resolve_index n b)).

(** The elements at positions [lo .. hi - 1]. *)
Definition elements_between (elems : list agtype_value) (lo hi : Z)
  : list agtype_value :=
  firstn (Z.to_nat (hi - lo)) (skipn (Z.to_nat lo) elems).

Definition slice_of (elems : list agtype_value) (lo hi : Z)
  : list agtype_value :=
  let n := Z.of_nat (List.length elems) in
  elements_between elems (clamp_bound n lo) (clamp_bound n hi).

(** The token type a typecast annotation stands for, its letters compared
    without regard to ASCII case. *)
Definition annotation_type (a : string) : option agtype_token_type :=
  let f := fold_case a in
  if String.eqb f "numeric" then Some AGTYPE_TOKEN_NUMERIC
  else if String.eqb f "integer" then Some AGTYPE_TOKEN_INTEGER
  else if String.eqb f "float" then Some AGTYPE_TOKEN_FLOAT
  else None.

(** A builder whose only content is a top-level scalar in its wrapper. *)
Definition wrapped_scalar (v : agtype_value) : agtype_in_state :=
  mk_in_state [] (Some (AGTV_ARRAY true [v])).

(** ** A small host

    One concrete environment, used to run the definitions on examples:
    decimal integers, floats that are integers or special values, a catalog
    without domains and casts, and comparators that decide equality. *)

Module RefHost.

#[warnings="-register-all"]
Inductive datum : Type :=
| DBool (b : bool)
| DInt8 (i : Z)
| DFloat8 (f : float8)
| DNumeric (n : numeric)
| DText (s : string)
| DGraphid (id : Z)
| DAgtype (a : agtype)
| DArray (elemtype : Oid) (dims : list Z) (elems : list (datum * bool))
| DRow (atts : list (bool * string * Oid * datum * bool)).

Definition print_int (z : Z) : string := NilZero.string_of_int (Z.to_int z).

Definition read_int (s : string) : outcome Z :=
  match NilZero.int_of_string s with
  | Some i =>
      let z := Z.of_int i in
      if (INT64_MIN <=? z) && (z <=? INT64_MAX) then Ok z
      else Error InvalidInputSyntax
  | None => Error InvalidInputSyntax
  end.

Definition float_of_int (z : Z) : float8 :=
  binary_normalize 53 1024 z 0 false.

Definition read_float (s : string) : outcome float8 :=
  if String.eqb s "NaN" then Ok S754_nan
  else if String.eqb s "Infinity" then Ok (S754_infinity false)
  else if String.eqb s "-Infinity" then Ok (S754_infinity true)
  else z <- read_int s ;; Ok (float_of_int z).

Definition read_numeric (s : string) : outcome numeric :=
  if String.eqb s "NaN" then Ok NumericNaN
  else
    match NilZero.int_of_string s with
    | Some i => Ok (NumericVal (Z.of_int i) 0)
    | None => Error InvalidInputSyntax
    end.

(** [digits / 10 ^ dscale] with [dscale] digits after the point. *)
Definition print_decimal (digits : Z) (dscale : nat) : string :=
  match dscale with
  | O => print_int digits
  | _ =>
      let p := 10 ^ Z.of_nat dscale in
      let frac := print_int (Z.abs digits mod p) in
      String.append (if digits <? 0 then "-" else "")
        (String.append (print_int (Z.abs digits / p))
           (String.append "."
              (String.append
                 (String.concat ""
                    (repeat "0" (dscale - String.length frac)))
                 frac)))
  end.

Definition print_numeric (n : numeric) : string :=
  match n with
  | NumericNaN => "NaN"
  | NumericVal digits dscale => print_decimal digits dscale
  end.

(** The exact decimal expansion of a finite float. *)
Definition print_finite (f : float8) : string :=
  match f with
  | S754_zero s => if s then "-0" else "0"
  | S754_finite s m e =>
      let sm := if s then - Z.pos m else Z.pos m in
      if 0 <=? e then print_int (sm * 2 ^ e)
      else if Z.pos m mod 2 ^ (- e) =? 0 then print_int (sm / 2 ^ (- e))
      else print_decimal (sm * 5 ^ (- e)) (Z.to_nat (- e))
  | _ => ""
  end.

Definition print_datum (d : datum) : string :=
  match d with
  | DBool b => if b then "t" else "f"
  | DInt8 i | DGraphid i => print_int i
  | DFloat8 f =>
      match f with
      | S754_nan => "NaN"
      | S754_infinity s => if s then "-Infinity" else "Infinity"
      | _ => print_finite f
      end
  | DNumeric n => print_numeric n
  | DText s => s
  | _ => ""
  end.

(** A parser for bare literals. *)
Definition parse_literal (s : string) : outcome (list sem_event) :=
  if String.eqb s "null" then Ok [scalar s AGTYPE_TOKEN_NULL None]
  else if String.eqb s "true" then Ok [scalar s AGTYPE_TOKEN_TRUE None]
  else if String.eqb s "false" then Ok [scalar s AGTYPE_TOKEN_FALSE None]
  else _ <- read_int s ;; Ok [scalar s AGTYPE_TOKEN_INTEGER None].

Definition float_eqb (f g : float8) : bool :=
  match f, g with
  | S754_zero s, S754_zero t | S754_infinity s, S754_infinity t =>
      Bool.eqb s t
  | S754_nan, S754_nan => true
  | S754_finite s m e, S754_finite t n k =>
      Bool.eqb s t && Pos.eqb m n && Z.eqb e k
  | _, _ => false
  end.

Definition numeric_eqb (a b : numeric) : bool :=
  match a, b with
  | NumericNaN, NumericNaN => true
  | NumericVal d s, NumericVal e t => Z.eqb d e && Nat.eqb s t
  | _, _ => false
  end.

(** Equality of value trees. *)
Fixpoint agtype_value_eqb (a b : agtype_value) {struct a} : bool :=
  let pairs_eqb :=
    fix pairs_eqb (l m : list (string * agtype_value)) {struct l} : bool :=
      match l, m with
      | [], [] => true
      | (k, x) :: l', (k', y) :: m' =>
          String.eqb k k' && agtype_value_eqb x y && pairs_eqb l' m'
      | _, _ => false
      end in
  match a, b with
  | AGTV_NULL, AGTV_NULL => true
  | AGTV_STRING s, AGTV_STRING t => String.eqb s t
  | AGTV_NUMERIC n, AGTV_NUMERIC m => numeric_eqb n m
  | AGTV_INTEGER i, AGTV_INTEGER j => Z.eqb i j
  | AGTV_FLOAT f, AGTV_FLOAT g => float_eqb f g
  | AGTV_BOOL x, AGTV_BOOL y => Bool.eqb x y
  | AGTV_VERTEX l, AGTV_VERTEX m => pairs_eqb l m
  | AGTV_EDGE l, AGTV_EDGE m => pairs_eqb l m
  | AGTV_OBJECT l, AGTV_OBJECT m => pairs_eqb l m
  | AGTV_ARRAY r l, AGTV_ARRAY r' m =>
      Bool.eqb r r'
      && (fix elems_eqb (l m : list agtype_value) {struct l} : bool :=
            match l, m with
            | [], [] => true
            | x :: l', y :: m' => agtype_value_eqb x y && elems_eqb l' m'
            | _, _ => false
            end) l m
  | _, _ => false
  end.

Definition compare_by_equality (a b : agtype_value) : Z :=
  if agtype_value_eqb a b then 0 else 1.

Definition reference_host : Host := {|
  AGTENTRY_OFFLENMASK := 268435455;
  scanint8 := read_int;
  int8in := read_int;
  float8in_internal := read_float;
  numeric_in := read_numeric;
  int8out := print_int;
  numeric_out := print_numeric;
  format_g := print_finite;
  parse_agtype := parse_literal;
  Datum := datum;
  GRAPHIDOID := 16385;
  AGTYPEOID := 16386;
  DatumGetBool := fun d => match d with DBool b => b | _ => false end;
  DatumGetFloat8 :=
    fun d => match d with DFloat8 f => f | _ => S754_zero false end;
  DatumGetTextPP := fun d => match d with DText s => s | _ => "" end;
  DATUM_GET_AGTYPE_P :=
    fun d => match d with DAgtype a => a | _ => AGTV_ARRAY false [] end;
  GraphidGetDatum := DGraphid;
  AgtypeGetDatum := DAgtype;
  OidOutputFunctionCall := fun _ d => print_datum d;
  OidFunctionCall1 := fun _ d => d;
  agtype_encode_date_time := fun d _ => print_datum d;
  getBaseType := fun o => o;
  get_element_type := fun o => if o =? 1016 then INT8OID else InvalidOid;
  type_is_rowtype := fun o => o =? 2249;
  find_json_cast_function := fun _ => None;
  getTypeOutputInfo := fun o => o;
  ARR_ELEMTYPE :=
    fun d => match d with DArray t _ _ => t | _ => InvalidOid end;
  ARR_DIMS := fun d => match d with DArray _ dims _ => dims | _ => [] end;
  deconstruct_array :=
    fun d => match d with DArray _ _ elems => elems | _ => [] end;
  tuple_attributes := fun d => match d with DRow atts => atts | _ => [] end;
  compare_agtype_scalar_values := compare_by_equality;
  compare_agtype_containers_orderability := compare_by_equality
|}.

End RefHost.

(** ** Numbers as exact rationals *)

Definition float_value (f : float8) : option Q :=
  match f with
  | S754_zero _ => Some 0%Q
  | S754_finite s m e =>
      Some ((inject_Z (if s then Z.neg m else Z.pos m) * (2 # 1) ^ e)%Q)
  | _ => None
  end.

Definition numeric_value (n : numeric) : option Q :=
  match n with
  | NumericNaN => None
  | NumericVal digits dscale =>
      Some ((inject_Z digits / inject_Z (10 ^ Z.of_nat dscale))%Q)
  end.

(** The number a Number scalar denotes. *)
Definition number_value (v : agtype_value) : option Q :=
  match v with
  | AGTV_INTEGER i => Some (inject_Z i)
  | AGTV_FLOAT f => float_value f
  | AGTV_NUMERIC n => numeric_value n
  | _ => None
  end.

(** Two scalars denote the same number. *)
Definition same_number (x y : agtype_value) : Prop :=
  match number_value x, number_value y with
  | Some p, Some q => (p == q)%Q
  | _, _ => False
  end.

(** Only decimal digits after an optional leading minus sign. *)
Fixpoint all_digits (s : string) : bool :=
  match s with
  | EmptyString => true
  | String c s' => is_digit c && all_digits s'
  end.

Definition digits_after_sign (s : string) : bool :=
  match s with
  | String "-" rest => all_digits rest
  | _ => all_digits s
  end.

Definition has_decimal_point (s : string) : bool := strchr s ".".

(** The float 2.0. *)
Definition float_two : float8 := S754_finite false 4503599627370496 (-51).

(** ** Token sequences and the printer *)

(** The separator and the indentation the worker puts into the buffer. *)
Definition sep_text (indent : bool) (w : worker_state) : string :=
  sep indent w "".

Definition indent_text (indent : bool) (level : Z) : string :=
  add_indent "" indent level.

(** A scalar whose Vertex and Edge values nest at most [d] deep. *)
Definition printable (d : nat) (v : agtype_value) : bool :=
  IS_A_AGTYPE_SCALAR v && (vertex_depth v <=? d)%nat.

(** A token sequence as the iterator produces it: scalars with Key, Value
    and Elem, a Key followed by its value, a Value only after its Key. *)
Fixpoint tokens_ok (okv : agtype_value -> bool)
  (toks : list (agtype_iterator_token * agtype_value)) : bool :=
  match toks with
  | [] => true
  | (WAGT_KEY, v) :: rest =>
      okv v
      && match rest with
         | [] => false
         | (WAGT_VALUE, v') :: rest' => okv v' && tokens_ok okv rest'
         | _ :: _ => tokens_ok okv rest
         end
  | (WAGT_ELEM, v) :: rest => okv v && tokens_ok okv rest
  | (WAGT_VALUE, _) :: _ | (WAGT_DONE, _) :: _ => false
  | _ :: rest => tokens_ok okv rest
  end.

(** ** Builders *)

(** The Integer a graph identifier becomes: its text, as the output
    function of GRAPHIDOID prints it, read back by [int8in]. *)
Definition graphid_value {host : Host} (id : Z) : outcome Z :=
  int8in (OidOutputFunctionCall (snd (agtype_categorize_type GRAPHIDOID))
            (GraphidGetDatum id)).

(** What the builders need from the catalog and from the length limit: the
    field names fit, and GRAPHIDOID is a valid type of the Integer
    category. *)
Definition builder_host_ok {host : Host} : Prop :=
  10 <= AGTENTRY_OFFLENMASK
  /\ GRAPHIDOID <> InvalidOid
  /\ fst (agtype_categorize_type GRAPHIDOID) = AGT_TYPE_INTEGER.

Definition vertex_pairs (id : Z) (label : string) (properties : agtype_value)
  : list (string * agtype_value) :=
  [("id", AGTV_INTEGER id); ("label", AGTV_STRING label);
   ("properties", properties)].

Definition edge_pairs (id start_id end_id : Z) (label : string)
  (properties : agtype_value) : list (string * agtype_value) :=
  [("id", AGTV_INTEGER id); ("start_id", AGTV_INTEGER start_id);
   ("end_id", AGTV_INTEGER end_id); ("label", AGTV_STRING label);
   ("properties", properties)].

(** A short list for the examples. *)
Definition abcde : list agtype_value :=
  [AGTV_STRING "a"; AGTV_STRING "b"; AGTV_STRING "c"; AGTV_STRING "d";
   AGTV_STRING "e"].


(** ** Printers *)

(** A printer that only appends to the buffer. *)
Definition appends_only (put : string -> agtype_value -> outcome string)
  : Prop :=
  forall out v, put out v = (s <- put "" v ;; Ok (String.append out s)).


(** A printer that succeeds wherever another one does. *)
Definition extends (put1 put2 : string -> agtype_value -> outcome string)
  : Prop :=
  forall out v s, put1 out v = Ok s -> put2 out v = Ok s.


(** The vertex of the example: id 10, label v, properties {k: x}. *)
Definition example_pairs : list (string * agtype_value) :=
  [("id", AGTV_INTEGER 10); ("label", AGTV_STRING "v");
   ("properties", AGTV_OBJECT [("k", AGTV_STRING "x")])].


(** ** Raw-scalar arrays *)

(** Every array marked raw_scalar inside [v] has exactly one child, and
    that child is a scalar. *)
Fixpoint raw_scalar_ok (v : agtype_value) : bool :=
  match v with
  | AGTV_ARRAY raw elems =>
      (if raw
       then match elems with
            | [e] => IS_A_AGTYPE_SCALAR e
            | _ => false
            end
       else true)
      && forallb raw_scalar_ok elems
  | AGTV_OBJECT pairs | AGTV_VERTEX pairs | AGTV_EDGE pairs =>
      forallb (fun '(_, x) => raw_scalar_ok x) pairs
  | _ => true
  end.

(** Between two hook calls no open frame is a raw-scalar array, and the
    values collected so far are well formed. *)
Definition frame_ok (f : parse_frame) : bool :=
  match f with
  | ArrayFrame raw elems => negb raw && forallb raw_scalar_ok elems
  | ObjectFrame pairs _ => forallb (fun '(_, x) => raw_scalar_ok x) pairs
  end.

Definition state_ok (st : agtype_in_state) : bool :=
  forallb frame_ok (parse_state st)
  && match res st with
     | Some r => raw_scalar_ok r
     | None => true
     end.

(** ** Definitions for the further properties *)

(** The object of the examples: {"a": [10, 20, 30], "b": {"c": "x"}}. *)
Definition example_object : agtype :=
  AGTV_OBJECT
    [("a", AGTV_ARRAY false
             [AGTV_INTEGER 10; AGTV_INTEGER 20; AGTV_INTEGER 30]);
     ("b", AGTV_OBJECT [("c", AGTV_STRING "x")])].

Definition key_of (s : string) : option agtype :=
  Some (agtype_value_to_agtype (AGTV_STRING s)).

Definition index_of (i : Z) : option agtype :=
  Some (agtype_value_to_agtype (AGTV_INTEGER i)).

(** A slice bound as an argument: an Integer, or a bound that is left out,
    as SQL NULL or as the agtype null. *)
Definition bound_arg (b : option Z) (as_agtype_null : bool) : option agtype :=
  match b with
  | Some i => Some (agtype_value_to_agtype (AGTV_INTEGER i))
  | None =>
      if as_agtype_null then Some (agtype_value_to_agtype AGTV_NULL) else None
  end.

Definition bound_in_int64 (b : option Z) : Prop :=
  match b with
  | Some i => in_int64 i
  | None => True
  end.

(** The bounds a slice is taken with when one is left out. *)
Definition lower_or_default (b : option Z) : Z :=
  match b with Some i => i | None => 0 end.

Definition upper_or_default (n : Z) (b : option Z) : Z :=
  match b with Some i => i | None => n end.

(** A string as a top-level agtype, and strings without a NUL byte. *)
Definition string_scalar (s : string) : agtype :=
  agtype_value_to_agtype (AGTV_STRING s).

Fixpoint no_nul (s : string) : bool :=
  match s with
  | EmptyString => true
  | String c s' => negb (is_nul c) && no_nul s'
  end.

(** The root of a scalar holds its one element. *)
Definition root_ok (a : agtype) : Prop :=
  AGT_ROOT_IS_SCALAR a = true -> AGT_ROOT_COUNT a = 1.

(** ** Texts *)

(** Every byte, and a test on every byte of a string. *)
Definition all_ascii : list ascii := map ascii_of_nat (seq 0 256).

Fixpoint all_chars (p : ascii -> bool) (s : string) : bool :=
  match s with
  | EmptyString => true
  | String c s' => p c && all_chars p s'
  end.

Definition is_control (c : ascii) : bool := (N_of_ascii c <? 32)%N.

(** No escape sequence begins another one's. *)
Definition escape_prefix_free : bool :=
  forallb
    (fun c =>
       negb (String.eqb (escape_char c) "")
       && forallb
            (fun d =>
               Ascii.eqb c d
               || negb (String.prefix (escape_char c) (escape_char d)))
            all_ascii) all_ascii.

(** A value without an array marked raw_scalar inside. *)
Fixpoint plain (v : agtype_value) : bool :=
  match v with
  | AGTV_ARRAY raw elems => negb raw && forallb plain elems
  | AGTV_OBJECT pairs | AGTV_VERTEX pairs | AGTV_EDGE pairs =>
      forallb (fun '(_, x) => plain x) pairs
  | _ => true
  end.

(** Every byte of a string, escaped. *)
Fixpoint escape_every_byte (s : string) : string :=
  match s with
  | EmptyString => EmptyString
  | String c s' => String.append (escape_char c) (escape_every_byte s')
  end.

(** A string between double quotes: its bytes before the first NUL,
    escaped. *)
Definition string_text (s : string) : string :=
  String.append dquote
    (String.append (escape_every_byte (c_string s)) dquote).

(** The text of a value, by recursion on the value: the elements of a list
    between brackets, the pairs of a map between braces, separated by a
    comma and a space. *)
Fixpoint value_text {host : Host} (v : agtype_value) : string :=
  match v with
  | AGTV_NULL => "null"
  | AGTV_STRING s => string_text s
  | AGTV_NUMERIC n => String.append (numeric_out n) "::numeric"
  | AGTV_INTEGER i => int8out i
  | AGTV_FLOAT f =>
      let numstr := float8out f in
      if is_decimal_needed numstr then String.append numstr ".0" else numstr
  | AGTV_BOOL b => if b then "true" else "false"
  | AGTV_VERTEX pairs =>
      String.append "{"
        (String.append
           (String.concat ", "
              (map (fun '(k, x) =>
                      String.append (string_text k)
                        (String.append ": " (value_text x))) pairs))
           "}::vertex")
  | AGTV_EDGE pairs =>
      String.append "{"
        (String.append
           (String.concat ", "
              (map (fun '(k, x) =>
                      String.append (string_text k)
                        (String.append ": " (value_text x))) pairs))
           "}::edge")
  | AGTV_ARRAY _ elems =>
      String.append "["
        (String.append (String.concat ", " (map value_text elems)) "]")
  | AGTV_OBJECT pairs =>
      String.append "{"
        (String.append
           (String.concat ", "
              (map (fun '(k, x) =>
                      String.append (string_text k)
                        (String.append ": " (value_text x))) pairs))
           "}")
  end.

(** What a run of the loop appends for a sequence of items: a comma and a
    space before every item but the first of its container. *)
Fixpoint items_text (first : bool) (items : list string) : string :=
  match items with
  | [] => ""
  | x :: items' =>
      String.append (if first then "" else ", ")
        (String.append x (items_text false items'))
  end.

Definition pair_text {host : Host} (kv : string * agtype_value) : string :=
  let '(k, x) := kv in
  String.append (string_text k) (String.append ": " (value_text x)).

(** The worker's state after a value of a container. *)
Definition after_value (w : worker_state) : worker_state :=
  mk_worker false (level w) false false false.

(** The printer agrees with [value_text] on [v]: on a scalar where it
    stands, on a container wherever its tokens stand in the sequence. *)
Definition prints_as_text {host : Host} (v : agtype_value) : Prop :=
  forall d,
    (vertex_depth v <= d)%nat -> plain v = true ->
    (IS_A_AGTYPE_SCALAR v = true ->
     forall out,
       agtype_put_escaped_value d out v
       = Ok (String.append out (value_text v)))
    /\ (IS_A_AGTYPE_SCALAR v = false ->
        forall w rest out,
          use_indent w = false -> w_raw_scalar w = false ->
          worker_loop (agtype_put_escaped_value d) false
            (agtype_iterator_tokens v ++ rest) w out
          = worker_loop (agtype_put_escaped_value d) false rest
              (after_value w)
              (String.append out
                 (String.append (if first w then "" else ", ")
                    (value_text v)))).

(** ** Values handed to the builders as agtype *)

(** No array marked raw_scalar among the containers of a value; what lies
    inside a Vertex or an Edge is not looked at. *)
Fixpoint no_raw (v : agtype_value) : bool :=
  match v with
  | AGTV_ARRAY raw elems => negb raw && forallb no_raw elems
  | AGTV_OBJECT pairs => forallb (fun '(_, x) => no_raw x) pairs
  | _ => true
  end.

(** What the builders need from the catalog for an argument of type
    agtype. *)
Definition agtype_host_ok {host : Host} : Prop :=
  AGTYPEOID <> InvalidOid
  /\ fst (agtype_categorize_type AGTYPEOID) = AGT_TYPE_AGTYPE
  /\ forall x, DATUM_GET_AGTYPE_P (AgtypeGetDatum x) = x.

(** An argument of type agtype: a value, or SQL NULL. *)
Definition agtype_argument {host : Host} (a : option agtype_value)
  : Datum * Oid * bool :=
  match a with
  | Some v => (AgtypeGetDatum (agtype_value_to_agtype v), AGTYPEOID, false)
  | None => (AgtypeGetDatum (agtype_value_to_agtype AGTV_NULL), AGTYPEOID, true)
  end.

Definition argument_value (a : option agtype_value) : agtype_value :=
  match a with
  | Some v => v
  | None => AGTV_NULL
  end.

Definition argument_ok (a : option agtype_value) : bool :=
  match a with
  | Some v => no_raw v
  | None => true
  end.

(** Copying the tokens of a container into a builder appends the
    container to the frame on top. *)
Definition copied_by_tokens (v : agtype_value) : Prop :=
  no_raw v = true -> IS_A_AGTYPE_SCALAR v = false ->
  forall f f' frames r toks,
    append_to_parent f v = Ok f' ->
    push_tokens (agtype_iterator_tokens v ++ toks)
      (mk_in_state (f :: frames) r)
    = push_tokens toks (mk_in_state (f' :: frames) (Some v)).

(** ** The scalar a token and a datum stand for *)

(** The token type a scalar is read as: its lexical type, or the type its
    typecast annotation names. *)
Definition read_as (tokentype : agtype_token_type)
  (annotation : option string) (tokentype' : agtype_token_type) : Prop :=
  match annotation with
  | None => tokentype' = tokentype
  | Some a => annotation_type a = Some tokentype'
  end.

(** The scalar a token of a given type stands for: the string itself when
    its length fits, the number the host reads from the text, a constant
    for true, false and null. *)
Inductive token_scalar {host : Host} (token : string)
  : agtype_token_type -> agtype_value -> Prop :=
| string_token :
    strlen token <= AGTENTRY_OFFLENMASK ->
    token_scalar token AGTYPE_TOKEN_STRING (AGTV_STRING token)
| integer_token (i : Z) :
    scanint8 token = Ok i ->
    token_scalar token AGTYPE_TOKEN_INTEGER (AGTV_INTEGER i)
| float_token (f : float8) :
    float8in_internal token = Ok f ->
    token_scalar token AGTYPE_TOKEN_FLOAT (AGTV_FLOAT f)
| numeric_token (n : numeric) :
    numeric_in token = Ok n ->
    token_scalar token AGTYPE_TOKEN_NUMERIC (AGTV_NUMERIC n)
| true_token : token_scalar token AGTYPE_TOKEN_TRUE (AGTV_BOOL true)
| false_token : token_scalar token AGTYPE_TOKEN_FALSE (AGTV_BOOL false)
| null_token : token_scalar token AGTYPE_TOKEN_NULL AGTV_NULL.

(** The scalar a datum of a category that is not converted recursively
    stands for, as a value ([key_scalar] false) or as a key: SQL NULL is
    the agtype null; a key is the text of the datum; a number is read back
    from the text the output function prints, a numeric whose text is not a
    number staying a string; a date or a time is its encoded text; a datum
    of any other type is the text of its output function, when its length
    fits. *)
Inductive datum_scalar {host : Host} (val : Datum) (outfuncoid : Oid)
  : bool -> agt_type_category -> bool -> agtype_value -> Prop :=
| null_datum (tcategory : agt_type_category) (key_scalar : bool) :
    datum_scalar val outfuncoid true tcategory key_scalar AGTV_NULL
| bool_datum :
    datum_scalar val outfuncoid false AGT_TYPE_BOOL false
      (AGTV_BOOL (DatumGetBool val))
| bool_key :
    datum_scalar val outfuncoid false AGT_TYPE_BOOL true
      (AGTV_STRING (if DatumGetBool val then "true" else "false"))
| integer_datum (i : Z) :
    int8in (OidOutputFunctionCall outfuncoid val) = Ok i ->
    datum_scalar val outfuncoid false AGT_TYPE_INTEGER false (AGTV_INTEGER i)
| float_datum :
    datum_scalar val outfuncoid false AGT_TYPE_FLOAT false
      (AGTV_FLOAT (DatumGetFloat8 val))
| numeric_datum (n : numeric) :
    strchr (OidOutputFunctionCall outfuncoid val) "N" = false ->
    strchr (OidOutputFunctionCall outfuncoid val) "n" = false ->
    numeric_in (OidOutputFunctionCall outfuncoid val) = Ok n ->
    datum_scalar val outfuncoid false AGT_TYPE_NUMERIC false (AGTV_NUMERIC n)
| not_a_number_datum :
    strchr (OidOutputFunctionCall outfuncoid val) "N" = true
    \/ strchr (OidOutputFunctionCall outfuncoid val) "n" = true ->
    datum_scalar val outfuncoid false AGT_TYPE_NUMERIC false
      (AGTV_STRING (OidOutputFunctionCall outfuncoid val))
| number_key (tcategory : agt_type_category) :
    tcategory = AGT_TYPE_INTEGER \/ tcategory = AGT_TYPE_FLOAT
    \/ tcategory = AGT_TYPE_NUMERIC ->
    datum_scalar val outfuncoid false tcategory true
      (AGTV_STRING (OidOutputFunctionCall outfuncoid val))
| date_datum (key_scalar : bool) :
    datum_scalar val outfuncoid false AGT_TYPE_DATE key_scalar
      (AGTV_STRING (agtype_encode_date_time val DATEOID))
| timestamp_datum (key_scalar : bool) :
    datum_scalar val outfuncoid false AGT_TYPE_TIMESTAMP key_scalar
      (AGTV_STRING (agtype_encode_date_time val TIMESTAMPOID))
| timestamptz_datum (key_scalar : bool) :
    datum_scalar val outfuncoid false AGT_TYPE_TIMESTAMPTZ key_scalar
      (AGTV_STRING (agtype_encode_date_time val TIMESTAMPTZOID))
| other_datum (tcategory : agt_type_category) (key_scalar : bool) :
    tcategory = AGT_TYPE_NULL \/ tcategory = AGT_TYPE_VERTEX
    \/ tcategory = AGT_TYPE_OTHER ->
    strlen (OidOutputFunctionCall outfuncoid val) <= AGTENTRY_OFFLENMASK ->
    datum_scalar val outfuncoid false tcategory key_scalar
      (AGTV_STRING (OidOutputFunctionCall outfuncoid val)).

(** * Properties *)

(** ** Machine integers *)

Lemma wrap_int64_id (z : Z) : in_int64 z -> wrap_int64 z = z.
Proof.
  unfold in_int64, INT64_MIN, INT64_MAX, wrap_int64. intros Hz.
  rewrite Z.mod_small; lia.
Qed.

Lemma to_uint32_id (z : Z) : 0 <= z <= UINT32_MAX -> to_uint32 z = z.
Proof.
  unfold UINT32_MAX, to_uint32. intros Hz. apply Z.mod_small. lia.
Qed.

Lemma agtype_value_type_eqb_eq (a b : agtype_value_type) :
  agtype_value_type_eqb a b = true <-> a = b.
Proof.
  destruct a, b; simpl; split; intros H; try reflexivity; discriminate H.
Qed.


(** ** Array access and slices *)

Lemma get_ith_raw_scalar (v : agtype_value) :
  get_ith_agtype_value_from_container (AGTV_ARRAY true [v]) 0 = Some v.
Proof. reflexivity. Qed.

Lemma get_ith_in_range (raw : bool) (elems : list agtype_value) (j : Z) :
  0 <= j < Z.of_nat (List.length elems) ->
  exists v,
    nth_error elems (Z.to_nat j) = Some v /\
    get_ith_agtype_value_from_container (AGTV_ARRAY raw elems) j = Some v.
Proof.
  intros Hj.
  destruct (nth_error elems (Z.to_nat j)) as [v|] eqn:Hnth.
  - exists v. split; [reflexivity|]. simpl.
    destruct (Z.ltb_spec j (Z.of_nat (List.length elems))); [assumption|lia].
  - apply nth_error_None in Hnth. lia.
Qed.

(** C1.  Element access with an Integer index [i] on an Array of [n]
    elements: a negative index addresses position [n + i]; a position
    outside [0, n) gives SQL null; the operator never reports an error. *)
Theorem array_access_resolves_index (raw : bool)
  (elems : list agtype_value) (i : Z) :
  Z.of_nat (List.length elems) <= UINT32_MAX ->
  in_int64 i ->
  let n := Z.of_nat (List.length elems) in
  let j := resolve_index n i in
  execute_array_access_operator (AGTV_ARRAY raw elems) (integer_to_agtype i)
  = Ok (if (0 <=? j) && (j <? n)
        then option_map agtype_value_to_agtype (nth_error elems (Z.to_nat j))
        else None)
  /\ (0 <= j < n -> exists v, nth_error elems (Z.to_nat j) = Some v).
Proof.
  intros Hn Hi n j. split.
  - unfold execute_array_access_operator.
    change (integer_to_agtype i) with (AGTV_ARRAY true [AGTV_INTEGER i]).
    rewrite get_ith_raw_scalar. cbv zeta.
    change (AGT_ROOT_COUNT (AGTV_ARRAY raw elems)) with n.
    assert (Hw : (if i <? 0 then wrap_int64 (n + i) else i) = j).
    { unfold j, resolve_index. destruct (Z.ltb_spec i 0); [|reflexivity].
      apply wrap_int64_id. unfold in_int64, INT64_MIN, INT64_MAX, UINT32_MAX in *.
      lia. }
    rewrite Hw.
    destruct (Z.leb_spec 0 j) as [H0|H0]; destruct (Z.ltb_spec j n) as [H1|H1];
      destruct (Z.geb_spec j n) as [H2|H2]; destruct (Z.ltb_spec j 0) as [H3|H3];
      try lia; try reflexivity.
    rewrite to_uint32_id by lia.
    destruct (get_ith_in_range raw elems j) as [v [Hv Hg]]; [lia|].
    rewrite Hg, Hv. reflexivity.
  - intros Hj. destruct (get_ith_in_range raw elems j Hj) as [v [Hv _]].
    exists v. exact Hv.
Qed.

Lemma array_access_resolves_index_witness :
  execute_array_access_operator (AGTV_ARRAY false abcde)
    (integer_to_agtype (-1))
  = Ok (Some (AGTV_ARRAY true [AGTV_STRING "e"])).
Proof.
  refine (proj1 (array_access_resolves_index false abcde (-1) _ _)).
  - vm_compute. discriminate.
  - vm_compute. split; discriminate.
Defined.

(** Index [-1] and index [4] of a length-5 array are the same element;
    [-6] and [5] are not found. *)
Example array_access_length_5 :
  execute_array_access_operator (AGTV_ARRAY false abcde)
    (integer_to_agtype (-1))
  = execute_array_access_operator (AGTV_ARRAY false abcde)
      (integer_to_agtype 4)
  /\ execute_array_access_operator (AGTV_ARRAY false abcde)
       (integer_to_agtype (-6)) = Ok None
  /\ execute_array_access_operator (AGTV_ARRAY false abcde)
       (integer_to_agtype 5) = Ok None.
Proof. repeat split. Qed.

(** ["a", "b", "c"][-1] is "c"; ["a", "b", "c"][5] is not found. *)
Example array_access_abc :
  execute_array_access_operator
    (AGTV_ARRAY false [AGTV_STRING "a"; AGTV_STRING "b"; AGTV_STRING "c"])
    (integer_to_agtype (-1))
  = Ok (Some (agtype_value_to_agtype (AGTV_STRING "c")))
  /\ execute_array_access_operator
       (AGTV_ARRAY false [AGTV_STRING "a"; AGTV_STRING "b"; AGTV_STRING "c"])
       (integer_to_agtype 5)
     = Ok None.
Proof. split; reflexivity. Qed.

Section SliceLoop.

Variable raw : bool.
Variable elems : list agtype_value.
Hypothesis size_fits : Z.of_nat (List.length elems) <= UINT32_MAX.

Lemma firstn_skipn_cons (m : nat) :
  forall (l : list agtype_value) (v : agtype_value) (k : nat),
    nth_error l m = Some v ->
    firstn (S k) (skipn m l) = v :: firstn k (skipn (S m) l).
Proof.
  induction m as [|m IHm]; intros [|x xs] v k Hv; try discriminate Hv.
  - cbn in Hv. injection Hv as ->. reflexivity.
  - cbn in Hv. exact (IHm xs v k Hv).
Qed.

(** The loop of the slice appends the elements it walks over. *)
Lemma slice_loop_appends (k : nat) :
  forall (i : Z) (acc : list agtype_value) (r : option agtype_value),
    0 <= i ->
    i + Z.of_nat k <= Z.of_nat (List.length elems) ->
    exists r',
      for_loop k i (slice_body (AGTV_ARRAY raw elems)) (mk_in_state [ArrayFrame false acc] r)
      = Ok (mk_in_state
              [ArrayFrame false
                 (acc ++ firstn k (skipn (Z.to_nat i) elems))] r').
Proof.
  induction k as [|k IH]; intros i acc r Hi Hk.
  - exists r. simpl. rewrite app_nil_r. reflexivity.
  - destruct (get_ith_in_range raw elems i) as [v [Hv Hg]]; [lia|].
    destruct (IH (i + 1) (acc ++ [v]) (Some (AGTV_ARRAY false (acc ++ [v]))))
      as [r' Hr']; [lia|lia|].
    exists r'. cbn [for_loop].
    assert (Hb : slice_body (AGTV_ARRAY raw elems) i (mk_in_state [ArrayFrame false acc] r)
                 = Ok (mk_in_state [ArrayFrame false (acc ++ [v])]
                         (Some (AGTV_ARRAY false (acc ++ [v]))))).
    { unfold slice_body. rewrite to_uint32_id by lia. rewrite Hg. reflexivity. }
    rewrite Hb. cbn [bind]. rewrite Hr'.
    replace (Z.to_nat (i + 1)) with (S (Z.to_nat i)) by lia.
    rewrite (firstn_skipn_cons (Z.to_nat i) elems v k Hv).
    rewrite <- app_assoc. reflexivity.
Qed.

End SliceLoop.

Lemma clamp_bound_range (n b : Z) : 0 <= n -> 0 <= clamp_bound n b <= n.
Proof. unfold clamp_bound. lia. Qed.

(** The clamping of the source, bound by bound. *)
Lemma clamp_steps (n b : Z) :
  0 <= n <= UINT32_MAX -> in_int64 b ->
  (let x := if b <? 0 then wrap_int64 (n + b) else b in
   let x := if x <? 0 then 0 else x in
   if x >? n then n else x) = clamp_bound n b.
Proof.
  intros Hn Hb. unfold clamp_bound, resolve_index. cbv zeta.
  assert (Hw : (if b <? 0 then wrap_int64 (n + b) else b)
               = (if b <? 0 then n + b else b)).
  { destruct (Z.ltb_spec b 0); [|reflexivity]. apply wrap_int64_id.
    unfold in_int64, INT64_MIN, INT64_MAX, UINT32_MAX in *. lia. }
  rewrite Hw.
  destruct (Z.ltb_spec b 0);
    repeat match goal with
           | |- context [?a <? ?b] => destruct (Z.ltb_spec a b)
           | |- context [?a >? ?b] => destruct (Z.gtb_spec a b)
           end; lia.
Qed.

(** C2.  A slice with Integer bounds [(lo, hi)] on an Array of [n]
    elements: negative bounds are shifted by [n], both bounds are clamped
    into [0, n], and the result is the Array of the elements at positions
    [lo .. hi - 1]. *)
Theorem slice_clamps_bounds (elems : list agtype_value) (lo hi : Z) :
  Z.of_nat (List.length elems) <= UINT32_MAX ->
  in_int64 lo -> in_int64 hi ->
  agtype_access_slice (Some (AGTV_ARRAY false elems))
    (Some (integer_to_agtype lo)) (Some (integer_to_agtype hi))
  = Ok (Some (AGTV_ARRAY false (slice_of elems lo hi))).
Proof.
  intros Hn Hlo Hhi.
  unfold agtype_access_slice.
  change (integer_to_agtype lo) with (AGTV_ARRAY true [AGTV_INTEGER lo]).
  change (integer_to_agtype hi) with (AGTV_ARRAY true [AGTV_INTEGER hi]).
  cbn [AGT_ROOT_IS_ARRAY AGT_ROOT_IS_SCALAR negb orb AGT_ROOT_COUNT].
  rewrite !get_ith_raw_scalar. cbn [bind agtype_value_to_agtype
    IS_A_AGTYPE_SCALAR negb orb].
  set (n := Z.of_nat (List.length elems)) in *.
  assert (Hn0 : 0 <= n <= UINT32_MAX) by (unfold n; lia).
  pose proof (clamp_steps n lo Hn0 Hlo) as Elo.
  pose proof (clamp_steps n hi Hn0 Hhi) as Ehi.
  cbv zeta in Elo, Ehi. rewrite Elo, Ehi. clear Elo Ehi.
  pose proof (clamp_bound_range n lo (proj1 Hn0)) as Rlo.
  pose proof (clamp_bound_range n hi (proj1 Hn0)) as Rhi.
  unfold push at 1. cbn [parse_state empty_in_state push_agtype_value bind].
  unfold for_range.
  destruct (slice_loop_appends false elems Hn
              (Z.to_nat (clamp_bound n hi - clamp_bound n lo))
              (clamp_bound n lo) [] (Some (AGTV_ARRAY false [])))
    as [r' Hr']; [lia | fold n; lia |].
  rewrite Hr'. cbn. reflexivity.
Qed.

Lemma slice_clamps_bounds_witness :
  agtype_access_slice (Some (AGTV_ARRAY false abcde))
    (Some (integer_to_agtype (-100))) (Some (integer_to_agtype 100))
  = Ok (Some (AGTV_ARRAY false abcde)).
Proof.
  refine (slice_clamps_bounds abcde (-100) 100 _ _ _).
  - vm_compute. discriminate.
  - vm_compute. split; discriminate.
  - vm_compute. split; discriminate.
Defined.

(** Bounds [(3, 1)] on a length-5 array give the empty array. *)
Example slice_3_1_is_empty :
  agtype_access_slice (Some (AGTV_ARRAY false abcde))
    (Some (integer_to_agtype 3)) (Some (integer_to_agtype 1))
  = Ok (Some (AGTV_ARRAY false [])).
Proof. reflexivity. Qed.

(** C9 (as amended).  The access operators report a key of the wrong kind:
    array access with an index scalar that is neither Null nor Integer, and
    map access with a key scalar that is neither Null nor String, raise an
    error; a Null index or key gives SQL null instead. *)
Theorem access_reports_type_mismatch (c : agtype) (key : agtype_value) :
  IS_A_AGTYPE_SCALAR key = true ->
  (type_of key <> T_NULL -> type_of key <> T_INTEGER ->
   execute_array_access_operator c (agtype_value_to_agtype key)
   = Error ArrayIndexNotInteger)
  /\ (type_of key <> T_NULL -> type_of key <> T_STRING ->
      exists e,
        execute_map_access_operator c (agtype_value_to_agtype key) = Error e)
  /\ (type_of key = T_NULL ->
      execute_array_access_operator c (agtype_value_to_agtype key) = Ok None
      /\ execute_map_access_operator c (agtype_value_to_agtype key)
         = Ok None).
Proof.
  intros Hs. unfold agtype_value_to_agtype. rewrite Hs.
  unfold execute_array_access_operator, execute_map_access_operator.
  rewrite get_ith_raw_scalar.
  destruct key; try discriminate Hs; cbn [type_of]; repeat split;
    try reflexivity; try (intros; congruence);
    try (intros; eexists; reflexivity).
Qed.

Lemma access_reports_type_mismatch_witness :
  execute_array_access_operator (AGTV_ARRAY false abcde)
    (agtype_value_to_agtype (AGTV_STRING "1"))
  = Error ArrayIndexNotInteger.
Proof.
  refine (proj1 (access_reports_type_mismatch (AGTV_ARRAY false abcde)
                   (AGTV_STRING "1") _) _ _).
  - reflexivity.
  - discriminate.
  - discriminate.
Defined.

(** A Null index and a Null key are not Integer and not String, and the
    operators return SQL null for them. *)
Lemma access_null_key_counterexample :
  type_of AGTV_NULL <> T_INTEGER
  /\ type_of AGTV_NULL <> T_STRING
  /\ execute_array_access_operator (AGTV_ARRAY false abcde)
       (agtype_value_to_agtype AGTV_NULL) = Ok None
  /\ execute_map_access_operator (AGTV_OBJECT [("a", AGTV_INTEGER 1)])
       (agtype_value_to_agtype AGTV_NULL) = Ok None.
Proof. repeat split; discriminate. Qed.

Section Input.

Context {host : Host}.

(** ** String length *)

Lemma check_string_length_too_long (len : Z) :
  check_string_length len = Error StringTooLong <-> AGTENTRY_OFFLENMASK < len.
Proof.
  unfold check_string_length.
  destruct (Z.gtb_spec len AGTENTRY_OFFLENMASK) as [Hc|Hc]; split; intros H;
    try reflexivity; try lia; discriminate H.
Qed.

Lemma check_string_length_fits (len : Z) :
  len <= AGTENTRY_OFFLENMASK -> check_string_length len = Ok len.
Proof.
  unfold check_string_length. intros H.
  destruct (Z.gtb_spec len AGTENTRY_OFFLENMASK) as [Hc|Hc]; [lia|reflexivity].
Qed.

Lemma checked_string_cases (s : string) :
  (AGTENTRY_OFFLENMASK < strlen s /\ checked_string s = Error StringTooLong)
  \/ (strlen s <= AGTENTRY_OFFLENMASK /\ checked_string s = Ok (AGTV_STRING s)).
Proof.
  unfold checked_string, check_string_length.
  destruct (Z.gtb_spec (strlen s) AGTENTRY_OFFLENMASK); [left|right];
    split; try lia; reflexivity.
Qed.

(** The parse state stack has no string-length failure of its own. *)
Lemma push_not_too_long (st : agtype_in_state) (seq : agtype_iterator_token)
  (v : option agtype_value) :
  push st seq v <> Error StringTooLong.
Proof.
  unfold push, push_agtype_value.
  destruct seq; cbn; try discriminate;
    destruct (parse_state st) as [|f rest]; destruct v as [v|]; cbn;
      try discriminate;
      try (destruct f as [raw elems|pairs [k|]]; cbn; try discriminate;
           destruct v; cbn; discriminate);
      try (destruct rest as [|[raw elems|pairs [k|]] rest]; cbn; discriminate).
Qed.

Lemma insert_scalar_not_too_long (st : agtype_in_state) (v : agtype_value)
  (key_scalar : bool) :
  insert_scalar st v key_scalar <> Error StringTooLong.
Proof.
  unfold insert_scalar.
  destruct (parse_state st) as [|[raw elems|pairs pending] rest] eqn:E.
  - destruct (push st WAGT_BEGIN_ARRAY (Some raw_scalar_marker)) as [st1|e] eqn:E1;
      cbn; [|intros H; exact (push_not_too_long _ _ _ (eq_trans E1 H))].
    destruct (push st1 WAGT_ELEM (Some v)) as [st2|e] eqn:E2;
      cbn; [|intros H; exact (push_not_too_long _ _ _ (eq_trans E2 H))].
    apply push_not_too_long.
  - apply push_not_too_long.
  - apply push_not_too_long.
Qed.

(** C3.  A string that becomes an agtype String (a parsed scalar token, an
    object key, the argument of a string constructor) fails with
    StringTooLong exactly when its byte length exceeds
    AGTENTRY_OFFLENMASK; otherwise [check_string_length] returns the length
    unchanged and the String is built.  The failure is raised by the hook or
    constructor itself, before anything is encoded. *)
Theorem string_length_checked_at_construction (s : string) :
  (forall len : Z,
      (check_string_length len = Error StringTooLong
       <-> AGTENTRY_OFFLENMASK < len)
      /\ (len <= AGTENTRY_OFFLENMASK -> check_string_length len = Ok len))
  /\ (forall st : agtype_in_state,
         agtype_in_scalar st s AGTYPE_TOKEN_STRING None = Error StringTooLong
         <-> AGTENTRY_OFFLENMASK < strlen s)
  /\ (forall (st : agtype_in_state) (isnull : bool),
         agtype_in_object_field_start st s isnull = Error StringTooLong
         <-> AGTENTRY_OFFLENMASK < strlen s)
  /\ (string_to_agtype s = Error StringTooLong
      <-> AGTENTRY_OFFLENMASK < strlen s)
  /\ (string_to_agtype_value s = Error StringTooLong
      <-> AGTENTRY_OFFLENMASK < strlen s)
  /\ (strlen s <= AGTENTRY_OFFLENMASK ->
      string_to_agtype s = Ok (AGTV_ARRAY true [AGTV_STRING s])
      /\ string_to_agtype_value s = Ok (AGTV_STRING s)).
Proof.
  split; [intros len; split;
          [apply check_string_length_too_long
          |apply check_string_length_fits]|].
  assert (Hscalar : forall st,
             agtype_in_scalar st s AGTYPE_TOKEN_STRING None
             = (v <- checked_string s ;; insert_scalar st v false))
    by reflexivity.
  assert (Hkey : forall st isnull,
             agtype_in_object_field_start st s isnull
             = (v <- checked_string s ;; push st WAGT_KEY (Some v)))
    by reflexivity.
  unfold string_to_agtype, string_to_agtype_value.
  destruct (checked_string_cases s) as [[Hlen Hc]|[Hlen Hc]].
  - split; [|split; [|split; [|split]]].
    + intros st. rewrite Hscalar, Hc. split; [intros _; exact Hlen|reflexivity].
    + intros st isnull. rewrite Hkey, Hc.
      split; [intros _; exact Hlen|reflexivity].
    + rewrite Hc. split; [intros _; exact Hlen|reflexivity].
    + rewrite Hc. split; [intros _; exact Hlen|reflexivity].
    + intros Hfit. lia.
  - split; [|split; [|split; [|split]]].
    + intros st. rewrite Hscalar, Hc. cbn [bind]. split; [|lia].
      intros Hbad. exfalso. exact (insert_scalar_not_too_long _ _ _ Hbad).
    + intros st isnull. rewrite Hkey, Hc. cbn [bind]. split; [|lia].
      intros Hbad. exfalso. exact (push_not_too_long _ _ _ Hbad).
    + rewrite Hc. cbn [bind]. split; [discriminate|lia].
    + rewrite Hc. split; [discriminate|lia].
    + intros _. rewrite Hc. split; reflexivity.
Qed.

Lemma run_sem_actions_app (evs1 evs2 : list sem_event)
  (st : agtype_in_state) :
  run_sem_actions (evs1 ++ evs2) st
  = (st' <- run_sem_actions evs1 st ;; run_sem_actions evs2 st').
Proof.
  revert st. induction evs1 as [|ev evs1 IH]; intros st; cbn.
  - reflexivity.
  - destruct (sem_action st ev) as [st'|e]; cbn; [apply IH|reflexivity].
Qed.

(** A too long string token stops the parse at that token: no value is
    handed to the encoder. *)
Lemma too_long_token_stops_parse (evs1 evs2 : list sem_event)
  (st st' : agtype_in_state) (s : string) :
  run_sem_actions evs1 st = Ok st' ->
  AGTENTRY_OFFLENMASK < strlen s ->
  run_sem_actions (evs1 ++ scalar s AGTYPE_TOKEN_STRING None :: evs2) st
  = Error StringTooLong.
Proof.
  intros H1 Hlen. rewrite run_sem_actions_app, H1.
  cbn [bind run_sem_actions sem_action].
  unfold agtype_in_scalar. cbn [annotated_tokentype scalar_of_token bind].
  destruct (checked_string_cases s) as [[_ Hc]|[Hfit _]]; [|lia].
  rewrite Hc. reflexivity.
Qed.

End Input.

Section Scalars.

Context {host : Host}.

(** ** Typecast annotations *)

Lemma fold_case_length (s : string) :
  String.length (fold_case s) = String.length s.
Proof. induction s as [|c s IH]; cbn; [reflexivity|now rewrite IH]. Qed.

Lemma annotation_test (a lit : string) :
  fold_case lit = lit ->
  (strlen a =? Z.of_nat (String.length lit)) && pg_strcasecmp_eq a lit
  = String.eqb (fold_case a) lit.
Proof.
  intros Hlit. unfold pg_strcasecmp_eq. rewrite Hlit.
  destruct (String.eqb_spec (fold_case a) lit) as [E|E].
  - rewrite andb_true_r. apply Z.eqb_eq. unfold strlen.
    rewrite <- E, fold_case_length. reflexivity.
  - apply andb_false_r.
Qed.

(** C5 (as amended).  A typecast annotation whose letters read numeric,
    integer or float, in either case, overrides the token type: the token
    is parsed as that type, whatever its lexical type was.  Every other
    annotation fails with "invalid annotation value for scalar", for every
    token type. *)
Theorem annotation_overrides_token_type (st : agtype_in_state)
  (token : string) (tokentype : agtype_token_type) (a : string) :
  agtype_in_scalar st token tokentype (Some a)
  = match annotation_type a with
    | Some tokentype' => agtype_in_scalar st token tokentype' None
    | None => Error InvalidAnnotation
    end.
Proof.
  unfold agtype_in_scalar, annotated_tokentype, annotation_type.
  change 7 with (Z.of_nat (String.length "numeric")) at 1.
  rewrite (annotation_test a "numeric" eq_refl).
  change 7 with (Z.of_nat (String.length "integer")).
  rewrite (annotation_test a "integer" eq_refl).
  change 5 with (Z.of_nat (String.length "float")).
  rewrite (annotation_test a "float" eq_refl).
  destruct (String.eqb (fold_case a) "numeric"); [reflexivity|].
  destruct (String.eqb (fold_case a) "integer"); [reflexivity|].
  destruct (String.eqb (fold_case a) "float"); reflexivity.
Qed.

(** ** Top-level scalars *)

Lemma scalar_of_token_is_scalar (token : string)
  (tokentype : agtype_token_type) (v : agtype_value) :
  scalar_of_token token tokentype = Ok v -> IS_A_AGTYPE_SCALAR v = true.
Proof.
  unfold scalar_of_token, checked_string.
  destruct tokentype; cbn;
    try (intros H; injection H as <-; reflexivity);
    try discriminate.
  - destruct (check_string_length (strlen token)); cbn;
      [intros H; injection H as <-; reflexivity|discriminate].
  - destruct (scanint8 token); cbn;
      [intros H; injection H as <-; reflexivity|discriminate].
  - destruct (float8in_internal token); cbn;
      [intros H; injection H as <-; reflexivity|discriminate].
  - destruct (numeric_in token); cbn;
      [intros H; injection H as <-; reflexivity|discriminate].
Qed.

(** With no frame open, a finished scalar ends up alone in a raw-scalar
    array, and no frame is left open. *)
Lemma insert_scalar_at_top (r : option agtype_value) (v : agtype_value)
  (key_scalar : bool) :
  insert_scalar (mk_in_state [] r) v key_scalar = Ok (wrapped_scalar v).
Proof. reflexivity. Qed.

Ltac scalar_case :=
  match goal with
  | H : Ok _ = Ok _ |- _ => inversion H; subst; clear H
  | H : Error _ = Ok _ |- _ => discriminate H
  | H : bind ?x _ = Ok _ |- _ =>
      let E := fresh "E" in destruct x eqn:E; cbn [bind] in H
  | H : (if ?b then _ else _) = Ok _ |- _ => destruct b
  end.

Lemma datum_to_agtype_scalar (depth : nat) (val : Datum) (is_null : bool)
  (r : option agtype_value) (tcategory : agt_type_category)
  (outfuncoid : Oid) (key_scalar : bool) (st' : agtype_in_state) :
  is_null = true \/ is_recursive_category tcategory = false ->
  datum_to_agtype (S depth) val is_null (mk_in_state [] r) tcategory
    outfuncoid key_scalar = Ok st' ->
  exists v, IS_A_AGTYPE_SCALAR v = true /\ st' = wrapped_scalar v.
Proof.
  intros Hcat. cbn [datum_to_agtype].
  destruct is_null.
  - cbn. intros H. injection H as <-. exists AGTV_NULL. split; reflexivity.
  - destruct Hcat as [Hcat|Hcat]; [discriminate Hcat|].
    destruct tcategory; try discriminate Hcat; clear Hcat;
      cbn [andb negb is_recursive_category category_rank Z.geb Z.leb
             Z.compare Pos.compare Pos.compare_cont];
      rewrite ?andb_false_r; cbn [bind];
      unfold checked_string;
      intros H;
      repeat (first [progress (cbn in H) | scalar_case]);
      eexists; (split; [|reflexivity]); reflexivity.
Qed.

End Scalars.

Section TopLevel.

Context {host : Host}.

Lemma agtype_in_scalar_at_top (r : option agtype_value) (token : string)
  (tokentype : agtype_token_type) (annotation : option string)
  (st' : agtype_in_state) :
  agtype_in_scalar (mk_in_state [] r) token tokentype annotation = Ok st' ->
  exists v, IS_A_AGTYPE_SCALAR v = true /\ st' = wrapped_scalar v.
Proof.
  unfold agtype_in_scalar. intros H.
  destruct (annotated_tokentype tokentype annotation) as [tokentype'|e];
    cbn [bind] in H; [|discriminate H].
  destruct (scalar_of_token token tokentype') as [v|e] eqn:Ev;
    cbn [bind] in H; [|discriminate H].
  rewrite insert_scalar_at_top in H. injection H as <-.
  exists v. split; [exact (scalar_of_token_is_scalar _ _ _ Ev)|reflexivity].
Qed.

Lemma datum_to_agtype_scalar_agtype (depth : nat) (val : Datum)
  (r : option agtype_value) (tcategory : agt_type_category)
  (outfuncoid : Oid) (e : agtype_value) :
  tcategory = AGT_TYPE_AGTYPE \/ tcategory = AGT_TYPE_JSONB ->
  DATUM_GET_AGTYPE_P val = AGTV_ARRAY true [e] ->
  datum_to_agtype (S depth) val false (mk_in_state [] r) tcategory
    outfuncoid false = Ok (wrapped_scalar e).
Proof.
  intros [-> | ->] Hval; cbn [datum_to_agtype andb]; rewrite Hval;
    reflexivity.
Qed.

Lemma frame_ok_cont_val (f : parse_frame) :
  frame_ok f = true -> raw_scalar_ok (cont_val f) = true.
Proof.
  destruct f as [raw elems|pairs pending]; cbn; [|exact (fun H => H)].
  intros H. apply andb_prop in H as [Hraw Helems].
  destruct raw; [discriminate Hraw|exact Helems].
Qed.

Lemma state_ok_intro (frames : agtype_parse_state) (f : parse_frame) :
  frame_ok f = true -> forallb frame_ok frames = true ->
  state_ok (mk_in_state (f :: frames) (Some (cont_val f))) = true.
Proof.
  intros Hf Hfs. unfold state_ok. cbn [parse_state res forallb].
  rewrite Hf, Hfs, (frame_ok_cont_val f Hf). reflexivity.
Qed.

Lemma append_to_frame_ok (f f' : parse_frame) (v : agtype_value) :
  frame_ok f = true -> raw_scalar_ok v = true ->
  append_element f v = Ok f' \/ append_value f v = Ok f'
  \/ append_to_parent f v = Ok f' ->
  frame_ok f' = true.
Proof.
  intros Hf Hv H.
  assert (Hadd : forall (pairs : list (string * agtype_value)) k,
             forallb (fun '(_, x) => raw_scalar_ok x) pairs = true ->
             forallb (fun '(_, x) => raw_scalar_ok x) (pairs ++ [(k, v)])
             = true).
  { intros pairs k Hp. rewrite forallb_app, Hp. cbn. now rewrite Hv. }
  destruct f as [raw elems|pairs [k|]]; cbn in H, Hf;
    destruct H as [H|[H|H]]; try discriminate H; injection H as <-; cbn.
  - apply andb_prop in Hf as [-> He]. rewrite forallb_app, He. cbn.
    now rewrite Hv.
  - apply andb_prop in Hf as [-> He]. rewrite forallb_app, He. cbn.
    now rewrite Hv.
  - exact (Hadd pairs k Hf).
  - exact (Hadd pairs k Hf).
Qed.

(** A push made by a hook keeps the builder well formed. *)
Lemma push_state_ok (st st' : agtype_in_state) (seq : agtype_iterator_token)
  (sv : option agtype_value) :
  state_ok st = true ->
  (seq = WAGT_BEGIN_ARRAY -> sv = None) ->
  (forall v, sv = Some v -> raw_scalar_ok v = true) ->
  push st seq sv = Ok st' ->
  state_ok st' = true.
Proof.
  intros Hst Hbegin Hsv. unfold state_ok in Hst.
  apply andb_prop in Hst as [Hframes _].
  unfold push. destruct st as [frames r]. cbn [parse_state] in *.
  destruct seq; cbn [push_agtype_value].
  - discriminate.
  - destruct frames as [|f frames]; destruct sv as [v|]; try discriminate.
    cbn [forallb] in Hframes. apply andb_prop in Hframes as [Hf Hfs].
    destruct (append_key f v) as [f'|e] eqn:E; [|discriminate].
    cbn [bind]. intros H. injection H as <-. apply state_ok_intro; [|exact Hfs].
    destruct f as [raw elems|pairs pending]; destruct v; try discriminate E;
      cbn in E; injection E as <-; exact Hf.
  - destruct frames as [|f frames]; destruct sv as [v|]; try discriminate.
    cbn [forallb] in Hframes. apply andb_prop in Hframes as [Hf Hfs].
    destruct (append_value f v) as [f'|e] eqn:E; [|discriminate].
    cbn [bind]. intros H. injection H as <-. apply state_ok_intro; [|exact Hfs].
    exact (append_to_frame_ok f f' v Hf (Hsv v eq_refl)
             (or_intror (or_introl E))).
  - destruct frames as [|f frames]; destruct sv as [v|]; try discriminate.
    cbn [forallb] in Hframes. apply andb_prop in Hframes as [Hf Hfs].
    destruct (append_element f v) as [f'|e] eqn:E; [|discriminate].
    cbn [bind]. intros H. injection H as <-. apply state_ok_intro; [|exact Hfs].
    exact (append_to_frame_ok f f' v Hf (Hsv v eq_refl) (or_introl E)).
  - rewrite (Hbegin eq_refl). cbn [bind]. intros H. injection H as <-.
    exact (state_ok_intro frames (ArrayFrame false []) eq_refl Hframes).
  - destruct frames as [|f [|parent frames]]; try discriminate;
      cbn [forallb] in Hframes; apply andb_prop in Hframes as [Hf Hfs].
    + cbn [bind]. intros H. injection H as <-. unfold state_ok. cbn.
      exact (frame_ok_cont_val f Hf).
    + cbn [forallb] in Hfs. apply andb_prop in Hfs as [Hp Hfs].
      destruct (append_to_parent parent (cont_val f)) as [p'|e] eqn:E;
        [|discriminate].
      cbn [bind]. intros H. injection H as <-. unfold state_ok.
      cbn [parse_state res forallb].
      rewrite (append_to_frame_ok parent p' _ Hp (frame_ok_cont_val f Hf)
                 (or_intror (or_intror E))), Hfs, (frame_ok_cont_val f Hf).
      reflexivity.
  - cbn [bind]. intros H. injection H as <-.
    exact (state_ok_intro frames (ObjectFrame [] None) eq_refl Hframes).
  - destruct frames as [|f [|parent frames]]; try discriminate;
      cbn [forallb] in Hframes; apply andb_prop in Hframes as [Hf Hfs].
    + cbn [bind]. intros H. injection H as <-. unfold state_ok. cbn.
      exact (frame_ok_cont_val f Hf).
    + cbn [forallb] in Hfs. apply andb_prop in Hfs as [Hp Hfs].
      destruct (append_to_parent parent (cont_val f)) as [p'|e] eqn:E;
        [|discriminate].
      cbn [bind]. intros H. injection H as <-. unfold state_ok.
      cbn [parse_state res forallb].
      rewrite (append_to_frame_ok parent p' _ Hp (frame_ok_cont_val f Hf)
                 (or_intror (or_intror E))), Hfs, (frame_ok_cont_val f Hf).
      reflexivity.
Qed.

Lemma scalar_of_token_raw_ok (token : string)
  (tokentype : agtype_token_type) (v : agtype_value) :
  scalar_of_token token tokentype = Ok v -> raw_scalar_ok v = true.
Proof.
  intros H. pose proof (scalar_of_token_is_scalar _ _ _ H) as Hs.
  unfold scalar_of_token, checked_string in H.
  destruct tokentype; cbn in H;
    repeat match type of H with
           | bind ?x _ = Ok _ => destruct x; cbn [bind] in H
           end;
    try discriminate H; injection H as <-; reflexivity.
Qed.

(** Every hook call keeps the builder well formed. *)
Lemma sem_action_state_ok (st st' : agtype_in_state) (ev : sem_event) :
  state_ok st = true -> sem_action st ev = Ok st' -> state_ok st' = true.
Proof.
  intros Hst. destruct ev; cbn [sem_action];
    unfold agtype_in_object_start, agtype_in_object_end,
      agtype_in_array_start, agtype_in_array_end,
      agtype_in_object_field_start, agtype_in_scalar;
    try (apply (push_state_ok st st' _ None Hst);
         [reflexivity || discriminate|discriminate]).
  - unfold checked_string.
    destruct (check_string_length (strlen fname)); cbn [bind];
      [|discriminate].
    apply (push_state_ok st st' _ _ Hst); [discriminate|].
    intros v Hv. injection Hv as <-. reflexivity.
  - destruct (annotated_tokentype tokentype annotation) as [tokentype'|e];
      cbn [bind]; [|discriminate].
    destruct (scalar_of_token token tokentype') as [v|e] eqn:Ev;
      cbn [bind]; [|discriminate].
    pose proof (scalar_of_token_raw_ok _ _ _ Ev) as Hv.
    pose proof (scalar_of_token_is_scalar _ _ _ Ev) as Hs.
    unfold insert_scalar.
    destruct (parse_state st) as [|[raw elems|pairs pending] frames] eqn:Eps.
    + destruct st as [frames0 r]. cbn [parse_state] in Eps. subst frames0.
      cbn. intros H. injection H as <-. unfold state_ok. cbn.
      rewrite Hs, Hv. reflexivity.
    + apply (push_state_ok st st' _ _ Hst); [discriminate|].
      intros v0 Hv0. injection Hv0 as <-. exact Hv.
    + apply (push_state_ok st st' _ _ Hst); [discriminate|].
      intros v0 Hv0. injection Hv0 as <-. exact Hv.
Qed.

Lemma run_sem_actions_state_ok (evs : list sem_event) :
  forall st st', state_ok st = true -> run_sem_actions evs st = Ok st' ->
                 state_ok st' = true.
Proof.
  induction evs as [|ev evs IH]; intros st st' Hst; cbn [run_sem_actions].
  - intros H. injection H as <-. exact Hst.
  - destruct (sem_action st ev) as [st1|e] eqn:E; cbn [bind]; [|discriminate].
    exact (IH st1 st' (sem_action_state_ok st st1 ev Hst E)).
Qed.

(** In a parsed value every raw_scalar array has one child, a scalar. *)
Lemma parsed_value_raw_scalar_ok (str : string) (a : agtype) :
  agtype_from_cstring str = Ok a -> raw_scalar_ok a = true.
Proof.
  unfold agtype_from_cstring.
  destruct (parse_agtype str) as [evs|e]; cbn [bind]; [|discriminate].
  destruct (run_sem_actions evs empty_in_state) as [st|e] eqn:E;
    cbn [bind]; [|discriminate].
  pose proof (run_sem_actions_state_ok evs empty_in_state st eq_refl E)
    as Hst.
  unfold state_ok in Hst. apply andb_prop in Hst as [_ Hres].
  unfold encode_result. destruct (res st) as [r|]; [|discriminate].
  intros H. injection H as <-. unfold agtype_value_to_agtype.
  destruct (IS_A_AGTYPE_SCALAR r) eqn:Es; [|exact Hres].
  cbn. rewrite Es, Hres. reflexivity.
Qed.

Lemma encoded_root_is_container (v : agtype_value) :
  AGT_ROOT_IS_ARRAY (agtype_value_to_agtype v)
  || AGT_ROOT_IS_OBJECT (agtype_value_to_agtype v) = true.
Proof. destruct v; reflexivity. Qed.

Lemma annotated_tokentype_read_as (tokentype tokentype' : agtype_token_type)
  (annotation : option string) :
  annotated_tokentype tokentype annotation = Ok tokentype'
  <-> read_as tokentype annotation tokentype'.
Proof.
  destruct annotation as [a|]; cbn [read_as].
  - unfold annotated_tokentype, annotation_type.
    change 7 with (Z.of_nat (String.length "numeric")) at 1.
    rewrite (annotation_test a "numeric" eq_refl).
    change 7 with (Z.of_nat (String.length "integer")).
    rewrite (annotation_test a "integer" eq_refl).
    change 5 with (Z.of_nat (String.length "float")).
    rewrite (annotation_test a "float" eq_refl).
    destruct (String.eqb (fold_case a) "numeric");
      [split; intros H; injection H as <-; reflexivity|].
    destruct (String.eqb (fold_case a) "integer");
      [split; intros H; injection H as <-; reflexivity|].
    destruct (String.eqb (fold_case a) "float");
      [split; intros H; injection H as <-; reflexivity|].
    split; discriminate.
  - cbn [annotated_tokentype]. split.
    + intros H. injection H as <-. reflexivity.
    + intros ->. reflexivity.
Qed.

Lemma scalar_of_token_token_scalar (token : string)
  (tokentype : agtype_token_type) (v : agtype_value) :
  scalar_of_token token tokentype = Ok v <-> token_scalar token tokentype v.
Proof.
  split.
  - destruct tokentype; cbn [scalar_of_token].
    + destruct (checked_string_cases token) as [[_ E]|[Hle E]]; rewrite E;
        intros H; [discriminate H|]. injection H as <-.
      constructor. exact Hle.
    + destruct (scanint8 token) as [i|e] eqn:E; cbn [bind]; intros H;
        [|discriminate H]. injection H as <-. constructor. exact E.
    + destruct (float8in_internal token) as [f|e] eqn:E; cbn [bind];
        intros H; [|discriminate H]. injection H as <-. constructor. exact E.
    + destruct (numeric_in token) as [n|e] eqn:E; cbn [bind]; intros H;
        [|discriminate H]. injection H as <-. constructor. exact E.
    + intros H. injection H as <-. constructor.
    + intros H. injection H as <-. constructor.
    + intros H. injection H as <-. constructor.
    + discriminate.
  - intros H. destruct H as [Hle|i E|f E|n E| | |]; cbn [scalar_of_token];
      rewrite ?E; try reflexivity.
    destruct (checked_string_cases token) as [[Hgt _]|[_ E]]; [lia|exact E].
Qed.

(** With no frame open, the hook for a scalar succeeds exactly when the
    token stands for a scalar, and leaves that scalar wrapped. *)
Lemma agtype_in_scalar_top_iff (r : option agtype_value) (token : string)
  (tokentype : agtype_token_type) (annotation : option string)
  (st' : agtype_in_state) :
  agtype_in_scalar (mk_in_state [] r) token tokentype annotation = Ok st'
  <-> exists tokentype' v,
        read_as tokentype annotation tokentype'
        /\ token_scalar token tokentype' v
        /\ IS_A_AGTYPE_SCALAR v = true
        /\ st' = wrapped_scalar v.
Proof.
  unfold agtype_in_scalar. split.
  - intros H.
    destruct (annotated_tokentype tokentype annotation) as [tokentype'|e]
      eqn:Ea; cbn [bind] in H; [|discriminate H].
    destruct (scalar_of_token token tokentype') as [v|e] eqn:Ev;
      cbn [bind] in H; [|discriminate H].
    rewrite insert_scalar_at_top in H. injection H as <-.
    exists tokentype', v. split; [|split; [|split]].
    + apply annotated_tokentype_read_as. exact Ea.
    + apply scalar_of_token_token_scalar. exact Ev.
    + exact (scalar_of_token_is_scalar _ _ _ Ev).
    + reflexivity.
  - intros (tokentype' & v & Ha & Hv & _ & ->).
    apply annotated_tokentype_read_as in Ha.
    apply scalar_of_token_token_scalar in Hv.
    rewrite Ha. cbn [bind]. rewrite Hv. cbn [bind].
    apply insert_scalar_at_top.
Qed.

Lemma datum_scalar_is_scalar (val : Datum) (outfuncoid : Oid)
  (is_null key_scalar : bool) (tcategory : agt_type_category)
  (v : agtype_value) :
  datum_scalar val outfuncoid is_null tcategory key_scalar v ->
  IS_A_AGTYPE_SCALAR v = true.
Proof. intros H. destruct H; reflexivity. Qed.

(** With no frame open, the conversion of a datum that is SQL NULL or of a
    category that is not converted recursively succeeds exactly when the
    datum stands for a scalar, and leaves that scalar wrapped. *)
Lemma datum_to_agtype_top_iff (depth : nat) (val : Datum) (is_null : bool)
  (r : option agtype_value) (tcategory : agt_type_category)
  (outfuncoid : Oid) (key_scalar : bool) (st' : agtype_in_state) :
  is_null = true \/ is_recursive_category tcategory = false ->
  datum_to_agtype (S depth) val is_null (mk_in_state [] r) tcategory
    outfuncoid key_scalar = Ok st'
  <-> exists v,
        datum_scalar val outfuncoid is_null tcategory key_scalar v
        /\ IS_A_AGTYPE_SCALAR v = true
        /\ st' = wrapped_scalar v.
Proof.
  intros Hcat. split.
  - intros H.
    assert (Hgoal : exists v,
               datum_scalar val outfuncoid is_null tcategory key_scalar v
               /\ st' = wrapped_scalar v).
    { cbn [datum_to_agtype] in H. destruct is_null.
      - cbn in H. injection H as <-. exists AGTV_NULL.
        split; [constructor|reflexivity].
      - destruct Hcat as [Hcat|Hcat]; [discriminate Hcat|].
        pose proof (checked_string_cases (OidOutputFunctionCall outfuncoid val))
          as Hstr.
        destruct tcategory; try discriminate Hcat; clear Hcat;
          destruct key_scalar;
          cbn [andb negb is_recursive_category category_rank Z.geb Z.leb
                 Z.compare Pos.compare Pos.compare_cont bind] in H;
          try (destruct Hstr as [[_ Hstr]|[Hle Hstr]]; rewrite Hstr in H;
               cbn [bind andb negb] in H; [discriminate H|]);
          try (destruct (int8in (OidOutputFunctionCall outfuncoid val))
                 as [i|e] eqn:Ei; cbn [bind andb negb] in H;
               [|discriminate H]);
          try (destruct (strchr (OidOutputFunctionCall outfuncoid val) "N")
                 eqn:EN;
               destruct (strchr (OidOutputFunctionCall outfuncoid val) "n")
                 eqn:En;
               cbn [orb bind andb negb] in H);
          try (destruct (numeric_in (OidOutputFunctionCall outfuncoid val))
                 as [n|e] eqn:Enum; cbn [bind andb negb] in H;
               [|discriminate H]);
          rewrite insert_scalar_at_top in H; injection H as <-;
          eexists; (split; [|reflexivity]);
          first [ constructor; solve [auto]
                | constructor; assumption
                | constructor ]. }
    destruct Hgoal as (v & Hv & ->). exists v.
    split; [exact Hv|]. split; [|reflexivity].
    exact (datum_scalar_is_scalar _ _ _ _ _ _ Hv).
  - intros (v & Hv & _ & ->). clear Hcat.
    destruct Hv as [tcategory key_scalar| | |i Ei| |n EN En Enum|HN
                   |tcategory Hc|key_scalar|key_scalar|key_scalar
                   |tcategory key_scalar Hc Hle].
    + cbn [datum_to_agtype bind negb andb]. apply insert_scalar_at_top.
    + reflexivity.
    + reflexivity.
    + cbn [datum_to_agtype andb bind]. rewrite Ei. reflexivity.
    + reflexivity.
    + cbn [datum_to_agtype andb bind]. rewrite EN, En, Enum. reflexivity.
    + cbn [datum_to_agtype andb bind].
      assert (E : strchr (OidOutputFunctionCall outfuncoid val) "N"
                  || strchr (OidOutputFunctionCall outfuncoid val) "n"
                  = true)
        by (destruct HN as [-> | ->]; [reflexivity | apply orb_true_r]).
      rewrite E. reflexivity.
    + destruct Hc as [-> | [-> | ->]]; reflexivity.
    + destruct key_scalar; reflexivity.
    + destruct key_scalar; reflexivity.
    + destruct key_scalar; reflexivity.
    + assert (E : checked_string (OidOutputFunctionCall outfuncoid val)
                  = Ok (AGTV_STRING (OidOutputFunctionCall outfuncoid val))).
      { destruct (checked_string_cases
                    (OidOutputFunctionCall outfuncoid val))
          as [[Hgt _]|[_ E]]; [lia|exact E]. }
      destruct Hc as [-> | [-> | ->]]; destruct key_scalar;
        cbn [datum_to_agtype andb bind]; rewrite E; reflexivity.
Qed.

(** C8.  A top-level scalar, parsed from a bare literal or converted from
    a scalar datum, is wrapped in a one-element Array marked raw_scalar
    before it is encoded: with no frame open, the hook for a scalar and the
    conversion of a datum succeed exactly when the token or the datum
    stands for a scalar, and the builder then ends with no frame open and
    with the Array whose only child is that scalar.  The encoded root of
    every value is an Array or an Object, and in every parsed value each
    array marked raw_scalar has exactly one child, a scalar. *)
Theorem top_level_scalar_is_wrapped :
  (forall (r : option agtype_value) (token : string)
          (tokentype : agtype_token_type) (annotation : option string)
          (st' : agtype_in_state),
      agtype_in_scalar (mk_in_state [] r) token tokentype annotation
      = Ok st'
      <-> exists tokentype' v,
            read_as tokentype annotation tokentype'
            /\ token_scalar token tokentype' v
            /\ IS_A_AGTYPE_SCALAR v = true
            /\ st' = wrapped_scalar v)
  /\ (forall (depth : nat) (val : Datum) (is_null : bool)
             (r : option agtype_value) (tcategory : agt_type_category)
             (outfuncoid : Oid) (key_scalar : bool) (st' : agtype_in_state),
         is_null = true \/ is_recursive_category tcategory = false ->
         datum_to_agtype (S depth) val is_null (mk_in_state [] r) tcategory
           outfuncoid key_scalar = Ok st'
         <-> exists v,
               datum_scalar val outfuncoid is_null tcategory key_scalar v
               /\ IS_A_AGTYPE_SCALAR v = true
               /\ st' = wrapped_scalar v)
  /\ (forall (depth : nat) (val : Datum) (r : option agtype_value)
             (tcategory : agt_type_category) (outfuncoid : Oid)
             (e : agtype_value),
         tcategory = AGT_TYPE_AGTYPE \/ tcategory = AGT_TYPE_JSONB ->
         DATUM_GET_AGTYPE_P val = AGTV_ARRAY true [e] ->
         datum_to_agtype (S depth) val false (mk_in_state [] r) tcategory
           outfuncoid false = Ok (wrapped_scalar e))
  /\ (forall v : agtype_value,
         encode_result (wrapped_scalar v) = Ok (AGTV_ARRAY true [v])
         /\ AGT_ROOT_IS_ARRAY (AGTV_ARRAY true [v]) = true
         /\ AGT_ROOT_IS_SCALAR (AGTV_ARRAY true [v]) = true
         /\ AGT_ROOT_COUNT (AGTV_ARRAY true [v]) = 1)
  /\ (forall v : agtype_value,
         AGT_ROOT_IS_ARRAY (agtype_value_to_agtype v)
         || AGT_ROOT_IS_OBJECT (agtype_value_to_agtype v) = true)
  /\ (forall (str : string) (a : agtype),
         agtype_from_cstring str = Ok a -> raw_scalar_ok a = true).
Proof.
  split; [exact agtype_in_scalar_top_iff|].
  split; [exact datum_to_agtype_top_iff|].
  split; [exact datum_to_agtype_scalar_agtype|].
  split; [intros v; repeat split|].
  split; [exact encoded_root_is_container|exact parsed_value_raw_scalar_ok].
Qed.

End TopLevel.

Lemma top_level_scalar_is_wrapped_witness :
  agtype_in_scalar (host := RefHost.reference_host) (mk_in_state [] None)
    "12" AGTYPE_TOKEN_INTEGER None
  = Ok (wrapped_scalar (AGTV_INTEGER 12))
  /\ datum_to_agtype (host := RefHost.reference_host) 1 (RefHost.DInt8 12)
       false (mk_in_state [] None) AGT_TYPE_INTEGER INT8OID false
     = Ok (wrapped_scalar (AGTV_INTEGER 12)).
Proof.
  split.
  - apply (proj2 (proj1 (top_level_scalar_is_wrapped
                           (host := RefHost.reference_host))
                    None "12" AGTYPE_TOKEN_INTEGER None _)).
    exists AGTYPE_TOKEN_INTEGER, (AGTV_INTEGER 12).
    split; [reflexivity|]. split; [|split; reflexivity].
    apply (integer_token (host := RefHost.reference_host)). reflexivity.
  - apply (proj2 (proj1 (proj2 (top_level_scalar_is_wrapped
                                  (host := RefHost.reference_host)))
                    0%nat (RefHost.DInt8 12) false None AGT_TYPE_INTEGER
                    INT8OID false _ (or_intror eq_refl))).
    exists (AGTV_INTEGER 12).
    split; [|split; reflexivity].
    apply (integer_datum (host := RefHost.reference_host)). reflexivity.
Defined.

(** The parse of the bare literal 12 and the conversion of the SQL integer
    12 give the same wrapped scalar. *)
Example top_level_integer_12 :
  agtype_from_cstring (host := RefHost.reference_host) "12"
  = Ok (AGTV_ARRAY true [AGTV_INTEGER 12])
  /\ add_agtype (host := RefHost.reference_host) 1 (RefHost.DInt8 12) false
       empty_in_state INT8OID false
     = Ok (wrapped_scalar (AGTV_INTEGER 12)).
Proof. split; reflexivity. Qed.

Lemma string_length_checked_at_construction_witness :
  string_to_agtype (host := RefHost.reference_host) "abc"
  = Ok (AGTV_ARRAY true [AGTV_STRING "abc"])
  /\ string_to_agtype_value (host := RefHost.reference_host) "abc"
     = Ok (AGTV_STRING "abc").
Proof.
  refine (proj2 (proj2 (proj2 (proj2 (proj2
            (string_length_checked_at_construction
               (host := RefHost.reference_host) "abc"))))) _).
  vm_compute. discriminate.
Defined.

(** The annotation FLOAT is none of the three spellings, yet the literal
    1::FLOAT is accepted and parsed as a float. *)
Lemma annotation_spelling_counterexample :
  "FLOAT" <> "numeric" /\ "FLOAT" <> "integer" /\ "FLOAT" <> "float"
  /\ agtype_in_scalar (host := RefHost.reference_host) empty_in_state "1"
       AGTYPE_TOKEN_INTEGER (Some "FLOAT")
     = Ok (wrapped_scalar (AGTV_FLOAT (RefHost.float_of_int 1))).
Proof. repeat split; discriminate. Qed.

(** Annotations on tokens of every lexical type. *)
Example annotation_examples :
  agtype_in_scalar (host := RefHost.reference_host) empty_in_state "7"
    AGTYPE_TOKEN_STRING (Some "integer")
  = Ok (wrapped_scalar (AGTV_INTEGER 7))
  /\ agtype_in_scalar (host := RefHost.reference_host) empty_in_state "7"
       AGTYPE_TOKEN_INTEGER (Some "Numeric")
     = Ok (wrapped_scalar (AGTV_NUMERIC (NumericVal 7 0)))
  /\ agtype_in_scalar (host := RefHost.reference_host) empty_in_state "7"
       AGTYPE_TOKEN_INTEGER (Some "text")
     = Error InvalidAnnotation
  /\ agtype_in_scalar (host := RefHost.reference_host) empty_in_state "true"
       AGTYPE_TOKEN_TRUE (Some "int")
     = Error InvalidAnnotation.
Proof. repeat split. Qed.

(** ** The IN operator *)

Section InOperator.

Context {host : Host}.

Lemma in_operator_loop_found (agt_item : agtype) (agtv_item : agtype_value)
  (elems : list agtype_value) :
  in_operator_loop agt_item agtv_item elems true = true.
Proof. destruct elems; reflexivity. Qed.

(** One element of the same scalar type that compares equal is enough. *)
Lemma in_operator_loop_match (agt_item : agtype) (x e : agtype_value)
  (elems : list agtype_value) :
  IS_A_AGTYPE_SCALAR x = true ->
  IS_A_AGTYPE_SCALAR e = true ->
  type_of e = type_of x ->
  compare_agtype_scalar_values x e = 0 ->
  In e elems ->
  in_operator_loop agt_item x elems false = true.
Proof.
  intros Hx He Ht Hc. induction elems as [|a elems IH]; intros Hin.
  - destruct Hin.
  - cbn [in_operator_loop]. rewrite Hx. cbn [negb andb].
    destruct Hin as [->|Hin].
    + rewrite He, Ht. cbn [andb].
      rewrite (proj2 (agtype_value_type_eqb_eq _ _) eq_refl), Hc.
      apply in_operator_loop_found.
    + match goal with
      | |- in_operator_loop _ _ _ ?b = true => destruct b
      end; [apply in_operator_loop_found|exact (IH Hin)].
Qed.

(** Elements of another type, or containers, never match a scalar. *)
Lemma in_operator_loop_no_match (agt_item : agtype) (x : agtype_value)
  (elems : list agtype_value) :
  IS_A_AGTYPE_SCALAR x = true ->
  (forall e, In e elems ->
             IS_A_AGTYPE_SCALAR e = false \/ type_of e <> type_of x) ->
  in_operator_loop agt_item x elems false = false.
Proof.
  intros Hx. induction elems as [|a elems IH]; intros Hall.
  - reflexivity.
  - cbn [in_operator_loop]. rewrite Hx. cbn [negb andb].
    assert (Hno : IS_A_AGTYPE_SCALAR a
                  && agtype_value_type_eqb (type_of x) (type_of a) = false).
    { destruct (Hall a (or_introl eq_refl)) as [Ha|Ha].
      - rewrite Ha. reflexivity.
      - destruct (agtype_value_type_eqb (type_of x) (type_of a)) eqn:E.
        + apply agtype_value_type_eqb_eq in E. congruence.
        + apply andb_false_r. }
    rewrite Hno. apply IH. intros e He. apply Hall. right. exact He.
Qed.

(** C4 (as amended).  For a list [L] and a scalar item [x] that is not
    Null: [x IN L] is true when some element of [L] is a scalar of the same
    type as [x] (for numbers, the same numeric subtype) and compares equal
    to it; it is false when no element of [L] is a scalar of [x]'s type,
    whatever number the elements denote. *)
Theorem in_operator_compares_same_type (L : list agtype_value)
  (x : agtype_value) :
  IS_A_AGTYPE_SCALAR x = true ->
  type_of x <> T_NULL ->
  (forall e,
      In e L -> IS_A_AGTYPE_SCALAR e = true -> type_of e = type_of x ->
      compare_agtype_scalar_values x e = 0 ->
      agtype_in_operator (Some (AGTV_ARRAY false L))
        (Some (agtype_value_to_agtype x))
      = Ok (Some (boolean_to_agtype true)))
  /\ ((forall e, In e L ->
                 IS_A_AGTYPE_SCALAR e = false \/ type_of e <> type_of x) ->
      agtype_in_operator (Some (AGTV_ARRAY false L))
        (Some (agtype_value_to_agtype x))
      = Ok (Some (boolean_to_agtype false))).
Proof.
  intros Hx Hnull.
  assert (Hop : agtype_in_operator (Some (AGTV_ARRAY false L))
                  (Some (agtype_value_to_agtype x))
                = Ok (Some (boolean_to_agtype
                              (in_operator_loop (agtype_value_to_agtype x) x
                                 L false)))).
  { unfold agtype_in_operator, agtype_value_to_agtype. rewrite Hx.
    cbn [AGT_ROOT_IS_ARRAY AGT_ROOT_IS_SCALAR negb agtype_iterator_children].
    destruct x; try reflexivity; try discriminate Hx.
    exfalso. apply Hnull. reflexivity. }
  rewrite Hop. split.
  - intros e Hin He Ht Hc.
    rewrite (in_operator_loop_match _ x e L Hx He Ht Hc Hin). reflexivity.
  - intros Hall. rewrite (in_operator_loop_no_match _ x L Hx Hall).
    reflexivity.
Qed.

(** Whatever the comparators, an Integer is not found among Floats and
    numerics. *)
Lemma in_operator_integer_among_others :
  agtype_in_operator
    (Some (AGTV_ARRAY false
             [AGTV_FLOAT float_two; AGTV_NUMERIC (NumericVal 2 0)]))
    (Some (integer_to_agtype 2))
  = Ok (Some (boolean_to_agtype false)).
Proof. reflexivity. Qed.

End InOperator.

Lemma in_operator_compares_same_type_witness :
  agtype_in_operator (host := RefHost.reference_host)
    (Some (AGTV_ARRAY false [AGTV_INTEGER 1; AGTV_INTEGER 2]))
    (Some (agtype_value_to_agtype (AGTV_INTEGER 2)))
  = Ok (Some (boolean_to_agtype true)).
Proof.
  refine (proj1 (in_operator_compares_same_type
                   (host := RefHost.reference_host)
                   [AGTV_INTEGER 1; AGTV_INTEGER 2] (AGTV_INTEGER 2) _ _)
            (AGTV_INTEGER 2) _ _ _ _).
  - reflexivity.
  - discriminate.
  - right. left. reflexivity.
  - reflexivity.
  - reflexivity.
  - reflexivity.
Defined.

(** Integer 2, Float 2.0 and the numeric 2 denote the same number, but the
    Integer is not IN a list of the other two. *)
Lemma in_operator_numeric_subtype_counterexample :
  same_number (AGTV_INTEGER 2) (AGTV_FLOAT float_two)
  /\ same_number (AGTV_INTEGER 2) (AGTV_NUMERIC (NumericVal 2 0))
  /\ In (AGTV_FLOAT float_two)
       [AGTV_FLOAT float_two; AGTV_NUMERIC (NumericVal 2 0)]
  /\ agtype_in_operator (host := RefHost.reference_host)
       (Some (AGTV_ARRAY false
                [AGTV_FLOAT float_two; AGTV_NUMERIC (NumericVal 2 0)]))
       (Some (integer_to_agtype 2))
     = Ok (Some (boolean_to_agtype false)).
Proof.
  split; [|split; [|split]].
  - vm_compute. reflexivity.
  - vm_compute. reflexivity.
  - left. reflexivity.
  - reflexivity.
Qed.

(** ** Floats in text *)

Lemma digits_to_end_all_digits (s : string) :
  digits_to_end s = all_digits s.
Proof.
  induction s as [|c s IH]; [reflexivity|].
  cbn [digits_to_end all_digits]. unfold is_digit. cbv zeta.
  destruct (N.ltb_spec (N_of_ascii c) 48) as [H1|H1];
    destruct (N.leb_spec 48 (N_of_ascii c)) as [H2|H2]; try lia;
    destruct (N.ltb_spec 57 (N_of_ascii c)) as [H3|H3];
    destruct (N.leb_spec (N_of_ascii c) 57) as [H4|H4]; try lia;
    cbn [orb andb]; try reflexivity; exact IH.
Qed.

(** The loop of [is_decimal_needed] accepts the strings made of decimal
    digits after an optional leading minus sign. *)
Lemma is_decimal_needed_digits (numstr : string) :
  is_decimal_needed numstr = digits_after_sign numstr.
Proof.
  unfold is_decimal_needed, digits_after_sign.
  destruct numstr as [|c rest]; [reflexivity|].
  destruct (Ascii.eqb_spec c "-"%char) as [->|Hc].
  - apply digits_to_end_all_digits.
  - rewrite <- digits_to_end_all_digits.
    destruct c as [[] [] [] [] [] [] [] []]; try reflexivity.
    exfalso. apply Hc. reflexivity.
Qed.

Lemma strchr_append (s t : string) (c : ascii) :
  strchr (String.append s t) c = strchr s c || strchr t c.
Proof.
  induction s as [|a s IH]; cbn; [reflexivity|].
  rewrite IH. apply orb_assoc.
Qed.

Lemma all_digits_no_point (s : string) :
  all_digits s = true -> has_decimal_point s = false.
Proof.
  unfold has_decimal_point. induction s as [|c s IH]; [reflexivity|].
  cbn [all_digits strchr]. intros H. apply andb_prop in H as [Hc Hs].
  rewrite (IH Hs), orb_false_r.
  destruct (Ascii.eqb_spec c "."%char) as [->|]; [discriminate Hc|reflexivity].
Qed.

Section FloatText.

Context {host : Host}.

(** C7 (as amended).  A Float is rendered as the formatter's text, with
    the suffix .0 appended exactly when that text consists only of decimal
    digits after an optional leading minus sign.  The rendered text then
    contains a decimal point if and only if the formatter's text is of
    that all-digit form or already contains one. *)
Theorem float_gets_decimal_suffix (depth : nat) (out : string)
  (f : float8) :
  let numstr := float8out f in
  let text := String.append numstr
                (if digits_after_sign numstr then ".0" else "") in
  agtype_put_escaped_value depth out (AGTV_FLOAT f)
  = Ok (String.append out text)
  /\ (digits_after_sign numstr = true ->
      has_decimal_point numstr = false
      /\ text = String.append numstr ".0"
      /\ has_decimal_point text = true)
  /\ (digits_after_sign numstr = false ->
      text = numstr)
  /\ has_decimal_point text
     = digits_after_sign numstr || has_decimal_point numstr.
Proof.
  intros numstr text. subst text.
  assert (Happ : forall a b c : string,
             String.append (String.append a b) c
             = String.append a (String.append b c)).
  { intros a b c. induction a as [|x a IH]; cbn; [reflexivity|].
    now rewrite IH. }
  assert (Hnil : forall a : string, String.append a "" = a).
  { intros a. induction a as [|x a IH]; cbn; [reflexivity|].
    now rewrite IH. }
  split; [|split; [|split]].
  - destruct depth; cbn [agtype_put_escaped_value]; fold numstr;
      rewrite is_decimal_needed_digits;
      destruct (digits_after_sign numstr);
      rewrite ?Happ, ?Hnil; reflexivity.
  - intros Hd. rewrite Hd. split; [|split; [reflexivity|]].
    + unfold digits_after_sign in Hd. unfold has_decimal_point.
      destruct numstr as [|c rest]; [reflexivity|].
      destruct (Ascii.eqb_spec c "-"%char) as [->|Hc].
      * cbn [strchr]. cbn. exact (all_digits_no_point rest Hd).
      * assert (Hall : all_digits (String c rest) = true).
        { destruct c as [[] [] [] [] [] [] [] []]; try exact Hd.
          exfalso. apply Hc. reflexivity. }
        exact (all_digits_no_point _ Hall).
    + unfold has_decimal_point. rewrite strchr_append. cbn.
      apply orb_true_r.
  - intros Hd. rewrite Hd. apply Hnil.
  - unfold has_decimal_point. rewrite strchr_append.
    destruct (digits_after_sign numstr); cbn.
    + apply orb_true_r.
    + apply orb_false_r.
Qed.

(** Not-a-number and the infinities are printed as the formatter gives
    them, for every host. *)
Lemma special_floats_have_no_point (depth : nat) (out : string) :
  agtype_put_escaped_value depth out (AGTV_FLOAT S754_nan)
  = Ok (String.append out "NaN")
  /\ agtype_put_escaped_value depth out (AGTV_FLOAT (S754_infinity false))
     = Ok (String.append out "Infinity")
  /\ agtype_put_escaped_value depth out (AGTV_FLOAT (S754_infinity true))
     = Ok (String.append out "-Infinity").
Proof. destruct depth; repeat split. Qed.

End FloatText.

Lemma float_gets_decimal_suffix_witness :
  has_decimal_point (float8out (host := RefHost.reference_host) float_two)
  = false
  /\ String.append (float8out (host := RefHost.reference_host) float_two)
       (if digits_after_sign
             (float8out (host := RefHost.reference_host) float_two)
        then ".0" else "")
     = String.append (float8out (host := RefHost.reference_host) float_two)
         ".0"
  /\ has_decimal_point
       (String.append (float8out (host := RefHost.reference_host) float_two)
          (if digits_after_sign
                (float8out (host := RefHost.reference_host) float_two)
           then ".0" else ""))
     = true.
Proof.
  exact (proj1 (proj2 (float_gets_decimal_suffix
                         (host := RefHost.reference_host) 0 "" float_two))
           eq_refl).
Defined.

(** The Float 2.0 is printed as 2.0. *)
Example float_two_text :
  agtype_out (host := RefHost.reference_host) (float_to_agtype float_two)
  = Ok "2.0".
Proof. reflexivity. Qed.

(** The Float not-a-number is a Float scalar whose rendered text, NaN,
    contains no decimal point. *)
Lemma float_without_point_counterexample :
  agtype_out (host := RefHost.reference_host) (float_to_agtype S754_nan)
  = Ok "NaN"
  /\ has_decimal_point "NaN" = false.
Proof. split; reflexivity. Qed.

(** ** Vertices and edges in text *)

Local Notation "a +++ b" := (String.append a b)
  (at level 60, right associativity).

Lemma append_assoc (a b c : string) : (a +++ b) +++ c = a +++ (b +++ c).
Proof. induction a as [|x a IH]; cbn; [reflexivity|now rewrite IH]. Qed.

Lemma append_nil_r (a : string) : a +++ "" = a.
Proof. induction a as [|x a IH]; cbn; [reflexivity|now rewrite IH]. Qed.

Lemma sep_text_eq (indent : bool) (w : worker_state) (out : string) :
  sep indent w out = out +++ sep_text indent w.
Proof.
  unfold sep_text, sep. destruct (first w); cbn;
    [symmetry; apply append_nil_r|reflexivity].
Qed.

Lemma indent_text_eq (out : string) (indent : bool) (level : Z) :
  add_indent out indent level = out +++ indent_text indent level.
Proof.
  unfold indent_text, add_indent. destruct indent; cbn;
    [reflexivity|symmetry; apply append_nil_r].
Qed.

(** Induction on value trees, through the lists of children. *)
Lemma agtype_value_tree_ind (P : agtype_value -> Prop) :
  P AGTV_NULL ->
  (forall s, P (AGTV_STRING s)) ->
  (forall n, P (AGTV_NUMERIC n)) ->
  (forall i, P (AGTV_INTEGER i)) ->
  (forall f, P (AGTV_FLOAT f)) ->
  (forall b, P (AGTV_BOOL b)) ->
  (forall pairs, Forall (fun kv => P (snd kv)) pairs ->
                 P (AGTV_VERTEX pairs)) ->
  (forall pairs, Forall (fun kv => P (snd kv)) pairs ->
                 P (AGTV_EDGE pairs)) ->
  (forall raw elems, Forall P elems -> P (AGTV_ARRAY raw elems)) ->
  (forall pairs, Forall (fun kv => P (snd kv)) pairs ->
                 P (AGTV_OBJECT pairs)) ->
  forall v, P v.
Proof.
  intros Hnull Hstr Hnum Hint Hflt Hbool Hvtx Hedge Harr Hobj.
  refine (fix IH (v : agtype_value) : P v :=
            let on_pairs :=
              fix G (l : list (string * agtype_value))
                : Forall (fun kv => P (snd kv)) l :=
                match l with
                | [] => Forall_nil _
                | kv :: l' =>
                    Forall_cons kv
                      (match kv return P (snd kv) with
                       | (_, x) => IH x
                       end) (G l')
                end in
            match v with
            | AGTV_NULL => Hnull
            | AGTV_STRING s => Hstr s
            | AGTV_NUMERIC n => Hnum n
            | AGTV_INTEGER i => Hint i
            | AGTV_FLOAT f => Hflt f
            | AGTV_BOOL b => Hbool b
            | AGTV_VERTEX pairs => Hvtx pairs (on_pairs pairs)
            | AGTV_EDGE pairs => Hedge pairs (on_pairs pairs)
            | AGTV_ARRAY raw elems =>
                Harr raw elems
                  ((fix G (l : list agtype_value) : Forall P l :=
                      match l with
                      | [] => Forall_nil _
                      | x :: l' => Forall_cons x (IH x) (G l')
                      end) elems)
            | AGTV_OBJECT pairs => Hobj pairs (on_pairs pairs)
            end).
Qed.

Section Printer.

Context {host : Host}.

Section Loop.

Variable put : string -> agtype_value -> outcome string.
Variable indent : bool.
Hypothesis put_appends : appends_only put.


Lemma loop_shift (rest : list (agtype_iterator_token * agtype_value)) :
  (forall w out, worker_loop put indent rest w out = (s <- worker_loop put indent rest w "" ;; Ok (out +++ s))) ->
  forall w x out,
    worker_loop put indent rest w (out +++ x) = (s <- worker_loop put indent rest w x ;; Ok (out +++ s)).
Proof.
  intros H w x out. rewrite (H w (out +++ x)), (H w x).
  destruct (worker_loop put indent rest w ""); cbn; [|reflexivity].
  now rewrite append_assoc.
Qed.

Lemma put_shift (v : agtype_value) (x out : string) :
  put (out +++ x) v = (s <- put x v ;; Ok (out +++ s)).
Proof.
  rewrite (put_appends (out +++ x) v), (put_appends x v).
  destruct (put "" v); cbn; [|reflexivity].
  now rewrite append_assoc.
Qed.

(** The worker only appends to the buffer it is given. *)
Lemma worker_loop_appends (n : nat) :
  forall toks, (List.length toks <= n)%nat ->
  forall w out, worker_loop put indent toks w out = (s <- worker_loop put indent toks w "" ;; Ok (out +++ s)).
Proof.
  induction n as [|n IH]; intros toks Hlen w out.
  - destruct toks; [|cbn in Hlen; lia]. cbn. now rewrite append_nil_r.
  - destruct toks as [|[type v] rest].
    { cbn. now rewrite append_nil_r. }
    assert (Hrest : (List.length rest <= n)%nat) by (cbn in Hlen; lia).
    pose proof (loop_shift rest (IH rest Hrest)) as Sh.
    destruct type; cbn [worker_loop];
      try (cbn; reflexivity).
    + (* Key *)
      rewrite !sep_text_eq, !indent_text_eq, ?append_assoc.
      cbn [String.append].
      rewrite put_shift.
      destruct (put (sep_text indent w
                     +++ indent_text (use_indent w) (level w)) v)
        as [sv|e]; cbn [bind]; [|reflexivity].
      destruct rest as [|[type2 v2] rest']; [reflexivity|].
      assert (Hrest' : (List.length rest' <= n)%nat) by (cbn in Hrest; lia).
      pose proof (loop_shift rest' (IH rest' Hrest')) as Sh'.
      rewrite append_assoc.
      destruct type2; try apply Sh.
      rewrite put_shift.
      destruct (put (sv +++ ": ") v2) as [sv2|e]; cbn [bind];
        [|reflexivity].
      apply Sh'.
    + (* Elem *)
      destruct (w_raw_scalar w); cbn [negb];
        rewrite !sep_text_eq, ?indent_text_eq, ?append_assoc;
        cbn [String.append]; rewrite put_shift;
        match goal with
        | |- context [put ?x v] => destruct (put x v) as [sv|e]
        end; cbn [bind]; try reflexivity; apply Sh.
    + (* BeginArray *)
      destruct (negb match v with AGTV_ARRAY raw _ => raw | _ => false end);
        rewrite !sep_text_eq, ?indent_text_eq, ?append_assoc;
        cbn [String.append]; apply Sh.
    + (* EndArray *)
      destruct (negb (w_raw_scalar w)).
      * rewrite !indent_text_eq, ?append_assoc. cbn [String.append].
        apply Sh.
      * rewrite <- (append_nil_r out) at 1. apply Sh.
    + (* BeginObject *)
      rewrite !sep_text_eq, !indent_text_eq, ?append_assoc.
      cbn [String.append]. apply Sh.
    + (* EndObject *)
      rewrite !indent_text_eq, ?append_assoc. cbn [String.append].
      apply Sh.
Qed.

End Loop.

(** [agtype_put_escaped_value] only appends to the buffer. *)
Lemma put_appends_only (depth : nat) :
  appends_only (agtype_put_escaped_value depth).
Proof.
  assert (Hscalar : forall d out v,
             match v with AGTV_VERTEX _ | AGTV_EDGE _ => False | _ => True end ->
             agtype_put_escaped_value d out v
             = (s <- agtype_put_escaped_value d "" v ;; Ok (out +++ s))).
  { intros d out v Hv. destruct d; destruct v; try destruct Hv;
      cbn [agtype_put_escaped_value bind]; unfold escape_agtype;
      rewrite ?append_assoc; cbn [String.append]; try reflexivity;
      match goal with
      | |- context [is_decimal_needed ?x] => destruct (is_decimal_needed x)
      end; rewrite ?append_assoc; reflexivity. }
  induction depth as [|depth IH]; intros out v.
  - destruct v; try (apply Hscalar; exact I); reflexivity.
  - destruct v; try (apply Hscalar; exact I);
      cbn [agtype_put_escaped_value]; unfold agtype_to_cstring_worker;
      rewrite (worker_loop_appends _ false IH _ _ (le_n _) worker_init out);
      match goal with
      | |- context [worker_loop ?p ?i ?t ?w ""] =>
          destruct (worker_loop p i t w "")
      end; cbn [bind]; rewrite ?append_assoc; reflexivity.
Qed.

Lemma worker_loop_extends
  (put1 put2 : string -> agtype_value -> outcome string) (indent : bool)
  (n : nat) :
  extends put1 put2 ->
  forall toks, (List.length toks <= n)%nat ->
  forall w out s,
    worker_loop put1 indent toks w out = Ok s ->
    worker_loop put2 indent toks w out = Ok s.
Proof.
  intros Hext. induction n as [|n IH]; intros toks Hlen w out s.
  - destruct toks; [|cbn in Hlen; lia]. exact (fun H => H).
  - destruct toks as [|[type v] rest]; [exact (fun H => H)|].
    assert (Hrest : (List.length rest <= n)%nat) by (cbn in Hlen; lia).
    destruct type; cbn [worker_loop]; try discriminate;
      try (apply (IH rest Hrest)).
    + match goal with
      | |- context [put1 ?x v] =>
          destruct (put1 x v) as [sv|e] eqn:E1; [|discriminate];
          rewrite (Hext _ _ _ E1)
      end. cbn [bind].
      destruct rest as [|[type2 v2] rest']; [discriminate|].
      assert (Hrest' : (List.length rest' <= n)%nat) by (cbn in Hrest; lia).
      destruct type2; try (apply (IH _ Hrest)).
      match goal with
      | |- context [put1 ?x v2] =>
          destruct (put1 x v2) as [sv2|e] eqn:E2; [|discriminate];
          rewrite (Hext _ _ _ E2)
      end. cbn [bind]. apply (IH rest' Hrest').
    + match goal with
      | |- context [put1 ?x v] =>
          destruct (put1 x v) as [sv|e] eqn:E1; [|discriminate];
          rewrite (Hext _ _ _ E1)
      end. cbn [bind]. apply (IH rest Hrest).
Qed.

Lemma put_vertex_eq (depth : nat) (out : string)
  (pairs : list (string * agtype_value)) :
  agtype_put_escaped_value (S depth) out (AGTV_VERTEX pairs)
  = (body <- agtype_to_cstring_worker (agtype_put_escaped_value depth)
               false out (AGTV_OBJECT pairs) ;;
     Ok (body +++ "::vertex")).
Proof. reflexivity. Qed.

Lemma put_edge_eq (depth : nat) (out : string)
  (pairs : list (string * agtype_value)) :
  agtype_put_escaped_value (S depth) out (AGTV_EDGE pairs)
  = (body <- agtype_to_cstring_worker (agtype_put_escaped_value depth)
               false out (AGTV_OBJECT pairs) ;;
     Ok (body +++ "::edge")).
Proof. reflexivity. Qed.

Lemma worker_extends
  (put1 put2 : string -> agtype_value -> outcome string) (indent : bool)
  (out : string) (c : agtype) (s : string) :
  extends put1 put2 ->
  agtype_to_cstring_worker put1 indent out c = Ok s ->
  agtype_to_cstring_worker put2 indent out c = Ok s.
Proof.
  intros Hext. unfold agtype_to_cstring_worker.
  exact (worker_loop_extends put1 put2 indent _ Hext _ (le_n _) _ _ _).
Qed.

(** More depth never changes a text that was produced. *)
Lemma put_depth_succ (depth : nat) :
  extends (agtype_put_escaped_value depth)
    (agtype_put_escaped_value (S depth)).
Proof.
  induction depth as [|depth IH]; intros out v s H.
  - destruct v; try exact H; discriminate H.
  - destruct v; try exact H.
    + rewrite put_vertex_eq in H |- *.
      destruct (agtype_to_cstring_worker (agtype_put_escaped_value depth)
                  false out (AGTV_OBJECT pairs)) as [body|e] eqn:E;
        [|discriminate H].
      rewrite (worker_extends _ _ _ _ _ _ IH E). exact H.
    + rewrite put_edge_eq in H |- *.
      destruct (agtype_to_cstring_worker (agtype_put_escaped_value depth)
                  false out (AGTV_OBJECT pairs)) as [body|e] eqn:E;
        [|discriminate H].
      rewrite (worker_extends _ _ _ _ _ _ IH E). exact H.
Qed.

Lemma put_depth_le (d d' : nat) :
  (d <= d')%nat ->
  extends (agtype_put_escaped_value d) (agtype_put_escaped_value d').
Proof.
  induction 1 as [|d' Hle IH]; intros out v s H; [exact H|].
  apply put_depth_succ. exact (IH out v s H).
Qed.

(** On a well-formed token sequence the worker succeeds when the printer
    succeeds on the scalars. *)
Lemma worker_loop_total (put : string -> agtype_value -> outcome string)
  (indent : bool) (okv : agtype_value -> bool) (n : nat) :
  (forall out v, okv v = true -> exists s, put out v = Ok s) ->
  forall toks, (List.length toks <= n)%nat ->
  tokens_ok okv toks = true ->
  forall w out, exists s, worker_loop put indent toks w out = Ok s.
Proof.
  intros Hput. induction n as [|n IH]; intros toks Hlen Hok w out.
  - destruct toks; [|cbn in Hlen; lia]. eexists. reflexivity.
  - destruct toks as [|[type v] rest]; [eexists; reflexivity|].
    assert (Hrest : (List.length rest <= n)%nat) by (cbn in Hlen; lia).
    destruct type; cbn [tokens_ok] in Hok; try discriminate Hok;
      cbn [worker_loop]; try (apply (IH rest Hrest Hok)).
    + apply andb_prop in Hok as [Hv Hok].
      match goal with
      | |- context [put ?x v] => destruct (Hput x v Hv) as [sv ->]
      end. cbn [bind].
      destruct rest as [|[type2 v2] rest']; [discriminate Hok|].
      assert (Hrest' : (List.length rest' <= n)%nat) by (cbn in Hrest; lia).
      destruct type2; try (apply (IH _ Hrest Hok)).
      apply andb_prop in Hok as [Hv2 Hok].
      match goal with
      | |- context [put ?x v2] => destruct (Hput x v2 Hv2) as [sv2 ->]
      end. cbn [bind]. apply (IH rest' Hrest' Hok).
    + apply andb_prop in Hok as [Hv Hok].
      match goal with
      | |- context [put ?x v] => destruct (Hput x v Hv) as [sv ->]
      end. cbn [bind]. apply (IH rest Hrest Hok).
Qed.

Lemma tokens_ok_app (okv : agtype_value -> bool) (n : nat) :
  forall l1, (List.length l1 <= n)%nat ->
  forall l2, tokens_ok okv l1 = true -> tokens_ok okv l2 = true ->
             tokens_ok okv (l1 ++ l2) = true.
Proof.
  induction n as [|n IH]; intros l1 Hlen l2 H1 H2.
  - destruct l1; [exact H2|cbn in Hlen; lia].
  - destruct l1 as [|[type v] rest]; [exact H2|].
    assert (Hrest : (List.length rest <= n)%nat) by (cbn in Hlen; lia).
    destruct type; cbn [tokens_ok app] in H1 |- *; try discriminate H1;
      try (apply (IH rest Hrest l2 H1 H2)).
    + apply andb_prop in H1 as [Hv H1]. rewrite Hv. cbn [andb].
      destruct rest as [|[type2 v2] rest']; [discriminate H1|].
      assert (Hrest' : (List.length rest' <= n)%nat) by (cbn in Hrest; lia).
      cbn [app].
      destruct type2; try (apply (IH _ Hrest l2 H1 H2)).
      apply andb_prop in H1 as [Hv2 H1]. rewrite Hv2. cbn [andb].
      apply (IH rest' Hrest' l2 H1 H2).
    + apply andb_prop in H1 as [Hv H1]. rewrite Hv. cbn [andb].
      apply (IH rest Hrest l2 H1 H2).
Qed.

Lemma tokens_ok_flat_map {A : Type} (okv : agtype_value -> bool)
  (f : A -> list (agtype_iterator_token * agtype_value)) (l : list A) :
  Forall (fun a => tokens_ok okv (f a) = true) l ->
  tokens_ok okv (flat_map f l) = true.
Proof.
  induction 1 as [|a l Ha _ IH]; [reflexivity|].
  cbn [flat_map]. exact (tokens_ok_app okv _ _ (le_n _) _ Ha IH).
Qed.

(** The iterator's tokens of a value are well formed, with scalars as deep
    as the value at most. *)
Lemma tokens_of_tree_ok (d : nat) :
  forall c, (vertex_depth c <= d)%nat ->
            tokens_ok (printable d) (agtype_iterator_tokens c) = true.
Proof.
  induction c as [| | | | | | | |raw elems IH|pairs IH]
    using agtype_value_tree_ind; intros Hd; try reflexivity.
  - cbn [agtype_iterator_tokens tokens_ok].
    apply (tokens_ok_app _ _ _ (le_n _)); [|reflexivity].
    apply tokens_ok_flat_map.
    cbn [vertex_depth] in Hd. apply list_max_le in Hd.
    rewrite Forall_map in Hd.
    rewrite Forall_forall in IH, Hd |- *. intros e He.
    destruct (IS_A_AGTYPE_SCALAR e) eqn:Es.
    + cbn [tokens_ok]. unfold printable. rewrite Es.
      rewrite (proj2 (Nat.leb_le _ _) (Hd e He)). reflexivity.
    + exact (IH e He (Hd e He)).
  - cbn [agtype_iterator_tokens tokens_ok].
    apply (tokens_ok_app _ _ _ (le_n _)); [|reflexivity].
    apply tokens_ok_flat_map.
    cbn [vertex_depth] in Hd. apply list_max_le in Hd.
    rewrite Forall_map in Hd.
    rewrite Forall_forall in IH, Hd |- *. intros [k v] He.
    specialize (IH _ He). specialize (Hd _ He). cbn [snd] in IH, Hd.
    cbn [tokens_ok]. change (printable d (AGTV_STRING k)) with true.
    cbn [andb].
    destruct v; cbn [IS_A_AGTYPE_SCALAR]; unfold printable;
      cbn [IS_A_AGTYPE_SCALAR andb tokens_ok];
      try (rewrite (proj2 (Nat.leb_le _ _) Hd); reflexivity);
      exact (IH Hd).
Qed.

(** With enough depth every scalar is printed. *)
Lemma put_total (d : nat) :
  forall out v, printable d v = true ->
                exists s, agtype_put_escaped_value d out v = Ok s.
Proof.
  induction d as [|d IH]; intros out v Hv;
    unfold printable in Hv; apply andb_prop in Hv as [Hs Hd];
    apply Nat.leb_le in Hd;
    destruct v; try discriminate Hs;
    try (eexists; reflexivity);
    cbn [vertex_depth] in Hd; try lia.
  - rewrite put_vertex_eq. unfold agtype_to_cstring_worker.
    destruct (worker_loop_total (agtype_put_escaped_value d) false
                (printable d) _ IH _ (le_n _)
                (tokens_of_tree_ok d (AGTV_OBJECT pairs)
                   ltac:(cbn [vertex_depth]; lia))
                worker_init out) as [body ->].
    eexists. reflexivity.
  - rewrite put_edge_eq. unfold agtype_to_cstring_worker.
    destruct (worker_loop_total (agtype_put_escaped_value d) false
                (printable d) _ IH _ (le_n _)
                (tokens_of_tree_ok d (AGTV_OBJECT pairs)
                   ltac:(cbn [vertex_depth]; lia))
                worker_init out) as [body ->].
    eexists. reflexivity.
Qed.

(** Every value has a text. *)
Lemma agtype_to_cstring_total (c : agtype) :
  exists s, agtype_to_cstring c = Ok s.
Proof.
  unfold agtype_to_cstring, agtype_to_cstring_worker.
  exact (worker_loop_total _ false (printable (vertex_depth c)) _
           (put_total (vertex_depth c)) _ (le_n _)
           (tokens_of_tree_ok _ c (le_n _)) worker_init "").
Qed.

Lemma put_tagged_object (depth : nat) (out body : string)
  (pairs : list (string * agtype_value)) :
  agtype_to_cstring (AGTV_OBJECT pairs) = Ok body ->
  (vertex_depth (AGTV_VERTEX pairs) <= depth)%nat ->
  agtype_put_escaped_value depth out (AGTV_VERTEX pairs)
  = Ok (out +++ body +++ "::vertex")
  /\ agtype_put_escaped_value depth out (AGTV_EDGE pairs)
     = Ok (out +++ body +++ "::edge").
Proof.
  intros Hbody Hd. cbn [vertex_depth] in Hd.
  destruct depth as [|depth]; [lia|].
  assert (Hle : (vertex_depth (AGTV_OBJECT pairs) <= depth)%nat)
    by (cbn [vertex_depth]; lia).
  pose proof (worker_extends _ _ false "" _ _
                (put_depth_le _ _ Hle) Hbody) as Hdeep.
  assert (Hout : agtype_to_cstring_worker (agtype_put_escaped_value depth)
                   false out (AGTV_OBJECT pairs) = Ok (out +++ body)).
  { unfold agtype_to_cstring_worker in Hdeep |- *.
    rewrite (worker_loop_appends _ false (put_appends_only depth) _ _
               (le_n _) worker_init out), Hdeep. reflexivity. }
  rewrite put_vertex_eq, put_edge_eq, Hout. cbn [bind].
  rewrite !append_assoc. split; reflexivity.
Qed.

(** C6.  A Vertex is rendered as the text of its pairs as a plain Object,
    followed by ::vertex, and an Edge as that text followed by ::edge: at
    top level, also when indentation is asked for, and wherever the value
    stands inside a container, whatever the buffer holds already. *)
Theorem vertex_rendered_as_tagged_object
  (pairs : list (string * agtype_value)) :
  exists body,
    agtype_out (AGTV_OBJECT pairs) = Ok body
    /\ agtype_out (agtype_value_to_agtype (AGTV_VERTEX pairs))
       = Ok (body +++ "::vertex")
    /\ agtype_out (agtype_value_to_agtype (AGTV_EDGE pairs))
       = Ok (body +++ "::edge")
    /\ agtype_to_cstring_indent (agtype_value_to_agtype (AGTV_VERTEX pairs))
       = Ok (body +++ "::vertex")
    /\ (forall (depth : nat) (out : string),
           (vertex_depth (AGTV_VERTEX pairs) <= depth)%nat ->
           agtype_put_escaped_value depth out (AGTV_VERTEX pairs)
           = Ok (out +++ body +++ "::vertex")
           /\ agtype_put_escaped_value depth out (AGTV_EDGE pairs)
              = Ok (out +++ body +++ "::edge")).
Proof.
  destruct (agtype_to_cstring_total (AGTV_OBJECT pairs)) as [body Hbody].
  exists body. split; [exact Hbody|].
  assert (Hput : forall depth out,
             (vertex_depth (AGTV_VERTEX pairs) <= depth)%nat ->
             agtype_put_escaped_value depth out (AGTV_VERTEX pairs)
             = Ok (out +++ body +++ "::vertex")
             /\ agtype_put_escaped_value depth out (AGTV_EDGE pairs)
                = Ok (out +++ body +++ "::edge"))
    by (intros depth out; apply put_tagged_object; exact Hbody).
  split; [|split; [|split; [|exact Hput]]].
  - unfold agtype_out, agtype_to_cstring, agtype_to_cstring_worker.
    change (agtype_value_to_agtype (AGTV_VERTEX pairs))
      with (AGTV_ARRAY true [AGTV_VERTEX pairs]).
    cbn [agtype_iterator_tokens flat_map IS_A_AGTYPE_SCALAR app worker_loop
           sep first worker_init negb w_raw_scalar].
    destruct (Hput (vertex_depth (AGTV_ARRAY true [AGTV_VERTEX pairs])) "")
      as [-> _]; [cbn [vertex_depth map]; unfold list_max; cbn [fold_right]; lia|].
    reflexivity.
  - unfold agtype_out, agtype_to_cstring, agtype_to_cstring_worker.
    change (agtype_value_to_agtype (AGTV_EDGE pairs))
      with (AGTV_ARRAY true [AGTV_EDGE pairs]).
    cbn [agtype_iterator_tokens flat_map IS_A_AGTYPE_SCALAR app worker_loop
           sep first worker_init negb w_raw_scalar].
    destruct (Hput (vertex_depth (AGTV_ARRAY true [AGTV_EDGE pairs])) "")
      as [_ ->]; [cbn [vertex_depth map]; unfold list_max; cbn [fold_right]; lia|].
    reflexivity.
  - unfold agtype_to_cstring_indent, agtype_to_cstring_worker.
    change (agtype_value_to_agtype (AGTV_VERTEX pairs))
      with (AGTV_ARRAY true [AGTV_VERTEX pairs]).
    cbn [agtype_iterator_tokens flat_map IS_A_AGTYPE_SCALAR app worker_loop
           sep first worker_init negb w_raw_scalar].
    destruct (Hput (vertex_depth (AGTV_ARRAY true [AGTV_VERTEX pairs])) "")
      as [-> _]; [cbn [vertex_depth map]; unfold list_max; cbn [fold_right]; lia|].
    reflexivity.
Qed.

End Printer.

Lemma vertex_rendered_as_tagged_object_witness :
  exists body,
    agtype_out (host := RefHost.reference_host) (AGTV_OBJECT example_pairs)
    = Ok body
    /\ agtype_put_escaped_value (host := RefHost.reference_host) 3 "["
         (AGTV_VERTEX example_pairs)
       = Ok ("[" +++ body +++ "::vertex").
Proof.
  destruct (vertex_rendered_as_tagged_object
              (host := RefHost.reference_host) example_pairs)
    as [body (Hbody & _ & _ & _ & Hput)].
  exists body. split; [exact Hbody|].
  refine (proj1 (Hput 3%nat "[" _)). vm_compute. repeat constructor.
Defined.

Example example_vertex_text :
  agtype_out (host := RefHost.reference_host) (AGTV_OBJECT example_pairs)
  = Ok (String.concat ""
          ["{"; dquote; "id"; dquote; ": 10, "; dquote; "label"; dquote;
           ": "; dquote; "v"; dquote; ", "; dquote; "properties"; dquote;
           ": {"; dquote; "k"; dquote; ": "; dquote; "x"; dquote; "}}"])
  /\ agtype_out (host := RefHost.reference_host)
       (agtype_value_to_agtype (AGTV_VERTEX example_pairs))
     = Ok (String.concat ""
             ["{"; dquote; "id"; dquote; ": 10, "; dquote; "label"; dquote;
              ": "; dquote; "v"; dquote; ", "; dquote; "properties"; dquote;
              ": {"; dquote; "k"; dquote; ": "; dquote; "x"; dquote;
              "}}::vertex"]).
Proof. split; reflexivity. Qed.

(** ** Vertex and edge builders *)

Section Builders.

Context {host : Host}.

Lemma checked_string_fits (s : string) :
  strlen s <= AGTENTRY_OFFLENMASK -> checked_string s = Ok (AGTV_STRING s).
Proof.
  intros H. unfold checked_string. rewrite (check_string_length_fits _ H).
  reflexivity.
Qed.

Lemma push_key_in_object (pairs : list (string * agtype_value))
  (pending : option string) (rest : agtype_parse_state)
  (r : option agtype_value) (name : string) :
  strlen name <= AGTENTRY_OFFLENMASK ->
  push_key (mk_in_state (ObjectFrame pairs pending :: rest) r) name
  = Ok (mk_in_state (ObjectFrame pairs (Some name) :: rest)
          (Some (AGTV_OBJECT pairs))).
Proof.
  intros H. unfold push_key, string_to_agtype_value.
  rewrite (checked_string_fits _ H). reflexivity.
Qed.

Lemma add_graphid_in_object (depth : nat)
  (pairs : list (string * agtype_value)) (k : string)
  (rest : agtype_parse_state) (r : option agtype_value) (id i : Z) :
  builder_host_ok ->
  graphid_value id = Ok i ->
  add_agtype (S depth) (GraphidGetDatum id) false
    (mk_in_state (ObjectFrame pairs (Some k) :: rest) r) GRAPHIDOID false
  = Ok (mk_in_state (ObjectFrame (pairs ++ [(k, AGTV_INTEGER i)]) None :: rest)
          (Some (AGTV_OBJECT (pairs ++ [(k, AGTV_INTEGER i)])))).
Proof.
  intros (_ & Hoid & Hcat) Hid. unfold add_agtype, graphid_value in *.
  destruct (Z.eqb_spec GRAPHIDOID InvalidOid) as [E|_]; [contradiction|].
  destruct (agtype_categorize_type GRAPHIDOID) as [tcategory outfuncoid].
  cbn [fst snd] in Hcat, Hid. subst tcategory.
  cbn [datum_to_agtype andb]. rewrite Hid. reflexivity.
Qed.

Ltac builder_fails Hobj :=
  repeat (cbn [bind];
          match goal with
          | |- exists e, Error _ = Error e => eexists; reflexivity
          | |- exists e, bind (build_properties _ (Some _) _) _ = Error e =>
              unfold build_properties; rewrite Hobj; cbn [negb bind]
          | |- exists e, bind ?x _ = Error e => destruct x
          end).

Lemma build_vertex_rejects_properties (depth : nat) (arg0 : option Z)
  (arg1 : option string) (properties : agtype) :
  AGT_ROOT_IS_OBJECT properties = false ->
  exists e, _agtype_build_vertex depth arg0 arg1 (Some properties) = Error e.
Proof.
  intros Hobj. unfold _agtype_build_vertex. builder_fails Hobj.
Qed.

Lemma build_edge_rejects_properties (depth : nat) (arg0 arg1 arg2 : option Z)
  (arg3 : option string) (properties : agtype) :
  AGT_ROOT_IS_OBJECT properties = false ->
  exists e,
    _agtype_build_edge depth arg0 arg1 arg2 arg3 (Some properties) = Error e.
Proof.
  intros Hobj. unfold _agtype_build_edge. builder_fails Hobj.
Qed.

Lemma build_vertex_rejects_null (depth : nat) (arg0 : option Z)
  (arg1 : option string) (arg2 : option agtype) :
  arg0 = None \/ arg1 = None ->
  exists e, _agtype_build_vertex depth arg0 arg1 arg2 = Error e.
Proof.
  intros [-> | ->]; unfold _agtype_build_vertex;
    builder_fails (@eq_refl bool true).
Qed.

Lemma build_edge_rejects_null (depth : nat) (arg0 arg1 arg2 : option Z)
  (arg3 : option string) (arg4 : option agtype) :
  arg0 = None \/ arg1 = None \/ arg2 = None \/ arg3 = None ->
  exists e, _agtype_build_edge depth arg0 arg1 arg2 arg3 arg4 = Error e.
Proof.
  intros [-> | [-> | [-> | ->]]]; unfold _agtype_build_edge;
    builder_fails (@eq_refl bool true).
Qed.

Lemma build_vertex_null_properties (depth : nat) (id i : Z)
  (label : string) :
  builder_host_ok ->
  strlen label <= AGTENTRY_OFFLENMASK ->
  graphid_value id = Ok i ->
  _agtype_build_vertex (S depth) (Some id) (Some label) None
  = Ok (AGTV_ARRAY true
          [AGTV_VERTEX (vertex_pairs i label (AGTV_OBJECT []))]).
Proof.
  intros Hok Hlabel Hid. pose proof Hok as (Hmask & _).
  unfold _agtype_build_vertex.
  change (push empty_in_state WAGT_BEGIN_OBJECT None)
    with (Ok (mk_in_state [ObjectFrame [] None] (Some (AGTV_OBJECT [])))).
  cbn [bind].
  rewrite push_key_in_object by (vm_compute strlen; lia). cbn [bind].
  rewrite (add_graphid_in_object depth _ _ _ _ id i Hok Hid). cbn [bind app].
  rewrite push_key_in_object by (vm_compute strlen; lia). cbn [bind].
  unfold string_to_agtype_value. rewrite (checked_string_fits _ Hlabel).
  cbn [bind]. unfold push at 1.
  cbn [parse_state push_agtype_value append_value bind app cont_val].
  rewrite push_key_in_object by (vm_compute strlen; lia). cbn [bind].
  reflexivity.
Qed.

Lemma build_edge_null_properties (depth : nat) (id start_id end_id : Z)
  (i s e : Z) (label : string) :
  builder_host_ok ->
  strlen label <= AGTENTRY_OFFLENMASK ->
  graphid_value id = Ok i ->
  graphid_value start_id = Ok s ->
  graphid_value end_id = Ok e ->
  _agtype_build_edge (S depth) (Some id) (Some start_id) (Some end_id)
    (Some label) None
  = Ok (AGTV_ARRAY true
          [AGTV_EDGE (edge_pairs i s e label (AGTV_OBJECT []))]).
Proof.
  intros Hok Hlabel Hid Hs He. pose proof Hok as (Hmask & _).
  unfold _agtype_build_edge.
  change (push empty_in_state WAGT_BEGIN_OBJECT None)
    with (Ok (mk_in_state [ObjectFrame [] None] (Some (AGTV_OBJECT [])))).
  cbn [bind].
  rewrite push_key_in_object by (vm_compute strlen; lia). cbn [bind].
  rewrite (add_graphid_in_object depth _ _ _ _ id i Hok Hid). cbn [bind app].
  rewrite push_key_in_object by (vm_compute strlen; lia). cbn [bind].
  rewrite (add_graphid_in_object depth _ _ _ _ start_id s Hok Hs).
  cbn [bind app].
  rewrite push_key_in_object by (vm_compute strlen; lia). cbn [bind].
  rewrite (add_graphid_in_object depth _ _ _ _ end_id e Hok He).
  cbn [bind app].
  rewrite push_key_in_object by (vm_compute strlen; lia). cbn [bind].
  unfold string_to_agtype_value. rewrite (checked_string_fits _ Hlabel).
  cbn [bind]. unfold push at 1.
  cbn [parse_state push_agtype_value append_value bind app cont_val].
  rewrite push_key_in_object by (vm_compute strlen; lia). cbn [bind].
  reflexivity.
Qed.

(** C10.  Called with SQL NULL for the properties, the vertex and the edge
    builder return a value whose properties field is bound to an empty
    Object.  Properties that are not NULL and whose root is not an Object
    make the builder fail, and so does SQL NULL for the id, the start_id,
    the end_id or the label. *)
Theorem builders_check_their_arguments (depth : nat) :
  (forall (id i : Z) (label : string),
      builder_host_ok ->
      strlen label <= AGTENTRY_OFFLENMASK ->
      graphid_value id = Ok i ->
      _agtype_build_vertex (S depth) (Some id) (Some label) None
      = Ok (AGTV_ARRAY true
              [AGTV_VERTEX (vertex_pairs i label (AGTV_OBJECT []))]))
  /\ (forall (id start_id end_id i s e : Z) (label : string),
         builder_host_ok ->
         strlen label <= AGTENTRY_OFFLENMASK ->
         graphid_value id = Ok i ->
         graphid_value start_id = Ok s ->
         graphid_value end_id = Ok e ->
         _agtype_build_edge (S depth) (Some id) (Some start_id)
           (Some end_id) (Some label) None
         = Ok (AGTV_ARRAY true
                 [AGTV_EDGE (edge_pairs i s e label (AGTV_OBJECT []))]))
  /\ (forall (arg0 : option Z) (arg1 : option string) (properties : agtype),
         AGT_ROOT_IS_OBJECT properties = false ->
         exists e,
           _agtype_build_vertex depth arg0 arg1 (Some properties) = Error e)
  /\ (forall (arg0 arg1 arg2 : option Z) (arg3 : option string)
             (properties : agtype),
         AGT_ROOT_IS_OBJECT properties = false ->
         exists e,
           _agtype_build_edge depth arg0 arg1 arg2 arg3 (Some properties)
           = Error e)
  /\ (forall (arg0 : option Z) (arg1 : option string) (arg2 : option agtype),
         arg0 = None \/ arg1 = None ->
         exists e, _agtype_build_vertex depth arg0 arg1 arg2 = Error e)
  /\ (forall (arg0 arg1 arg2 : option Z) (arg3 : option string)
             (arg4 : option agtype),
         arg0 = None \/ arg1 = None \/ arg2 = None \/ arg3 = None ->
         exists e,
           _agtype_build_edge depth arg0 arg1 arg2 arg3 arg4 = Error e).
Proof.
  split; [exact (build_vertex_null_properties depth)|].
  split; [exact (build_edge_null_properties depth)|].
  split; [exact (build_vertex_rejects_properties depth)|].
  split; [exact (build_edge_rejects_properties depth)|].
  split; [exact (build_vertex_rejects_null depth)
         |exact (build_edge_rejects_null depth)].
Qed.

End Builders.

Lemma reference_host_builder_ok :
  builder_host_ok (host := RefHost.reference_host).
Proof. repeat split; vm_compute; discriminate. Qed.

Lemma builders_check_their_arguments_witness :
  _agtype_build_vertex (host := RefHost.reference_host) 1
    (Some 844424930131969) (Some "v") None
  = Ok (AGTV_ARRAY true
          [AGTV_VERTEX (vertex_pairs 844424930131969 "v" (AGTV_OBJECT []))]).
Proof.
  refine (proj1 (builders_check_their_arguments
                   (host := RefHost.reference_host) 0)
            844424930131969 844424930131969 "v" _ _ _).
  - repeat split; vm_compute; discriminate.
  - vm_compute. discriminate.
  - reflexivity.
Defined.

(** The errors the builders report. *)
Example builder_errors :
  _agtype_build_vertex (host := RefHost.reference_host) 1 None (Some "v")
    None = Error GraphidNull
  /\ _agtype_build_vertex (host := RefHost.reference_host) 1 (Some 1) None
       None = Error LabelNull
  /\ _agtype_build_vertex (host := RefHost.reference_host) 1 (Some 1)
       (Some "v") (Some (AGTV_ARRAY false [])) = Error PropertiesNotObject
  /\ _agtype_build_edge (host := RefHost.reference_host) 1 (Some 1) None
       (Some 3) (Some "e") None = Error StartidNull
  /\ _agtype_build_edge (host := RefHost.reference_host) 1 (Some 1) (Some 2)
       None (Some "e") None = Error EndidNull
  /\ _agtype_build_edge (host := RefHost.reference_host) 1 (Some 1) (Some 2)
       (Some 3) (Some "e") (Some (integer_to_agtype 1))
     = Error PropertiesNotObject.
Proof. repeat split. Qed.

(** * Further properties *)

(** ** Paths through the access operator *)

Lemma access_operator_loop_app (keys1 keys2 : list (option agtype)) :
  forall object,
    access_operator_loop object (keys1 ++ keys2)
    = match access_operator_loop object keys1 with
      | Ok (Some o) => access_operator_loop o keys2
      | r => r
      end.
Proof.
  induction keys1 as [|[key|] keys1 IH]; intros object; cbn [app]; try reflexivity.
  cbn [access_operator_loop].
  destruct (negb (AGT_ROOT_IS_SCALAR key)); [reflexivity|].
  match goal with
  | |- bind ?x _ = _ => destruct x as [[o|]|e]; cbn [bind]; try reflexivity
  end.
  apply IH.
Qed.

Lemma access_operator_unfold (object : agtype) (key : option agtype)
  (keys : list (option agtype)) :
  agtype_access_operator (Some object :: key :: keys)
  = (o <- access_root object ;; access_operator_loop o (key :: keys)).
Proof.
  unfold agtype_access_operator.
  replace (Z.of_nat (List.length (Some object :: key :: keys)) <? 2)
    with false; [reflexivity|].
  symmetry. apply Z.ltb_ge. cbn [List.length]. lia.
Qed.

Lemma access_root_container (o : agtype) :
  AGT_ROOT_IS_SCALAR o = false -> access_root o = Ok o.
Proof. intros H. unfold access_root. rewrite H. reflexivity. Qed.

(** X1.  A path of keys can be followed in two steps: when a non-empty
    first part of the path leads to a container, the whole path gives what
    the rest of the path gives from that container; when the first part
    gives SQL null or raises an error, so does the whole path, whatever
    the rest of the keys are. *)
Theorem access_path_in_two_steps (object : agtype)
  (keys1 keys2 : list (option agtype)) :
  keys1 <> [] -> keys2 <> [] ->
  (forall o,
      agtype_access_operator (Some object :: keys1) = Ok (Some o) ->
      AGT_ROOT_IS_SCALAR o = false ->
      agtype_access_operator (Some object :: keys1 ++ keys2)
      = agtype_access_operator (Some o :: keys2))
  /\ (agtype_access_operator (Some object :: keys1) = Ok None ->
      agtype_access_operator (Some object :: keys1 ++ keys2) = Ok None)
  /\ (forall e,
         agtype_access_operator (Some object :: keys1) = Error e ->
         agtype_access_operator (Some object :: keys1 ++ keys2) = Error e).
Proof.
  intros H1 H2.
  destruct keys1 as [|k1 keys1]; [contradiction|].
  destruct keys2 as [|k2 keys2]; [contradiction|].
  cbn [app].
  rewrite (access_operator_unfold object k1 (keys1 ++ k2 :: keys2)).
  rewrite (access_operator_unfold object k1 keys1).
  change (k1 :: keys1 ++ k2 :: keys2) with ((k1 :: keys1) ++ k2 :: keys2).
  destruct (access_root object) as [root|e0]; cbn [bind].
  - rewrite access_operator_loop_app.
    split; [|split].
    + intros o Ho Hs.
      rewrite Ho, access_operator_unfold, (access_root_container o Hs).
      reflexivity.
    + intros Ho. rewrite Ho. reflexivity.
    + intros e He. rewrite He. reflexivity.
  - split; [|split]; try discriminate. intros e He. exact He.
Qed.

Lemma access_path_in_two_steps_witness :
  agtype_access_operator
    (Some example_object :: [key_of "a"] ++ [index_of (-1)])
  = agtype_access_operator
      (Some (AGTV_ARRAY false
               [AGTV_INTEGER 10; AGTV_INTEGER 20; AGTV_INTEGER 30])
         :: [index_of (-1)]).
Proof.
  refine (proj1 (access_path_in_two_steps example_object [key_of "a"]
                   [index_of (-1)] _ _) _ _ _).
  - discriminate.
  - discriminate.
  - reflexivity.
  - reflexivity.
Defined.

(** A key that is missing ends the path with SQL null, before a later key of
    the wrong kind is looked at. *)
Example access_missing_key_stops :
  agtype_access_operator
    [Some example_object; key_of "zzz"; index_of 0; key_of "k"] = Ok None
  /\ agtype_access_operator
       [Some example_object; key_of "a"; key_of "k"]
     = Error ArrayIndexNotInteger.
Proof. split; reflexivity. Qed.

(** X2.  Access into a Vertex or an Edge is access into its properties: a
    path that starts at a Vertex whose third pair, or at an Edge whose
    fifth pair, holds the list or map [p] gives what the path gives from
    [p]. *)
Theorem access_vertex_is_access_properties
  (pairs : list (string * agtype_value)) (p : agtype_value)
  (key : option agtype) (keys : list (option agtype)) :
  IS_A_AGTYPE_SCALAR p = false ->
  AGT_ROOT_IS_SCALAR p = false ->
  (pair_value pairs 2 = Some p ->
   agtype_access_operator
     (Some (agtype_value_to_agtype (AGTV_VERTEX pairs)) :: key :: keys)
   = agtype_access_operator (Some p :: key :: keys))
  /\ (pair_value pairs 4 = Some p ->
      agtype_access_operator
        (Some (agtype_value_to_agtype (AGTV_EDGE pairs)) :: key :: keys)
      = agtype_access_operator (Some p :: key :: keys)).
Proof.
  intros Hp Hraw.
  pose proof (access_root_container p Hraw) as Hroot.
  assert (Hwrap : agtype_value_to_agtype p = p).
  { unfold agtype_value_to_agtype. rewrite Hp. reflexivity. }
  split; intros Hpair; rewrite !access_operator_unfold, Hroot;
    unfold access_root; cbn [agtype_value_to_agtype IS_A_AGTYPE_SCALAR
      AGT_ROOT_IS_SCALAR get_ith_agtype_value_from_container List.length
      Z.of_nat Pos.of_succ_nat Z.ltb Z.compare nth_error Z.to_nat];
    rewrite Hpair, Hwrap; reflexivity.
Qed.

Lemma access_vertex_is_access_properties_witness :
  agtype_access_operator
    (Some (agtype_value_to_agtype
             (AGTV_VERTEX (vertex_pairs 1 "v" example_object)))
       :: key_of "b" :: [key_of "c"])
  = agtype_access_operator
      (Some example_object :: key_of "b" :: [key_of "c"]).
Proof.
  refine (proj1 (access_vertex_is_access_properties
                   (vertex_pairs 1 "v" example_object) example_object
                   (key_of "b") [key_of "c"] _ _) _).
  - reflexivity.
  - reflexivity.
  - reflexivity.
Defined.

(** ** Slices with a bound left out, and elements of a slice *)

Lemma slice_bound_arg (b : option Z) (as_agtype_null : bool) :
  match bound_arg b as_agtype_null with
  | None => b = None
  | Some a =>
      get_ith_agtype_value_from_container a 0
      = Some (match b with Some i => AGTV_INTEGER i | None => AGTV_NULL end)
  end.
Proof. destruct b, as_agtype_null; reflexivity. Qed.

(** The slice of a list, for every way of giving or leaving out a bound. *)
Lemma slice_with_optional_bounds (elems : list agtype_value)
  (lo hi : option Z) (lnull hnull : bool) :
  Z.of_nat (List.length elems) <= UINT32_MAX ->
  bound_in_int64 lo -> bound_in_int64 hi ->
  lo <> None \/ hi <> None ->
  agtype_access_slice (Some (AGTV_ARRAY false elems))
    (bound_arg lo lnull) (bound_arg hi hnull)
  = Ok (Some (AGTV_ARRAY false
                (slice_of elems (lower_or_default lo)
                   (upper_or_default (Z.of_nat (List.length elems)) hi)))).
Proof.
  intros Hn Hlo Hhi Hsome.
  set (n := Z.of_nat (List.length elems)) in *.
  assert (Hn0 : 0 <= n <= UINT32_MAX) by (unfold n; lia).
  assert (Hlo' : in_int64 (lower_or_default lo)).
  { destruct lo; [exact Hlo|]. cbn. unfold in_int64, INT64_MIN, INT64_MAX. lia. }
  assert (Hhi' : in_int64 (upper_or_default n hi)).
  { destruct hi; [exact Hhi|]. cbn.
    unfold in_int64, INT64_MIN, INT64_MAX, UINT32_MAX in *. lia. }
  pose proof (clamp_steps n _ Hn0 Hlo') as Elo.
  pose proof (clamp_steps n _ Hn0 Hhi') as Ehi.
  cbv zeta in Elo, Ehi.
  pose proof (clamp_bound_range n (lower_or_default lo) (proj1 Hn0)) as Rlo.
  pose proof (clamp_bound_range n (upper_or_default n hi) (proj1 Hn0)) as Rhi.
  destruct (slice_loop_appends false elems Hn
              (Z.to_nat (clamp_bound n (upper_or_default n hi)
                         - clamp_bound n (lower_or_default lo)))
              (clamp_bound n (lower_or_default lo)) []
              (Some (AGTV_ARRAY false [])))
    as [r' Hr']; [lia | fold n; lia |].
  assert (Hend : forall lower_index upper_index,
             lower_index = clamp_bound n (lower_or_default lo) ->
             upper_index = clamp_bound n (upper_or_default n hi) ->
             (result0 <- push empty_in_state WAGT_BEGIN_ARRAY None ;;
              result1 <- for_range lower_index upper_index
                           (slice_body (AGTV_ARRAY false elems)) result0 ;;
              result2 <- push result1 WAGT_END_ARRAY None ;;
              match res result2 with
              | None => Error NullDereference
              | Some r => Ok (Some (agtype_value_to_agtype r))
              end)
             = Ok (Some (AGTV_ARRAY false
                           (slice_of elems (lower_or_default lo)
                              (upper_or_default n hi))))).
  { intros lower upper -> ->.
    unfold push at 1.
    cbn [parse_state empty_in_state push_agtype_value bind].
    unfold for_range. rewrite Hr'. cbn. reflexivity. }
  unfold agtype_access_slice.
  cbn [AGT_ROOT_IS_ARRAY AGT_ROOT_IS_SCALAR negb orb AGT_ROOT_COUNT].
  fold n.
  destruct lo as [l|], hi as [h|]; destruct lnull, hnull;
    try (exfalso; destruct Hsome as [H|H]; apply H; reflexivity);
    cbn [bound_arg agtype_value_to_agtype IS_A_AGTYPE_SCALAR
           get_ith_agtype_value_from_container List.length Z.of_nat
           Pos.of_succ_nat Z.ltb Z.compare nth_error Z.to_nat bind negb orb];
    (apply Hend; [exact Elo | exact Ehi]).
Qed.

(** X3.  A slice bound that is left out, as SQL NULL or as the agtype
    null, stands for the start of the list (lower bound) or its end (upper
    bound): the slice is the one taken with the bounds 0 and [n].  With
    both bounds left out the slice is refused. *)
Theorem slice_bound_defaults (elems : list agtype_value) (lo hi : option Z)
  (lnull hnull : bool) :
  Z.of_nat (List.length elems) <= UINT32_MAX ->
  bound_in_int64 lo -> bound_in_int64 hi ->
  (lo <> None \/ hi <> None ->
   agtype_access_slice (Some (AGTV_ARRAY false elems))
     (bound_arg lo lnull) (bound_arg hi hnull)
   = agtype_access_slice (Some (AGTV_ARRAY false elems))
       (bound_arg (Some (lower_or_default lo)) false)
       (bound_arg
          (Some (upper_or_default (Z.of_nat (List.length elems)) hi)) false))
  /\ agtype_access_slice (Some (AGTV_ARRAY false elems))
       (bound_arg None lnull) (bound_arg None hnull)
     = Error SliceBoundsRequired.
Proof.
  intros Hn Hlo Hhi. split.
  - intros Hsome.
    rewrite (slice_with_optional_bounds elems lo hi lnull hnull Hn Hlo Hhi
               Hsome).
    rewrite (slice_with_optional_bounds elems (Some (lower_or_default lo))
               (Some (upper_or_default (Z.of_nat (List.length elems)) hi))
               false false Hn).
    + reflexivity.
    + destruct lo; [exact Hlo|]. cbn.
      unfold in_int64, INT64_MIN, INT64_MAX. lia.
    + destruct hi; [exact Hhi|]. cbn.
      unfold in_int64, INT64_MIN, INT64_MAX, UINT32_MAX in *. lia.
    + left. discriminate.
  - destruct lnull, hnull; reflexivity.
Qed.

Lemma slice_bound_defaults_witness :
  agtype_access_slice (Some (AGTV_ARRAY false abcde))
    (bound_arg (Some (-2)) false) (bound_arg None true)
  = agtype_access_slice (Some (AGTV_ARRAY false abcde))
      (bound_arg (Some (-2)) false) (bound_arg (Some 5) false).
Proof.
  refine (proj1 (slice_bound_defaults abcde (Some (-2)) None false true
                   _ _ _) _).
  - vm_compute. discriminate.
  - vm_compute. split; discriminate.
  - exact I.
  - left. discriminate.
Defined.

(** What a slice refuses: a map, a scalar, a bound that is not an
    Integer. *)
Example slice_errors :
  agtype_access_slice (Some example_object) (index_of 0) (index_of 1)
  = Error SliceNotList
  /\ agtype_access_slice (Some (integer_to_agtype 1)) (index_of 0)
       (index_of 1) = Error SliceNotList
  /\ agtype_access_slice (Some (AGTV_ARRAY false abcde)) (key_of "a") None
     = Error SliceNotInteger
  /\ agtype_access_slice None None None = Ok None.
Proof. repeat split. Qed.

Lemma array_access_at (raw : bool) (elems : list agtype_value) (j : Z)
  (v : agtype_value) :
  Z.of_nat (List.length elems) <= UINT32_MAX ->
  0 <= j -> nth_error elems (Z.to_nat j) = Some v ->
  execute_array_access_operator (AGTV_ARRAY raw elems) (integer_to_agtype j)
  = Ok (Some (agtype_value_to_agtype v)).
Proof.
  intros Hn Hj Hv.
  assert (Hlt : j < Z.of_nat (List.length elems)).
  { assert (Z.to_nat j < List.length elems)%nat
      by (apply nth_error_Some; congruence). lia. }
  unfold execute_array_access_operator.
  change (integer_to_agtype j) with (AGTV_ARRAY true [AGTV_INTEGER j]).
  rewrite get_ith_raw_scalar. cbn [AGT_ROOT_COUNT].
  destruct (Z.ltb_spec j 0) as [H0|H0]; [lia|].
  destruct (Z.geb_spec j (Z.of_nat (List.length elems))) as [H1|H1]; [lia|].
  cbn [orb]. rewrite to_uint32_id by lia.
  destruct (get_ith_in_range raw elems j (conj Hj Hlt)) as [v' [Hv' ->]].
  destruct (Z.ltb_spec j 0) as [H3|H3]; [lia|]. congruence.
Qed.

(** X4.  The elements of a slice are the elements of the list from the
    clamped lower bound on: the slice has [max 0 (hi' - lo')] elements, and
    its element [k] is the element [lo' + k] of the list, where [lo'] and
    [hi'] are the bounds shifted and clamped. *)
Theorem slice_elements (elems : list agtype_value) (lo hi : Z) :
  Z.of_nat (List.length elems) <= UINT32_MAX ->
  in_int64 lo -> in_int64 hi ->
  let n := Z.of_nat (List.length elems) in
  exists s,
    agtype_access_slice (Some (AGTV_ARRAY false elems))
      (index_of lo) (index_of hi) = Ok (Some s)
    /\ AGT_ROOT_COUNT s = Z.max 0 (clamp_bound n hi - clamp_bound n lo)
    /\ forall k,
        0 <= k < AGT_ROOT_COUNT s ->
        execute_array_access_operator s (integer_to_agtype k)
        = execute_array_access_operator (AGTV_ARRAY false elems)
            (integer_to_agtype (clamp_bound n lo + k))
        /\ exists v,
            execute_array_access_operator s (integer_to_agtype k)
            = Ok (Some (agtype_value_to_agtype v)).
Proof.
  intros Hn Hlo Hhi n.
  exists (AGTV_ARRAY false (slice_of elems lo hi)).
  assert (Hsome : Some lo <> None \/ Some hi <> None) by (left; discriminate).
  split.
  { exact (slice_with_optional_bounds elems (Some lo) (Some hi) false false
             Hn Hlo Hhi Hsome). }
  assert (Hn0 : 0 <= n) by (unfold n; lia).
  pose proof (clamp_bound_range n lo Hn0) as Rlo.
  pose proof (clamp_bound_range n hi Hn0) as Rhi.
  assert (Hlen : Z.of_nat (List.length (slice_of elems lo hi))
                 = Z.max 0 (clamp_bound n hi - clamp_bound n lo)).
  { unfold slice_of, elements_between. fold n.
    rewrite length_firstn, length_skipn. unfold n in *. lia. }
  split; [exact Hlen|].
  cbn [AGT_ROOT_COUNT]. rewrite Hlen. intros k Hk.
  assert (Hnth : nth_error (slice_of elems lo hi) (Z.to_nat k)
                 = nth_error elems (Z.to_nat (clamp_bound n lo + k))).
  { unfold slice_of, elements_between. fold n.
    rewrite nth_error_firstn, nth_error_skipn.
    destruct (Nat.ltb_spec (Z.to_nat k)
                (Z.to_nat (clamp_bound n hi - clamp_bound n lo))); [|lia].
    f_equal. lia. }
  destruct (nth_error elems (Z.to_nat (clamp_bound n lo + k))) as [v|] eqn:Ev.
  - rewrite (array_access_at false _ k v); [|lia|lia|exact Hnth].
    rewrite (array_access_at false elems _ v Hn); [|lia|exact Ev].
    split; [reflexivity|]. exists v. reflexivity.
  - apply nth_error_None in Ev. unfold n in *. lia.
Qed.

Lemma slice_elements_witness :
  exists s,
    agtype_access_slice (Some (AGTV_ARRAY false abcde))
      (index_of 1) (index_of (-1)) = Ok (Some s)
    /\ AGT_ROOT_COUNT s = 3.
Proof.
  destruct (slice_elements abcde 1 (-1)) as [s (Hs & Hc & _)].
  - vm_compute. discriminate.
  - vm_compute. split; discriminate.
  - vm_compute. split; discriminate.
  - exists s. split; [exact Hs|exact Hc].
Defined.

(** ** Membership in a list that is put together from two *)

Section InOperatorLists.

Context {host : Host}.

Lemma in_operator_loop_app (agt_item : agtype) (agtv_item : agtype_value)
  (l1 l2 : list agtype_value) (result : bool) :
  in_operator_loop agt_item agtv_item (l1 ++ l2) result
  = in_operator_loop agt_item agtv_item l2
      (in_operator_loop agt_item agtv_item l1 result).
Proof.
  revert result. induction l1 as [|a l1 IH]; intros result.
  - reflexivity.
  - cbn [in_operator_loop app]. destruct result.
    + rewrite in_operator_loop_found. reflexivity.
    + apply IH.
Qed.

Lemma in_operator_loop_orb (agt_item : agtype) (agtv_item : agtype_value)
  (l1 l2 : list agtype_value) :
  in_operator_loop agt_item agtv_item (l1 ++ l2) false
  = in_operator_loop agt_item agtv_item l1 false
    || in_operator_loop agt_item agtv_item l2 false.
Proof.
  rewrite in_operator_loop_app.
  destruct (in_operator_loop agt_item agtv_item l1 false).
  - apply in_operator_loop_found.
  - reflexivity.
Qed.

(** X5.  IN over a list put together from two lists is the disjunction of
    IN over the two: when the item is found in neither or in one of them
    the answer on the whole list is the "or" of the two answers.  An item
    for which one list gives NULL gives NULL on every list, and nothing is
    found in the empty list. *)
Theorem in_operator_concat (l1 l2 : list agtype_value) (item : option agtype) :
  (forall b1 b2,
      agtype_in_operator (Some (AGTV_ARRAY false l1)) item
      = Ok (Some (boolean_to_agtype b1)) ->
      agtype_in_operator (Some (AGTV_ARRAY false l2)) item
      = Ok (Some (boolean_to_agtype b2)) ->
      agtype_in_operator (Some (AGTV_ARRAY false (l1 ++ l2))) item
      = Ok (Some (boolean_to_agtype (b1 || b2))))
  /\ (agtype_in_operator (Some (AGTV_ARRAY false l1)) item = Ok None ->
      agtype_in_operator (Some (AGTV_ARRAY false l2)) item = Ok None)
  /\ (agtype_in_operator (Some (AGTV_ARRAY false l1)) item <> Ok None ->
      agtype_in_operator (Some (AGTV_ARRAY false [])) item
      = Ok (Some (boolean_to_agtype false))).
Proof.
  unfold agtype_in_operator.
  cbn [AGT_ROOT_IS_ARRAY AGT_ROOT_IS_SCALAR negb agtype_iterator_children].
  destruct item as [agt_item|].
  2:{ repeat split; try discriminate; try reflexivity.
      intros H. exfalso. apply H. reflexivity. }
  set (agtv_item :=
         if AGT_ROOT_IS_SCALAR agt_item
         then match agtype_iterator_children agt_item with
              | [] => agt_item
              | e :: _ => e
              end
         else agt_item).
  assert (Hb : forall b b', Ok (Some (boolean_to_agtype b))
                            = Ok (Some (boolean_to_agtype b')) :> outcome _
                            -> b = b').
  { intros b b' H. unfold boolean_to_agtype in H.
    cbn [agtype_value_to_agtype IS_A_AGTYPE_SCALAR] in H. congruence. }
  destruct agtv_item eqn:E;
    try (split; [discriminate | split; [reflexivity | intros H; exfalso;
                                         apply H; reflexivity]]);
    (split; [intros b1 b2 H1 H2; apply Hb in H1; apply Hb in H2; subst;
             rewrite in_operator_loop_orb; reflexivity
            | split; [discriminate | reflexivity]]).
Qed.

End InOperatorLists.

Lemma in_operator_concat_witness :
  agtype_in_operator (host := RefHost.reference_host)
    (Some (AGTV_ARRAY false ([AGTV_INTEGER 1] ++ [AGTV_INTEGER 2])))
    (Some (integer_to_agtype 2))
  = Ok (Some (boolean_to_agtype (false || true))).
Proof.
  refine (proj1 (in_operator_concat (host := RefHost.reference_host)
                   [AGTV_INTEGER 1] [AGTV_INTEGER 2]
                   (Some (integer_to_agtype 2))) false true _ _);
    reflexivity.
Defined.

(** ** String matching *)

Lemma string_length_append (a b : string) :
  String.length (a +++ b) = (String.length a + String.length b)%nat.
Proof. induction a as [|c a IH]; cbn; [reflexivity | now rewrite IH]. Qed.

Lemma string_append_empty_r (a : string) : a +++ "" = a.
Proof. induction a as [|c a IH]; cbn; [reflexivity | now rewrite IH]. Qed.

Lemma string_append_assoc (a b c : string) :
  (a +++ b) +++ c = a +++ (b +++ c).
Proof. induction a as [|x a IH]; cbn; [reflexivity | now rewrite IH]. Qed.

Lemma string_append_only_left (a b : string) :
  String.length (a +++ b) = String.length a -> b = "".
Proof.
  rewrite string_length_append. intros H.
  destruct b; [reflexivity | cbn in H; lia].
Qed.

Lemma substring_whole (s : string) : substring 0 (String.length s) s = s.
Proof. induction s as [|c s IH]; cbn; [reflexivity | now rewrite IH]. Qed.

Lemma strncmp_eq_prefix (r : string) :
  no_nul r = true ->
  forall l,
    strncmp_eq l r (String.length r) = true <-> exists t, l = r +++ t.
Proof.
  induction r as [|d r IH]; intros Hr l.
  - cbn. split; [intros _; exists l; reflexivity | reflexivity].
  - cbn [no_nul] in Hr. apply andb_prop in Hr. destruct Hr as [Hd Hr].
    apply negb_true_iff in Hd.
    cbn [String.length strncmp_eq]. destruct l as [|c l].
    + rewrite Hd. split; [discriminate | intros [t Ht]; discriminate].
    + destruct (Ascii.eqb_spec c d) as [->|Hcd].
      * rewrite Hd, (IH Hr l). split; intros [t Ht]; exists t.
        -- cbn. now rewrite Ht.
        -- cbn in Ht. congruence.
      * split; [discriminate|]. intros [t Ht]. cbn in Ht. congruence.
Qed.

Lemma string_from_app (t r : string) :
  string_from (t +++ r) (String.length t) = r.
Proof.
  unfold string_from. induction t as [|c t IH].
  - cbn [String.append String.length]. rewrite Nat.sub_0_r.
    apply substring_whole.
  - cbn [String.append String.length substring Nat.sub]. exact IH.
Qed.

Lemma string_from_split (l : string) :
  forall k, (k <= String.length l)%nat ->
            exists t, l = t +++ string_from l k /\ String.length t = k.
Proof.
  unfold string_from. induction l as [|c l IH]; intros k Hk.
  - cbn in Hk. assert (k = 0%nat) by lia. subst. exists "". split; reflexivity.
  - destruct k as [|k].
    + exists "". split; [|reflexivity].
      cbn [String.append]. rewrite Nat.sub_0_r.
      symmetry. apply substring_whole.
    + cbn in Hk. destruct (IH k ltac:(lia)) as [t [Ht Hlen]].
      exists (String c t). split.
      * cbn [String.append String.length substring Nat.sub]. now rewrite <- Ht.
      * cbn. now rewrite Hlen.
Qed.

Lemma strncmp_eq_suffix (l r : string) :
  no_nul r = true ->
  (String.length r <= String.length l)%nat ->
  strncmp_eq (string_from l (String.length l - String.length r)) r
    (String.length r) = true
  <-> exists t, l = t +++ r.
Proof.
  intros Hr Hlen. rewrite (strncmp_eq_prefix r Hr). split.
  - intros [t' Ht'].
    destruct (string_from_split l (String.length l - String.length r)
                ltac:(lia)) as [t [Ht Hk]].
    exists t. rewrite Ht' in Ht.
    assert (Hl : String.length l
                 = (String.length t + String.length (r +++ t'))%nat)
      by (rewrite Ht at 1; apply string_length_append).
    assert (He : t' = "").
    { apply (string_append_only_left r). lia. }
    subst t'. rewrite string_append_empty_r in Ht. exact Ht.
  - intros [t ->]. exists "".
    rewrite string_length_append.
    replace (String.length t + String.length r - String.length r)%nat
      with (String.length t) by lia.
    rewrite string_from_app. symmetry. apply string_append_empty_r.
Qed.

Lemma prefix_append (r l : string) :
  String.prefix r l = true <-> exists t, l = r +++ t.
Proof.
  revert l. induction r as [|d r IH]; intros l.
  - split; [intros _; exists l; reflexivity | intros _; destruct l; reflexivity].
  - destruct l as [|c l]; cbn [String.prefix].
    + split; [discriminate | intros [t Ht]; discriminate].
    + destruct (ascii_dec d c) as [->|Hdc].
      * rewrite IH. split; intros [t Ht]; exists t.
        -- cbn. now rewrite Ht.
        -- cbn in Ht. congruence.
      * split; [discriminate|]. intros [t Ht]. cbn in Ht. congruence.
Qed.

Lemma strstr_found_occurs (l r : string) :
  strstr_found l r = true <-> exists a b, l = a +++ r +++ b.
Proof.
  induction l as [|c l IH]; cbn [strstr_found].
  - rewrite orb_false_r, prefix_append. split.
    + intros [t Ht]. exists "", t. exact Ht.
    + intros [a [b H]]. destruct a; [|discriminate]. exists b. exact H.
  - rewrite orb_true_iff, prefix_append, IH. split.
    + intros [[t Ht]|[a [b H]]].
      * exists "", t. exact Ht.
      * exists (String c a), b. cbn. now rewrite H.
    + intros [a [b H]]. destruct a as [|x a].
      * left. exists b. exact H.
      * right. exists a, b. cbn in H. congruence.
Qed.

Lemma c_string_no_nul (s : string) : no_nul s = true -> c_string s = s.
Proof.
  induction s as [|c s IH]; cbn; [reflexivity|].
  intros H. apply andb_prop in H. destruct H as [Hc Hs].
  apply negb_true_iff in Hc. rewrite Hc, (IH Hs). reflexivity.
Qed.

Lemma string_operands_strings (l r : string) :
  string_operands (string_scalar l) (string_scalar r) = Returned (l, r).
Proof. reflexivity. Qed.

(** X6.  STARTS WITH and ENDS WITH on two strings always answer, and the
    answer is true exactly when the right string is a prefix, respectively
    a suffix, of the left one; the right string holds no NUL byte, at which
    the comparison would stop. *)
Theorem string_match_prefix_suffix (l r : string) :
  no_nul r = true ->
  exists b1 b2,
    agtype_string_match_starts_with (string_scalar l) (string_scalar r)
    = Returned (boolean_to_agtype b1)
    /\ (b1 = true <-> exists t, l = r +++ t)
    /\ agtype_string_match_ends_with (string_scalar l) (string_scalar r)
       = Returned (boolean_to_agtype b2)
    /\ (b2 = true <-> exists t, l = t +++ r).
Proof.
  intros Hr.
  unfold agtype_string_match_starts_with, agtype_string_match_ends_with.
  rewrite string_operands_strings.
  destruct (Nat.ltb_spec (String.length l) (String.length r)) as [Hlt|Hge].
  - exists false, false. repeat split; try discriminate.
    + intros [t ->]. rewrite string_length_append in Hlt. lia.
    + intros [t ->]. rewrite string_length_append in Hlt. lia.
  - eexists _, _. split; [reflexivity|]. split.
    + apply strncmp_eq_prefix. exact Hr.
    + split; [reflexivity|]. apply strncmp_eq_suffix; assumption.
Qed.

Lemma string_match_prefix_suffix_witness :
  exists b1 b2,
    agtype_string_match_starts_with (string_scalar "agens graph")
      (string_scalar "graph") = Returned (boolean_to_agtype b1)
    /\ (b1 = true <-> exists t, "agens graph" = "graph" +++ t)
    /\ agtype_string_match_ends_with (string_scalar "agens graph")
         (string_scalar "graph") = Returned (boolean_to_agtype b2)
    /\ (b2 = true <-> exists t, "agens graph" = t +++ "graph").
Proof. apply (string_match_prefix_suffix "agens graph" "graph"). reflexivity.
Defined.

(** X7.  CONTAINS on two strings without a NUL byte always answers, and
    the answer is true exactly when the right string occurs in the left
    one. *)
Theorem string_match_contains_occurrence (l r : string) :
  no_nul l = true -> no_nul r = true ->
  exists b,
    agtype_string_match_contains (string_scalar l) (string_scalar r)
    = Returned (boolean_to_agtype b)
    /\ (b = true <-> exists t u, l = t +++ r +++ u).
Proof.
  intros Hl Hr. unfold agtype_string_match_contains.
  rewrite string_operands_strings, (c_string_no_nul l Hl),
    (c_string_no_nul r Hr).
  destruct (Nat.ltb_spec (String.length l) (String.length r)) as [Hlt|Hge].
  - exists false. split; [reflexivity|]. split; [discriminate|].
    intros [t [u ->]]. rewrite !string_length_append in Hlt. lia.
  - eexists. split; [reflexivity|]. apply strstr_found_occurs.
Qed.

Lemma string_match_contains_occurrence_witness :
  exists b,
    agtype_string_match_contains (string_scalar "agens graph")
      (string_scalar "s g") = Returned (boolean_to_agtype b)
    /\ (b = true <-> exists t u, "agens graph" = t +++ "s g" +++ u).
Proof.
  apply (string_match_contains_occurrence "agens graph" "s g"); reflexivity.
Defined.

(** A NUL byte ends the comparison: the strings "a", NUL, "b" and "a",
    NUL, "c" start with one another, and every string contains what follows
    a NUL. *)
Example string_match_stops_at_nul :
  agtype_string_match_starts_with
    (string_scalar (String "a" (String zero "b")))
    (string_scalar (String "a" (String zero "c")))
  = Returned (boolean_to_agtype true)
  /\ agtype_string_match_contains (string_scalar "ab")
       (string_scalar (String zero "z"))
     = Returned (boolean_to_agtype true).
Proof. split; reflexivity. Qed.

(** X8.  The three string operators refuse, with "agtype string values
    expected", every pair of operands that is not a pair of strings. *)
Theorem string_match_operands (lhs rhs : agtype) :
  root_ok lhs -> root_ok rhs ->
  (forall l r, ~ (lhs = string_scalar l /\ rhs = string_scalar r)) ->
  agtype_string_match_starts_with lhs rhs = Failed StringValuesExpected
  /\ agtype_string_match_ends_with lhs rhs = Failed StringValuesExpected
  /\ agtype_string_match_contains lhs rhs = Failed StringValuesExpected.
Proof.
  intros Hl Hr Hno.
  assert (Hops : string_operands lhs rhs = Failed StringValuesExpected).
  { assert (Hroot : forall a, root_ok a -> AGT_ROOT_IS_SCALAR a = true ->
                              exists v, a = AGTV_ARRAY true [v]).
    { intros a Ha Hs. specialize (Ha Hs).
      destruct a as [| | | | | | | |raw elems|]; try discriminate.
      cbn in Hs. subst raw. cbn in Ha.
      destruct elems as [|v [|w elems]]; cbn in Ha; try lia.
      exists v. reflexivity. }
    unfold string_operands.
    destruct (AGT_ROOT_IS_SCALAR lhs) eqn:El; [|reflexivity].
    destruct (AGT_ROOT_IS_SCALAR rhs) eqn:Er; [|reflexivity].
    destruct (Hroot lhs Hl El) as [v ->].
    destruct (Hroot rhs Hr Er) as [w ->].
    cbn. destruct v; try reflexivity. destruct w; try reflexivity.
    exfalso. eapply Hno. split; reflexivity. }
  unfold agtype_string_match_starts_with, agtype_string_match_ends_with,
    agtype_string_match_contains.
  rewrite Hops. repeat split.
Qed.

Lemma string_match_operands_witness :
  agtype_string_match_starts_with (string_scalar "12") (integer_to_agtype 1)
  = Failed StringValuesExpected.
Proof.
  refine (proj1 (string_match_operands (string_scalar "12")
                   (integer_to_agtype 1) _ _ _)).
  - intros _. reflexivity.
  - intros _. reflexivity.
  - intros l r [_ H]. discriminate H.
Defined.

(** ** Casts *)

Lemma scalar_root_shape (a : agtype) :
  root_ok a -> AGT_ROOT_IS_SCALAR a = true ->
  exists v, a = AGTV_ARRAY true [v].
Proof.
  intros Ha Hs. specialize (Ha Hs).
  destruct a as [| | | | | | | |raw elems|]; try discriminate.
  cbn in Hs. subst raw. cbn in Ha.
  destruct elems as [|v [|w elems]]; cbn in Ha; try lia.
  exists v. reflexivity.
Qed.

(** X9.  The cast to boolean undoes the cast from boolean, and it returns
    a boolean for no other agtype: a value that is not the Bool scalar is
    refused. *)
Theorem agtype_to_bool_inverts_bool_to_agtype (a : agtype) (b : bool) :
  root_ok a ->
  agtype_to_bool (bool_to_agtype b) = Returned b
  /\ (agtype_to_bool a = Returned b <-> a = bool_to_agtype b).
Proof.
  intros Ha. split; [reflexivity|]. split.
  - unfold agtype_to_bool, agtype_extract_scalar.
    destruct (AGT_ROOT_IS_SCALAR a) eqn:Es.
    + destruct (scalar_root_shape a Ha Es) as [v ->].
      cbn. destruct v; cbn; try discriminate. congruence.
    + destruct a as [| | | | | | | |raw elems|]; cbn in *; discriminate.
  - intros ->. reflexivity.
Qed.

Lemma agtype_to_bool_inverts_bool_to_agtype_witness :
  agtype_to_bool (bool_to_agtype true) = Returned true
  /\ (agtype_to_bool (integer_to_agtype 1) = Returned true
      <-> integer_to_agtype 1 = bool_to_agtype true).
Proof.
  apply (agtype_to_bool_inverts_bool_to_agtype (integer_to_agtype 1) true).
  intros _. reflexivity.
Defined.

(** What the cast to boolean reports: the type of the value it was given;
    for a Vertex and an Edge the table of messages has no entry. *)
Example agtype_to_bool_errors :
  agtype_to_bool (integer_to_agtype 1) = Failed (CannotCast T_INTEGER "boolean")
  /\ agtype_to_bool (AGTV_ARRAY false [AGTV_BOOL true])
     = Failed (CannotCast T_ARRAY "boolean")
  /\ agtype_to_bool example_object = Failed (CannotCast T_OBJECT "boolean")
  /\ agtype_to_bool (agtype_value_to_agtype (AGTV_VERTEX []))
     = Failed UnknownAgtypeType.
Proof. repeat split. Qed.

Section TypecastNumeric.

Variable int8_numeric : Z -> numeric.
Variable float8_numeric : float8 -> outcome numeric.

(** X10.  The cast to numeric yields a Numeric scalar, on which the cast
    changes nothing more; it yields SQL NULL exactly for SQL NULL and for
    the agtype null. *)
Theorem typecast_numeric_idempotent (arg : option agtype) :
  match arg with Some a => root_ok a | None => True end ->
  (forall r,
      agtype_typecast_numeric int8_numeric float8_numeric arg
      = Returned (Some r) ->
      (exists n, r = agtype_value_to_agtype (AGTV_NUMERIC n))
      /\ agtype_typecast_numeric int8_numeric float8_numeric (Some r)
         = Returned (Some r))
  /\ (agtype_typecast_numeric int8_numeric float8_numeric arg = Returned None
      <-> arg = None \/ arg = Some (agtype_value_to_agtype AGTV_NULL)).
Proof.
  intros Hok. destruct arg as [a|].
  2:{ split; [discriminate|]. split; [left|]; reflexivity. }
  unfold agtype_typecast_numeric at 1 3.
  destruct (AGT_ROOT_IS_SCALAR a) eqn:Es; cbn [negb].
  - destruct (scalar_root_shape a Hok Es) as [v ->].
    cbn [get_ith_agtype_value_from_container List.length Z.of_nat
           Pos.of_succ_nat Z.ltb Z.compare Pos.compare Pos.compare_cont
           Z.to_nat nth_error].
    destruct v as [|s|n|i|f|b|ps|ps|raw els|ps];
      try (destruct (float8_numeric f) as [n|e]);
      first
        [ solve [split; [discriminate
                        | split; [discriminate
                                 | intros [H|H]; discriminate]]]
        | solve [split; [discriminate | split; [right|]; reflexivity]]
        | split; [|split; [discriminate | intros [H|H]; discriminate]];
          intros r H; inversion H; split; [eexists|]; reflexivity ].
  - split; [discriminate|]. split; [discriminate|].
    intros [H|H]; [discriminate|]. inversion H. subst a. discriminate.
Qed.

End TypecastNumeric.

Lemma typecast_numeric_idempotent_witness :
  agtype_typecast_numeric (fun i => NumericVal i 0) (fun _ => Ok NumericNaN)
    (Some (agtype_value_to_agtype (AGTV_NUMERIC (NumericVal 7 0))))
  = Returned (Some (agtype_value_to_agtype (AGTV_NUMERIC (NumericVal 7 0)))).
Proof.
  refine (proj2 (proj1 (typecast_numeric_idempotent (fun i => NumericVal i 0)
                          (fun _ => Ok NumericNaN)
                          (Some (integer_to_agtype 7)) _) _ _)).
  - intros _. reflexivity.
  - reflexivity.
Defined.

(** What the cast to numeric refuses. *)
Example typecast_numeric_errors :
  agtype_typecast_numeric (fun i => NumericVal i 0) (fun _ => Ok NumericNaN)
    (Some (string_scalar "1")) = Failed TypecastNotNumber
  /\ agtype_typecast_numeric (fun i => NumericVal i 0)
       (fun _ => Ok NumericNaN) (Some (AGTV_ARRAY false [AGTV_INTEGER 1]))
     = Failed TypecastNotScalar.
Proof. split; reflexivity. Qed.

(** ** Escaped strings *)

Lemma all_ascii_complete (c : ascii) : In c all_ascii.
Proof.
  unfold all_ascii. rewrite <- (ascii_nat_embedding c).
  apply in_map, in_seq. pose proof (nat_ascii_bounded c). lia.
Qed.

Lemma all_chars_append (p : ascii -> bool) (a b : string) :
  all_chars p (a +++ b) = all_chars p a && all_chars p b.
Proof.
  induction a as [|c a IH]; cbn; [reflexivity|].
  now rewrite IH, andb_assoc.
Qed.

Lemma escape_char_no_control (c : ascii) :
  all_chars (fun x => negb (is_control x)) (escape_char c) = true.
Proof.
  assert (H : forallb (fun c => all_chars (fun x => negb (is_control x))
                                  (escape_char c)) all_ascii = true)
    by (vm_compute; reflexivity).
  rewrite forallb_forall in H. apply H, all_ascii_complete.
Qed.

Lemma escape_prefix_free_holds : escape_prefix_free = true.
Proof. vm_compute. reflexivity. Qed.

Lemma escape_char_not_empty (c : ascii) : escape_char c <> "".
Proof.
  pose proof escape_prefix_free_holds as H. unfold escape_prefix_free in H.
  rewrite forallb_forall in H. specialize (H c (all_ascii_complete c)).
  apply andb_prop in H. destruct H as [H _].
  apply negb_true_iff in H. apply String.eqb_neq in H. exact H.
Qed.

Lemma escape_char_prefix (c d : ascii) :
  String.prefix (escape_char c) (escape_char d) = true -> c = d.
Proof.
  intros Hp.
  pose proof escape_prefix_free_holds as H. unfold escape_prefix_free in H.
  rewrite forallb_forall in H. specialize (H c (all_ascii_complete c)).
  apply andb_prop in H. destruct H as [_ H].
  rewrite forallb_forall in H. specialize (H d (all_ascii_complete d)).
  rewrite Hp in H. cbn in H. rewrite orb_false_r in H.
  apply Ascii.eqb_eq. exact H.
Qed.

Lemma common_start (a b x y : string) :
  a +++ x = b +++ y -> String.prefix a b = true \/ String.prefix b a = true.
Proof.
  revert b. induction a as [|c a IH]; intros b H.
  - left. destruct b; reflexivity.
  - destruct b as [|d b]; [right; reflexivity|].
    cbn in H. injection H as -> H. cbn [String.prefix].
    destruct (ascii_dec d d) as [_|Hn]; [|contradiction].
    exact (IH b H).
Qed.

Lemma append_cancel_l (a x y : string) : a +++ x = a +++ y -> x = y.
Proof.
  induction a as [|c a IH]; cbn; intros H; [exact H|].
  injection H as H. exact (IH H).
Qed.

Lemma append_cancel_r (x y q : string) : x +++ q = y +++ q -> x = y.
Proof.
  revert y. induction x as [|c x IH]; intros y H.
  - destruct y as [|d y]; [reflexivity|].
    apply (f_equal String.length) in H.
    cbn in H. rewrite string_length_append in H. lia.
  - destruct y as [|d y].
    + apply (f_equal String.length) in H.
      cbn in H. rewrite string_length_append in H. lia.
    + cbn in H. injection H as -> H. f_equal. exact (IH y H).
Qed.

Lemma escape_chars_injective (s : string) :
  forall t, no_nul s = true -> no_nul t = true ->
            escape_chars s = escape_chars t -> s = t.
Proof.
  induction s as [|c s IH]; intros t Hs Ht H.
  - destruct t as [|d t]; [reflexivity|].
    cbn [no_nul] in Ht. apply andb_prop in Ht. destruct Ht as [Hd Ht].
    apply negb_true_iff in Hd. cbn [escape_chars] in H. rewrite Hd in H.
    exfalso. apply (escape_char_not_empty d).
    destruct (escape_char d); [reflexivity | discriminate H].
  - cbn [no_nul] in Hs. apply andb_prop in Hs. destruct Hs as [Hc Hs].
    apply negb_true_iff in Hc. cbn [escape_chars] in H. rewrite Hc in H.
    destruct t as [|d t].
    + exfalso. apply (escape_char_not_empty c).
      destruct (escape_char c); [reflexivity | discriminate H].
    + cbn [no_nul] in Ht. apply andb_prop in Ht. destruct Ht as [Hd Ht].
      apply negb_true_iff in Hd. cbn [escape_chars] in H. rewrite Hd in H.
      assert (Hcd : c = d).
      { destruct (common_start _ _ _ _ H) as [Hp|Hp].
        - exact (escape_char_prefix c d Hp).
        - symmetry. exact (escape_char_prefix d c Hp). }
      subst d. apply append_cancel_l in H. f_equal. exact (IH t Hs Ht H).
Qed.

Lemma escape_chars_c_string (s : string) :
  escape_chars (c_string s) = escape_chars s.
Proof.
  induction s as [|c s IH]; [reflexivity|].
  cbn [c_string escape_chars]. destruct (is_nul c) eqn:Ec; [reflexivity|].
  cbn [escape_chars]. rewrite Ec, IH. reflexivity.
Qed.

Lemma c_string_has_no_nul (s : string) : no_nul (c_string s) = true.
Proof.
  induction s as [|c s IH]; [reflexivity|].
  cbn [c_string]. destruct (is_nul c) eqn:Ec; [reflexivity|].
  cbn [no_nul]. rewrite Ec, IH. reflexivity.
Qed.

Lemma escape_chars_no_control (s : string) :
  all_chars (fun x => negb (is_control x)) (escape_chars s) = true.
Proof.
  induction s as [|c s IH]; [reflexivity|].
  cbn [escape_chars]. destruct (is_nul c); [reflexivity|].
  rewrite all_chars_append, escape_char_no_control, IH. reflexivity.
Qed.

(** X11.  Escaping loses nothing of a string up to its first NUL, where
    the loop of escape_agtype ends, and leaves no control byte: two strings
    have the same quoted text in the same buffer exactly when they agree up
    to their first NUL, so two strings without a NUL with the same quoted
    text are the same string; what is put between the quotes holds no byte
    below 32. *)
Theorem escape_agtype_lossless (buf s t : string) :
  (escape_agtype buf s = escape_agtype buf t <-> c_string s = c_string t)
  /\ (no_nul s = true -> no_nul t = true ->
      escape_agtype buf s = escape_agtype buf t -> s = t)
  /\ all_chars (fun x => negb (is_control x)) (escape_chars s) = true.
Proof.
  assert (Hiff : escape_agtype buf s = escape_agtype buf t
                 <-> c_string s = c_string t).
  { unfold escape_agtype. split.
    - intros H.
      apply append_cancel_l, append_cancel_l, append_cancel_r in H.
      rewrite <- (escape_chars_c_string s), <- (escape_chars_c_string t) in H.
      exact (escape_chars_injective _ _ (c_string_has_no_nul s)
               (c_string_has_no_nul t) H).
    - intros H.
      rewrite <- (escape_chars_c_string s), <- (escape_chars_c_string t), H.
      reflexivity. }
  split; [exact Hiff|]. split.
  - intros Hs Ht H. apply Hiff in H.
    rewrite (c_string_no_nul s Hs), (c_string_no_nul t Ht) in H. exact H.
  - apply escape_chars_no_control.
Qed.

Lemma escape_agtype_lossless_witness :
  escape_agtype "out: " (String "a" (String zero "b"))
  = escape_agtype "out: " (String "a" (String zero "c"))
  /\ (escape_agtype "out: " (String "a" (String (ascii_of_N 9) "b"))
      = escape_agtype "out: " (String "a" (String (ascii_of_N 9) "c")) ->
      String "a" (String (ascii_of_N 9) "b")
      = String "a" (String (ascii_of_N 9) "c")).
Proof.
  split.
  - apply (proj2 (proj1 (escape_agtype_lossless "out: "
                           (String "a" (String zero "b"))
                           (String "a" (String zero "c"))))).
    reflexivity.
  - apply (proj1 (proj2 (escape_agtype_lossless "out: "
                           (String "a" (String (ascii_of_N 9) "b"))
                           (String "a" (String (ascii_of_N 9) "c")))));
      reflexivity.
Defined.

(** ** The text of a value *)

Lemma items_text_rest (items : list string) :
  items_text false items
  = match items with
    | [] => ""
    | _ :: _ => ", " +++ String.concat ", " items
    end.
Proof.
  induction items as [|x items IH]; [reflexivity|].
  cbn [items_text]. rewrite IH. destruct items as [|y items].
  - cbn [String.concat]. now rewrite append_nil_r.
  - reflexivity.
Qed.

Lemma items_text_concat (items : list string) :
  items_text true items = String.concat ", " items.
Proof.
  destruct items as [|x items]; [reflexivity|].
  cbn [items_text]. rewrite items_text_rest.
  destruct items; cbn; [now rewrite append_nil_r | reflexivity].
Qed.

Lemma container_tokens_begin (v : agtype_value) :
  IS_A_AGTYPE_SCALAR v = false ->
  exists x tl,
    agtype_iterator_tokens v = (WAGT_BEGIN_ARRAY, x) :: tl
    \/ agtype_iterator_tokens v = (WAGT_BEGIN_OBJECT, x) :: tl.
Proof.
  destruct v; try discriminate; intros _; cbn [agtype_iterator_tokens];
    eexists _, _; [left | right]; reflexivity.
Qed.

Section TextFormat.

Context {host : Host}.

Lemma escape_chars_every_byte (s : string) :
  escape_chars s = escape_every_byte (c_string s).
Proof.
  induction s as [|c s IH]; [reflexivity|].
  cbn [escape_chars c_string]. destruct (is_nul c); [reflexivity|].
  cbn [escape_every_byte]. rewrite IH. reflexivity.
Qed.

Lemma put_string (d : nat) (out k : string) :
  agtype_put_escaped_value d out (AGTV_STRING k)
  = Ok (out +++ string_text k).
Proof.
  assert (H : agtype_put_escaped_value d out (AGTV_STRING k)
              = Ok (escape_agtype out k)) by (destruct d; reflexivity).
  rewrite H. unfold escape_agtype, string_text.
  rewrite escape_chars_every_byte. reflexivity.
Qed.

(** The loop over the elements of a list. *)
Lemma elements_loop (d : nat) (elems : list agtype_value) :
  Forall prints_as_text elems ->
  Forall (fun e => (vertex_depth e <= d)%nat) elems ->
  forallb plain elems = true ->
  forall f l,
  exists w',
    use_indent w' = false /\ w_raw_scalar w' = false /\ level w' = l
    /\ forall rest out,
        worker_loop (agtype_put_escaped_value d) false
          (flat_map
             (fun e =>
                if IS_A_AGTYPE_SCALAR e then [(WAGT_ELEM, e)]
                else agtype_iterator_tokens e) elems ++ rest)
          (mk_worker f l false false false) out
        = worker_loop (agtype_put_escaped_value d) false rest w'
            (out +++ items_text f (map value_text elems)).
Proof.
  induction elems as [|e elems IH]; intros HP Hd Hpl f l.
  - exists (mk_worker f l false false false).
    repeat split. intros rest out. cbn. now rewrite append_nil_r.
  - inversion HP as [|? ? HPe HPs]; subst.
    inversion Hd as [|? ? Hde Hds]; subst.
    cbn [forallb] in Hpl. apply andb_prop in Hpl. destruct Hpl as [Hpe Hps].
    destruct (IH HPs Hds Hps false l) as [w' (Hu & Hr & Hl & Hloop)].
    exists w'. repeat split; try assumption.
    intros rest out. cbn [flat_map map items_text].
    rewrite <- app_assoc.
    destruct (HPe d Hde Hpe) as [Hscalar Hcont].
    destruct (IS_A_AGTYPE_SCALAR e) eqn:Es.
    + cbn [app worker_loop w_raw_scalar negb use_indent level first].
      unfold sep, add_indent. cbn [first].
      rewrite (Hscalar eq_refl). cbn [bind].
      rewrite Hloop. f_equal.
      destruct f; rewrite ?append_assoc; reflexivity.
    + rewrite (Hcont eq_refl (mk_worker f l false false false) _ _
                 eq_refl eq_refl).
      unfold after_value. cbn [level first].
      rewrite Hloop. f_equal. rewrite ?append_assoc. reflexivity.
Qed.

(** The loop over the pairs of a map. *)
Lemma pairs_loop (d : nat) (pairs : list (string * agtype_value)) :
  Forall (fun kv => prints_as_text (snd kv)) pairs ->
  Forall (fun kv => (vertex_depth (snd kv) <= d)%nat) pairs ->
  forallb (fun '(_, x) => plain x) pairs = true ->
  forall f l,
  exists w',
    use_indent w' = false /\ w_raw_scalar w' = false /\ level w' = l
    /\ forall rest out,
        worker_loop (agtype_put_escaped_value d) false
          (flat_map
             (fun '(k, v) =>
                (WAGT_KEY, AGTV_STRING k)
                  :: (if IS_A_AGTYPE_SCALAR v then [(WAGT_VALUE, v)]
                      else agtype_iterator_tokens v)) pairs ++ rest)
          (mk_worker f l false false false) out
        = worker_loop (agtype_put_escaped_value d) false rest w'
            (out +++ items_text f (map pair_text pairs)).
Proof.
  induction pairs as [|[k v] pairs IH]; intros HP Hd Hpl f l.
  - exists (mk_worker f l false false false).
    repeat split. intros rest out. cbn. now rewrite append_nil_r.
  - inversion HP as [|? ? HPe HPs]; subst.
    inversion Hd as [|? ? Hde Hds]; subst.
    cbn [forallb] in Hpl. apply andb_prop in Hpl. destruct Hpl as [Hpe Hps].
    cbn [snd] in HPe, Hde.
    destruct (IH HPs Hds Hps false l) as [w' (Hu & Hr & Hl & Hloop)].
    exists w'. repeat split; try assumption.
    intros rest out. cbn [flat_map map items_text pair_text].
    rewrite <- app_assoc.
    destruct (HPe d Hde Hpe) as [Hscalar Hcont].
    destruct (IS_A_AGTYPE_SCALAR v) eqn:Es.
    + cbn [app worker_loop w_raw_scalar negb use_indent level first].
      unfold sep, add_indent. cbn [first].
      rewrite put_string. cbn [bind].
      rewrite (Hscalar eq_refl). cbn [bind].
      rewrite Hloop. f_equal.
      destruct f; rewrite ?append_assoc; reflexivity.
    + destruct (container_tokens_begin v Es) as [x [tl Htok]].
      assert (Hkey :
                worker_loop (agtype_put_escaped_value d) false
                  (((WAGT_KEY, AGTV_STRING k) :: agtype_iterator_tokens v)
                     ++ flat_map
                          (fun '(k, v) =>
                             (WAGT_KEY, AGTV_STRING k)
                               :: (if IS_A_AGTYPE_SCALAR v
                                   then [(WAGT_VALUE, v)]
                                   else agtype_iterator_tokens v)) pairs
                     ++ rest)
                  (mk_worker f l false false false) out
                = worker_loop (agtype_put_escaped_value d) false
                    (agtype_iterator_tokens v
                       ++ flat_map
                            (fun '(k, v) =>
                               (WAGT_KEY, AGTV_STRING k)
                                 :: (if IS_A_AGTYPE_SCALAR v
                                     then [(WAGT_VALUE, v)]
                                     else agtype_iterator_tokens v)) pairs
                       ++ rest)
                    (mk_worker true l false false true)
                    ((if f then out else out +++ ", ")
                       +++ string_text k +++ ": ")).
      { destruct Htok as [Htok|Htok]; rewrite Htok;
          cbn [app worker_loop w_raw_scalar negb use_indent level first];
          unfold sep, add_indent; cbn [first];
          rewrite put_string; cbn [bind];
          rewrite ?append_assoc; reflexivity. }
      rewrite Hkey.
      rewrite (Hcont eq_refl (mk_worker true l false false true) _ _
                 eq_refl eq_refl).
      unfold after_value. cbn [level first].
      rewrite Hloop. f_equal.
      destruct f; rewrite ?append_assoc; reflexivity.
Qed.

Lemma object_tokens_loop (d : nat) (pairs : list (string * agtype_value)) :
  Forall (fun kv => prints_as_text (snd kv)) pairs ->
  Forall (fun kv => (vertex_depth (snd kv) <= d)%nat) pairs ->
  forallb (fun '(_, x) => plain x) pairs = true ->
  forall w rest out,
    use_indent w = false -> w_raw_scalar w = false ->
    worker_loop (agtype_put_escaped_value d) false
      (agtype_iterator_tokens (AGTV_OBJECT pairs) ++ rest) w out
    = worker_loop (agtype_put_escaped_value d) false rest (after_value w)
        (out +++ (if first w then "" else ", ")
             +++ value_text (AGTV_OBJECT pairs)).
Proof.
  intros HP Hd Hpl [f l u r k] rest out Hu Hr. cbn in Hu, Hr. subst u r.
  cbn [agtype_iterator_tokens app worker_loop w_raw_scalar negb use_indent
         level first andb].
  unfold sep, add_indent. cbn [first].
  destruct (pairs_loop d pairs HP Hd Hpl true (l + 1))
    as [w' (Hu & Hr & Hl & Hloop)].
  rewrite <- app_assoc, Hloop.
  destruct w' as [f' l' u' r' k']. cbn in Hu, Hr, Hl. subst u' r' l'.
  cbn [app worker_loop w_raw_scalar negb use_indent level first].
  unfold add_indent, after_value. cbn [level]. rewrite Z.add_simpl_r.
  f_equal. rewrite items_text_concat. cbn [value_text].
  change (fun '(k0, x) => string_text k0 +++ ": " +++ value_text x)
    with pair_text.
  destruct f; rewrite ?append_assoc; reflexivity.
Qed.

Lemma list_max_map_le {A : Type} (g : A -> nat) (l : list A) (d : nat) :
  (list_max (map g l) <= d)%nat -> Forall (fun a => (g a <= d)%nat) l.
Proof.
  intros H. apply list_max_le in H. rewrite Forall_map in H. exact H.
Qed.

Lemma every_value_prints_as_text (v : agtype_value) : prints_as_text v.
Proof.
  induction v as [| | | |f| |pairs IH|pairs IH|raw elems IH|pairs IH]
    using agtype_value_tree_ind; intros d Hd Hpl;
    (split; [intros Hs | intros Hs]); try discriminate Hs;
    try (intros out; destruct d; reflexivity).
  - (* String *)
    intros out. apply put_string.
  - (* Float *)
    intros out.
    assert (H : agtype_put_escaped_value d out (AGTV_FLOAT f)
                = Ok (if is_decimal_needed (float8out f)
                      then (out +++ float8out f) +++ ".0"
                      else out +++ float8out f))
      by (destruct d; reflexivity).
    rewrite H. cbn [value_text].
    destruct (is_decimal_needed (float8out f));
      rewrite ?append_assoc; reflexivity.
  - (* Vertex *)
    intros out. cbn [vertex_depth] in Hd.
    destruct d as [|d]; [lia|]. rewrite put_vertex_eq.
    unfold agtype_to_cstring_worker.
    rewrite <- (app_nil_r (agtype_iterator_tokens (AGTV_OBJECT pairs))).
    rewrite (object_tokens_loop d pairs); try reflexivity.
    + cbn [worker_loop bind worker_init first value_text].
      rewrite ?append_assoc. reflexivity.
    + eapply Forall_impl; [|exact IH]. intros [k x] H. exact H.
    + assert (H : Forall (fun kv : string * agtype_value =>
                            (vertex_depth (snd kv) <= d)%nat) pairs).
      { apply (list_max_map_le (fun kv => vertex_depth (snd kv))).
        erewrite map_ext; [apply le_S_n, Hd|]. intros [k x]. reflexivity. }
      exact H.
    + exact Hpl.
  - (* Edge *)
    intros out. cbn [vertex_depth] in Hd.
    destruct d as [|d]; [lia|]. rewrite put_edge_eq.
    unfold agtype_to_cstring_worker.
    rewrite <- (app_nil_r (agtype_iterator_tokens (AGTV_OBJECT pairs))).
    rewrite (object_tokens_loop d pairs); try reflexivity.
    + cbn [worker_loop bind worker_init first value_text].
      rewrite ?append_assoc. reflexivity.
    + eapply Forall_impl; [|exact IH]. intros [k x] H. exact H.
    + assert (H : Forall (fun kv : string * agtype_value =>
                            (vertex_depth (snd kv) <= d)%nat) pairs).
      { apply (list_max_map_le (fun kv => vertex_depth (snd kv))).
        erewrite map_ext; [apply le_S_n, Hd|]. intros [k x]. reflexivity. }
      exact H.
    + exact Hpl.
  - (* Array *)
    intros [f l u r k] rest out Hu Hr. cbn in Hu, Hr. subst u r.
    cbn [plain] in Hpl. apply andb_prop in Hpl. destruct Hpl as [Hraw Hpl].
    apply negb_true_iff in Hraw. subst raw.
    cbn [vertex_depth] in Hd. apply list_max_map_le in Hd.
    cbn [agtype_iterator_tokens app worker_loop w_raw_scalar negb use_indent
           level first andb].
    unfold sep, add_indent. cbn [first].
    destruct (elements_loop d elems IH Hd Hpl true (l + 1))
      as [w' (Hu & Hr & Hl & Hloop)].
    rewrite <- app_assoc, Hloop.
    destruct w' as [f' l' u' r' k']. cbn in Hu, Hr, Hl. subst u' r' l'.
    cbn [app worker_loop w_raw_scalar negb use_indent level first].
    unfold add_indent, after_value. cbn [level]. rewrite Z.add_simpl_r.
    f_equal. rewrite items_text_concat. cbn [value_text].
    destruct f; rewrite ?append_assoc; reflexivity.
  - (* Object *)
    intros w rest out Hu Hr. cbn [plain] in Hpl. cbn [vertex_depth] in Hd.
    apply (object_tokens_loop d pairs); try assumption.
    apply (list_max_map_le (fun kv => vertex_depth (snd kv))).
    erewrite map_ext; [exact Hd|]. intros [k x]. reflexivity.
Qed.

(** X12.  The text of a value: a value without an inner raw-scalar array
    is written as its scalars' texts, the elements of a list between
    brackets and the pairs of a map between braces, as key, colon, space
    and value, with a comma and a space between neighbours; a Vertex and an
    Edge as their map followed by their tag.  A String, as a value or as a
    key, is written between quotes as its bytes before the first NUL, each
    one escaped.  A scalar at top level is written without its wrapper. *)
Theorem text_of_plain_value (v : agtype_value) :
  plain v = true ->
  agtype_out (agtype_value_to_agtype v) = Ok (value_text v).
Proof.
  intros Hpl. unfold agtype_out, agtype_to_cstring, agtype_to_cstring_worker.
  unfold agtype_value_to_agtype.
  destruct (every_value_prints_as_text v (vertex_depth v) (le_n _) Hpl)
    as [Hscalar Hcont].
  destruct (IS_A_AGTYPE_SCALAR v) eqn:Es.
  - cbn [agtype_iterator_tokens flat_map app].
    rewrite Es.
    cbn [app worker_loop worker_init w_raw_scalar negb use_indent level first
           andb].
    unfold sep. cbn [first].
    assert (Hdepth : vertex_depth (AGTV_ARRAY true [v]) = vertex_depth v).
    { cbn [vertex_depth map]. unfold list_max. cbn [fold_right]. lia. }
    rewrite Hdepth, (Hscalar eq_refl). reflexivity.
  - rewrite <- (app_nil_r (agtype_iterator_tokens v)).
    rewrite (Hcont eq_refl worker_init [] "" eq_refl eq_refl).
    reflexivity.
Qed.

End TextFormat.

Lemma text_of_plain_value_witness :
  agtype_out (host := RefHost.reference_host)
    (agtype_value_to_agtype example_object)
  = Ok (value_text (host := RefHost.reference_host) example_object).
Proof.
  apply (text_of_plain_value (host := RefHost.reference_host) example_object).
  reflexivity.
Defined.

(** A String holding a NUL is written up to the NUL. *)
Example text_stops_at_nul :
  agtype_out (host := RefHost.reference_host)
    (string_scalar (String "a" (String zero "b")))
  = Ok (String.append dquote (String.append "a" dquote)).
Proof. reflexivity. Qed.

(** ** Agtype values as arguments of the builders *)

Lemma copy_elements (elems : list agtype_value) :
  Forall copied_by_tokens elems ->
  forallb no_raw elems = true ->
  forall acc frames r,
  exists r',
    forall toks,
      push_tokens
        (flat_map
           (fun e =>
              if IS_A_AGTYPE_SCALAR e then [(WAGT_ELEM, e)]
              else agtype_iterator_tokens e) elems ++ toks)
        (mk_in_state (ArrayFrame false acc :: frames) r)
      = push_tokens toks
          (mk_in_state (ArrayFrame false (acc ++ elems) :: frames) r').
Proof.
  induction elems as [|e elems IH]; intros HP Hok acc frames r.
  - exists r. intros toks. cbn [flat_map app]. now rewrite app_nil_r.
  - inversion HP as [|? ? HPe HPs]; subst.
    cbn [forallb] in Hok. apply andb_prop in Hok. destruct Hok as [Hoe Hos].
    destruct (IS_A_AGTYPE_SCALAR e) eqn:Es.
    + destruct (IH HPs Hos (acc ++ [e]) frames
                  (Some (AGTV_ARRAY false (acc ++ [e])))) as [r' Hr'].
      exists r'. intros toks. cbn [flat_map]. rewrite Es, <- app_assoc.
      cbn [app push_tokens]. unfold push at 1.
      cbn [parse_state push_agtype_value append_element bind cont_val].
      rewrite Hr', <- app_assoc. reflexivity.
    + destruct (IH HPs Hos (acc ++ [e]) frames (Some e)) as [r' Hr'].
      exists r'. intros toks. cbn [flat_map]. rewrite Es, <- app_assoc.
      rewrite (HPe Hoe Es (ArrayFrame false acc)
                 (ArrayFrame false (acc ++ [e])) frames r _ eq_refl).
      rewrite Hr', <- app_assoc. reflexivity.
Qed.

Lemma copy_pairs (pairs : list (string * agtype_value)) :
  Forall (fun kv => copied_by_tokens (snd kv)) pairs ->
  forallb (fun '(_, x) => no_raw x) pairs = true ->
  forall acc pending frames r,
  exists r' pending',
    forall toks,
      push_tokens
        (flat_map
           (fun '(k, v) =>
              (WAGT_KEY, AGTV_STRING k)
                :: (if IS_A_AGTYPE_SCALAR v then [(WAGT_VALUE, v)]
                    else agtype_iterator_tokens v)) pairs ++ toks)
        (mk_in_state (ObjectFrame acc pending :: frames) r)
      = push_tokens toks
          (mk_in_state (ObjectFrame (acc ++ pairs) pending' :: frames) r').
Proof.
  induction pairs as [|[k v] pairs IH]; intros HP Hok acc pending frames r.
  - exists r, pending. intros toks. cbn [flat_map app]. now rewrite app_nil_r.
  - inversion HP as [|? ? HPe HPs]; subst. cbn [snd] in HPe.
    cbn [forallb] in Hok. apply andb_prop in Hok. destruct Hok as [Hoe Hos].
    destruct (IS_A_AGTYPE_SCALAR v) eqn:Es.
    + destruct (IH HPs Hos (acc ++ [(k, v)]) None frames
                  (Some (AGTV_OBJECT (acc ++ [(k, v)])))) as [r' [p' Hr']].
      exists r', p'. intros toks. cbn [flat_map]. rewrite Es, <- app_assoc.
      cbn [app push_tokens]. unfold push at 1.
      cbn [parse_state push_agtype_value append_key bind cont_val].
      unfold push at 1.
      cbn [parse_state push_agtype_value append_value bind cont_val].
      rewrite Hr', <- app_assoc. reflexivity.
    + destruct (IH HPs Hos (acc ++ [(k, v)]) None frames (Some v))
        as [r' [p' Hr']].
      exists r', p'. intros toks. cbn [flat_map]. rewrite Es, <- app_assoc.
      cbn [app push_tokens]. unfold push at 1.
      cbn [parse_state push_agtype_value append_key bind cont_val].
      rewrite (HPe Hoe Es (ObjectFrame acc (Some k))
                 (ObjectFrame (acc ++ [(k, v)]) None) frames _ _ eq_refl).
      rewrite Hr', <- app_assoc. reflexivity.
Qed.

(** Copying a container token by token rebuilds it. *)
Lemma every_container_copied (v : agtype_value) : copied_by_tokens v.
Proof.
  induction v as [| | | | | |pairs IH|pairs IH|raw elems IH|pairs IH]
    using agtype_value_tree_ind; intros Hok Hs; try discriminate Hs;
    intros f f' frames r toks Hf.
  - cbn [no_raw] in Hok. apply andb_prop in Hok. destruct Hok as [Hraw Hok].
    apply negb_true_iff in Hraw. subst raw.
    cbn [agtype_iterator_tokens app push_tokens]. unfold push at 1.
    cbn [parse_state push_agtype_value bind].
    destruct (copy_elements elems IH Hok [] (f :: frames)
                (Some (AGTV_ARRAY false []))) as [r' Hr'].
    rewrite <- app_assoc, Hr'.
    cbn [app push_tokens]. unfold push at 1.
    cbn [parse_state push_agtype_value bind cont_val]. rewrite Hf.
    reflexivity.
  - cbn [no_raw] in Hok.
    cbn [agtype_iterator_tokens app push_tokens]. unfold push at 1.
    cbn [parse_state push_agtype_value bind].
    destruct (copy_pairs pairs IH Hok [] None (f :: frames)
                (Some (AGTV_OBJECT []))) as [r' [p' Hr']].
    rewrite <- app_assoc, Hr'.
    cbn [app push_tokens]. unfold push at 1.
    cbn [parse_state push_agtype_value bind cont_val]. rewrite Hf.
    reflexivity.
Qed.

Section AgtypeArguments.

Context {host : Host}.

Hypothesis host_ok : agtype_host_ok.

(** An argument of type agtype is appended, as the value it holds, to the
    frame on top of the builder. *)
Lemma add_agtype_value (depth : nat) (v : agtype_value) (f f' : parse_frame)
  (frames : agtype_parse_state) (r : option agtype_value) :
  no_raw v = true ->
  append_to_parent f v = Ok f' ->
  exists r',
    add_agtype (S depth) (AgtypeGetDatum (agtype_value_to_agtype v)) false
      (mk_in_state (f :: frames) r) AGTYPEOID false
    = Ok (mk_in_state (f' :: frames) r').
Proof.
  intros Hok Hf. destruct host_ok as (Hoid & Hcat & Hget).
  unfold add_agtype.
  destruct (Z.eqb_spec AGTYPEOID InvalidOid) as [E|_]; [contradiction|].
  destruct (agtype_categorize_type AGTYPEOID) as [tcategory outfuncoid].
  cbn [fst] in Hcat. subst tcategory.
  cbn [datum_to_agtype andb]. rewrite Hget.
  unfold agtype_value_to_agtype.
  destruct (IS_A_AGTYPE_SCALAR v) eqn:Es.
  - cbn [AGT_ROOT_IS_SCALAR agtype_iterator_children bind negb andb].
    unfold insert_scalar. cbn [parse_state].
    destruct f as [raw acc|acc pending]; cbn [append_to_parent] in Hf;
      unfold push; cbn [parse_state push_agtype_value];
      rewrite Hf; cbn [bind]; eexists; reflexivity.
  - assert (Hroot : AGT_ROOT_IS_SCALAR v = false).
    { destruct v; try discriminate Es; [|reflexivity].
      cbn [no_raw] in Hok. apply andb_prop in Hok. destruct Hok as [Hraw _].
      apply negb_true_iff in Hraw. exact Hraw. }
    rewrite Hroot.
    rewrite <- (app_nil_r (agtype_iterator_tokens v)).
    rewrite (every_container_copied v Hok Es f f' frames r [] Hf).
    cbn [push_tokens bind]. eexists. reflexivity.
Qed.

Lemma add_agtype_null (depth : nat) (val : Datum) (f f' : parse_frame)
  (frames : agtype_parse_state) (r : option agtype_value) :
  append_to_parent f AGTV_NULL = Ok f' ->
  exists r',
    add_agtype (S depth) val true (mk_in_state (f :: frames) r) AGTYPEOID
      false
    = Ok (mk_in_state (f' :: frames) r').
Proof.
  intros Hf. destruct host_ok as (Hoid & _).
  unfold add_agtype.
  destruct (Z.eqb_spec AGTYPEOID InvalidOid) as [E|_]; [contradiction|].
  cbn [datum_to_agtype bind negb andb].
  unfold insert_scalar. cbn [parse_state].
  destruct f as [raw acc|acc pending]; cbn [append_to_parent] in Hf;
    unfold push; cbn [parse_state push_agtype_value];
    rewrite Hf; cbn [bind]; eexists; reflexivity.
Qed.

Lemma build_list_loop_values (depth : nat) (args : list (option agtype_value)) :
  forallb argument_ok args = true ->
  forall acc r,
  exists r',
    build_list_loop (S depth) (map agtype_argument args)
      (mk_in_state [ArrayFrame false acc] r)
    = Ok (mk_in_state [ArrayFrame false (acc ++ map argument_value args)] r').
Proof.
  induction args as [|a args IH]; intros Hok acc r.
  - exists r. cbn. now rewrite app_nil_r.
  - cbn [forallb] in Hok. apply andb_prop in Hok. destruct Hok as [Ha Hargs].
    cbn [map build_list_loop].
    assert (Hadd : exists r1,
               (let '(val, type, isnull) := agtype_argument a in
                add_agtype (S depth) val isnull
                  (mk_in_state [ArrayFrame false acc] r) type false)
               = Ok (mk_in_state
                       [ArrayFrame false (acc ++ [argument_value a])] r1)).
    { destruct a as [v|]; cbn [agtype_argument argument_value].
      - apply add_agtype_value; [exact Ha | reflexivity].
      - apply add_agtype_null. reflexivity. }
    destruct Hadd as [r1 Hadd].
    destruct (agtype_argument a) as [[val type] isnull].
    rewrite Hadd. cbn [bind].
    destruct (IH Hargs (acc ++ [argument_value a]) r1) as [r' Hr'].
    exists r'. rewrite Hr', <- app_assoc. reflexivity.
Qed.

(** X13.  A list built from arguments of type agtype holds the values of
    its arguments in order, SQL NULL as the agtype null; so the element at
    an index is the argument at that index, as it was passed. *)
Theorem build_list_holds_its_arguments (depth : nat)
  (args : list (option agtype_value)) :
  forallb argument_ok args = true ->
  Z.of_nat (List.length args) <= UINT32_MAX ->
  agtype_build_list (S depth) (Some (map agtype_argument args))
  = Ok (Some (AGTV_ARRAY false (map argument_value args)))
  /\ forall i a,
      0 <= i -> nth_error args (Z.to_nat i) = Some a ->
      execute_array_access_operator
        (AGTV_ARRAY false (map argument_value args)) (integer_to_agtype i)
      = Ok (Some (agtype_value_to_agtype (argument_value a))).
Proof.
  intros Hok Hlen. split.
  - unfold agtype_build_list.
    change (push empty_in_state WAGT_BEGIN_ARRAY None)
      with (Ok (mk_in_state [ArrayFrame false []]
                  (Some (AGTV_ARRAY false [])))).
    cbn [bind].
    destruct (build_list_loop_values depth args Hok []
                (Some (AGTV_ARRAY false []))) as [r' Hr'].
    rewrite Hr'. cbn [bind app]. reflexivity.
  - intros i a Hi Ha. apply array_access_at.
    + rewrite length_map. exact Hlen.
    + exact Hi.
    + rewrite nth_error_map, Ha. reflexivity.
Qed.

(** X15.  A Vertex and an Edge built with a properties map hold that map
    unchanged, after the identifiers and the label, in the order of the
    fields. *)
Theorem builders_keep_properties (depth : nat) (id start_id end_id : Z)
  (i s e : Z) (label : string) (props : list (string * agtype_value)) :
  builder_host_ok ->
  strlen label <= AGTENTRY_OFFLENMASK ->
  graphid_value id = Ok i ->
  graphid_value start_id = Ok s ->
  graphid_value end_id = Ok e ->
  no_raw (AGTV_OBJECT props) = true ->
  _agtype_build_vertex (S depth) (Some id) (Some label)
    (Some (AGTV_OBJECT props))
  = Ok (AGTV_ARRAY true
          [AGTV_VERTEX (vertex_pairs i label (AGTV_OBJECT props))])
  /\ _agtype_build_edge (S depth) (Some id) (Some start_id) (Some end_id)
       (Some label) (Some (AGTV_OBJECT props))
     = Ok (AGTV_ARRAY true
             [AGTV_EDGE (edge_pairs i s e label (AGTV_OBJECT props))]).
Proof.
  intros Hok Hlabel Hid Hs He Hprops. pose proof Hok as (Hmask & _).
  assert (Hp : forall acc r,
             exists r',
               build_properties (S depth) (Some (AGTV_OBJECT props))
                 (mk_in_state [ObjectFrame acc (Some "properties")] r)
               = Ok (mk_in_state
                       [ObjectFrame
                          (acc ++ [("properties", AGTV_OBJECT props)]) None]
                       r')).
  { intros acc r. unfold build_properties. cbn [AGT_ROOT_IS_OBJECT negb].
    change (AGTV_OBJECT props)
      with (agtype_value_to_agtype (AGTV_OBJECT props)) at 1.
    apply add_agtype_value; [exact Hprops | reflexivity]. }
  split.
  - unfold _agtype_build_vertex.
    change (push empty_in_state WAGT_BEGIN_OBJECT None)
      with (Ok (mk_in_state [ObjectFrame [] None] (Some (AGTV_OBJECT [])))).
    cbn [bind].
    rewrite push_key_in_object by (vm_compute strlen; lia). cbn [bind].
    rewrite (add_graphid_in_object depth _ _ _ _ id i Hok Hid).
    cbn [bind app].
    rewrite push_key_in_object by (vm_compute strlen; lia). cbn [bind].
    unfold string_to_agtype_value. rewrite (checked_string_fits _ Hlabel).
    cbn [bind]. unfold push at 1.
    cbn [parse_state push_agtype_value append_value bind app cont_val].
    rewrite push_key_in_object by (vm_compute strlen; lia). cbn [bind].
    match goal with
    | |- context [build_properties _ _ (mk_in_state [ObjectFrame ?acc _] ?r)] =>
        destruct (Hp acc r) as [r' Hr']
    end.
    rewrite Hr'. cbn [bind app]. reflexivity.
  - unfold _agtype_build_edge.
    change (push empty_in_state WAGT_BEGIN_OBJECT None)
      with (Ok (mk_in_state [ObjectFrame [] None] (Some (AGTV_OBJECT [])))).
    cbn [bind].
    rewrite push_key_in_object by (vm_compute strlen; lia). cbn [bind].
    rewrite (add_graphid_in_object depth _ _ _ _ id i Hok Hid).
    cbn [bind app].
    rewrite push_key_in_object by (vm_compute strlen; lia). cbn [bind].
    rewrite (add_graphid_in_object depth _ _ _ _ start_id s Hok Hs).
    cbn [bind app].
    rewrite push_key_in_object by (vm_compute strlen; lia). cbn [bind].
    rewrite (add_graphid_in_object depth _ _ _ _ end_id e Hok He).
    cbn [bind app].
    rewrite push_key_in_object by (vm_compute strlen; lia). cbn [bind].
    unfold string_to_agtype_value. rewrite (checked_string_fits _ Hlabel).
    cbn [bind]. unfold push at 1.
    cbn [parse_state push_agtype_value append_value bind app cont_val].
    rewrite push_key_in_object by (vm_compute strlen; lia). cbn [bind].
    match goal with
    | |- context [build_properties _ _ (mk_in_state [ObjectFrame ?acc _] ?r)] =>
        destruct (Hp acc r) as [r' Hr']
    end.
    rewrite Hr'. cbn [bind app]. reflexivity.
Qed.

(** X14.  What a map builder refuses: an odd number of arguments, a key
    that is SQL NULL, and a key of type agtype, also when it holds a
    scalar. *)
Theorem build_map_refuses (depth : nat) (args : list (Datum * Oid * bool))
  (kval : Datum) (ktype : Oid) (key : agtype_value)
  (val : Datum * Oid * bool) :
  (Z.odd (Z.of_nat (List.length args)) = true ->
   agtype_build_map depth (Some args) = Failed ArgumentListOdd)
  /\ (Z.even (Z.of_nat (List.length args)) = true ->
      agtype_build_map depth (Some ((kval, ktype, true) :: val :: args))
      = Failed (KeyMustNotBeNull 1)
      /\ agtype_build_map (S depth)
           (Some (agtype_argument (Some key) :: val :: args))
         = Failed (Raised KeyMustBeScalar)).
Proof.
  assert (Hmod : forall n, Z.odd n = negb (n mod 2 =? 0)).
  { intros n. rewrite Zmod_odd. destruct (Z.odd n); reflexivity. }
  split.
  - intros Hodd. unfold agtype_build_map. rewrite <- Hmod, Hodd. reflexivity.
  - intros Heven.
    assert (Hlen : negb (Z.of_nat (List.length (val :: val :: args)) mod 2
                         =? 0) = false).
    { rewrite <- Hmod. cbn [List.length]. rewrite !Nat2Z.inj_succ.
      rewrite Z.odd_succ, Z.even_succ, <- Z.negb_even, Heven. reflexivity. }
    destruct host_ok as (Hoid & Hcat & Hget).
    destruct val as [[v t] n].
    split; unfold agtype_build_map; cbn [List.length] in Hlen |- *;
      rewrite Hlen.
    + reflexivity.
    + change (push empty_in_state WAGT_BEGIN_OBJECT None)
        with (Ok (mk_in_state [ObjectFrame [] None]
                    (Some (AGTV_OBJECT [])))).
      cbn [agtype_argument build_map_loop].
      unfold add_agtype.
      destruct (Z.eqb_spec AGTYPEOID InvalidOid) as [E|_]; [contradiction|].
      destruct (agtype_categorize_type AGTYPEOID) as [tcategory outfuncoid].
      cbn [fst] in Hcat. subst tcategory.
      cbn [datum_to_agtype andb bind]. reflexivity.
Qed.

End AgtypeArguments.

Lemma reference_host_agtype_ok :
  agtype_host_ok (host := RefHost.reference_host).
Proof.
  split; [|split].
  - vm_compute. discriminate.
  - vm_compute. reflexivity.
  - intros x. reflexivity.
Qed.

Lemma build_list_holds_its_arguments_witness :
  agtype_build_list (host := RefHost.reference_host) 1
    (Some (map (agtype_argument (host := RefHost.reference_host))
             [Some example_object; None; Some (AGTV_INTEGER 7)]))
  = Ok (Some (AGTV_ARRAY false [example_object; AGTV_NULL; AGTV_INTEGER 7])).
Proof.
  refine (proj1 (build_list_holds_its_arguments
                   (host := RefHost.reference_host)
                   reference_host_agtype_ok 0
                   [Some example_object; None; Some (AGTV_INTEGER 7)] _ _)).
  - reflexivity.
  - vm_compute. discriminate.
Defined.

Lemma build_map_refuses_witness :
  agtype_build_map (host := RefHost.reference_host) 1
    (Some [(RefHost.DText "k", 25, false)])
  = Failed ArgumentListOdd.
Proof.
  refine (proj1 (build_map_refuses (host := RefHost.reference_host)
                   reference_host_agtype_ok 0
                   [(RefHost.DText "k", 25, false)]
                   (RefHost.DText "k") 25 AGTV_NULL
                   (RefHost.DText "k", 25, false)) _).
  reflexivity.
Defined.

Lemma builders_keep_properties_witness :
  _agtype_build_vertex (host := RefHost.reference_host) 1 (Some 5)
    (Some "person") (Some (AGTV_OBJECT [("name", AGTV_STRING "x")]))
  = Ok (AGTV_ARRAY true
          [AGTV_VERTEX
             (vertex_pairs 5 "person"
                (AGTV_OBJECT [("name", AGTV_STRING "x")]))]).
Proof.
  refine (proj1 (builders_keep_properties (host := RefHost.reference_host)
                   reference_host_agtype_ok 0 5 5 5 5 5 5 "person"
                   [("name", AGTV_STRING "x")] reference_host_builder_ok
                   _ _ _ _ _)).
  - vm_compute. discriminate.
  - reflexivity.
  - reflexivity.
  - reflexivity.
  - reflexivity.
Defined.

(** ** Indented output *)

Section IndentedOutput.

Context {host : Host}.

(** X16.  Writing a value never fails, with indentation or without: no
    token of the iterator and no scalar of the value is unknown to the
    worker, and the nesting of Vertex and Edge values is the depth the run
    is given. *)
Theorem rendering_never_fails (c : agtype) :
  (exists s, agtype_to_cstring_indent c = Ok s)
  /\ (exists s, agtype_out c = Ok s)
  /\ forall out, exists s,
       agtype_to_cstring_worker
         (agtype_put_escaped_value (vertex_depth c)) true out c = Ok s.
Proof.
  assert (H : forall indent out, exists s,
               agtype_to_cstring_worker
                 (agtype_put_escaped_value (vertex_depth c)) indent out c
               = Ok s).
  { intros indent out. unfold agtype_to_cstring_worker.
    exact (worker_loop_total _ indent (printable (vertex_depth c)) _
             (put_total (vertex_depth c)) _ (le_n _)
             (tokens_of_tree_ok _ c (le_n _)) worker_init out). }
  split; [|split].
  - exact (H true "").
  - exact (H false "").
  - exact (H true).
Qed.

End IndentedOutput.
